(** * Radio 357 podcast tools: a shallow embedding and its properties

  The repository is a set of Python scripts that crawl the Radio 357
  content API, aggregate episodes by author, render RSS feeds and
  download media.  This development embeds the parts of those scripts
  that the specification talks about and proves (or refutes) the
  specification's statements on the embedding.

  Conventions of the embedding:
  - a Python [str] is a [string]; its characters are read as code
    points below 256;
  - a Python [int] is a [Z];
  - a JSON object read with [dict.get] is a record whose fields are
    options ([None] stands for an absent key or a JSON null where the
    source treats both alike, and the two are kept apart where it does
    not);
  - a call that may raise returns a sum or an option; a function with
    a blanket [except] is total;
  - the network is an oracle answering each request from the log of
    the events so far, and the log is threaded through the code. *)

From stdpp Require Import base option list strings sorting gmap.
From Stdlib Require Import Ascii ZArith Lia DecimalString.

#[local] Open Scope Z_scope.

(** ** Python strings *)

Module PyStr.

(** [bool(s)] for a string: the empty string is falsy. *)
Definition truthy (s : string) : bool :=
  match s with
  | EmptyString => false
  | String _ _ => true
  end.

(** [x or d] where [x] is a string or [None]. *)
Definition or_else (x : option string) (d : string) : string :=
  match x with
  | Some s => if truthy s then s else d
  | None => d
  end.

(** [c.isspace()] for a code point below 256: TAB, LF, VT, FF, CR, the
    separators 0x1c-0x1f, space, NEL (0x85) and NBSP (0xa0). *)
Definition isspace (c : ascii) : bool :=
  let n := nat_of_ascii c in
  ((9 <=? n)%nat && (n <=? 13)%nat)
  || ((28 <=? n)%nat && (n <=? 32)%nat)
  || (n =? 133)%nat || (n =? 160)%nat.

(** [s.lstrip()] *)
Fixpoint lstrip (s : string) : string :=
  match s with
  | EmptyString => EmptyString
  | String c s' => if isspace c then lstrip s' else s
  end.

(** [s.rstrip()]: the tail is stripped first, and a whitespace
    character in front of an emptied tail goes too. *)
Fixpoint rstrip (s : string) : string :=
  match s with
  | EmptyString => EmptyString
  | String c s' =>
      match rstrip s' with
      | EmptyString => if isspace c then EmptyString else String c EmptyString
      | r => String c r
      end
  end.

(** [s.strip()] *)
Definition strip (s : string) : string := rstrip (lstrip s).

(** [s.startswith(p)] *)
Definition startswith (s p : string) : bool := String.prefix p s.

(** [sep in s] for a one-character [sep]. *)
Fixpoint contains_char (sep : ascii) (s : string) : bool :=
  match s with
  | EmptyString => false
  | String c s' => if decide (c = sep) then true else contains_char sep s'
  end.

(** [sub in s] *)
Fixpoint contains (sub s : string) : bool :=
  if String.prefix sub s then true
  else match s with
       | EmptyString => false
       | String _ s' => contains sub s'
       end.

(** [s.split(sep)] for a one-character separator: never an empty list,
    [''.split('-') == ['']]. *)
Fixpoint split (sep : ascii) (s : string) : list string :=
  match s with
  | EmptyString => [EmptyString]
  | String c s' =>
      if decide (c = sep) then EmptyString :: split sep s'
      else match split sep s' with
           | p :: ps => String c p :: ps
           | [] => [String c EmptyString]
           end
  end.

(** [str(n)] for an integer. *)
Definition str_of_int (n : Z) : string :=
  NilZero.string_of_int (Z.to_int n).

(** [l[:n]] on a list: a negative [n] counts from the end. *)
Definition slice_to {A} (l : list A) (n : Z) : list A :=
  if 0 <=? n then take (Z.to_nat n) l
  else take (Z.to_nat (Z.of_nat (length l) + n)) l.

(** [c.isdigit()] for a code point below 256: the ASCII digits and the
    superscripts two, three and one (0xb2, 0xb3, 0xb9). *)
Definition isdigit_char (c : ascii) : bool :=
  let n := nat_of_ascii c in
  ((48 <=? n)%nat && (n <=? 57)%nat)
  || (n =? 178)%nat || (n =? 179)%nat || (n =? 185)%nat.

Fixpoint all_digits (s : string) : bool :=
  match s with
  | EmptyString => true
  | String c s' => isdigit_char c && all_digits s'
  end.

(** [s.isdigit()]: every character is a digit and there is one at
    least. *)
Definition isdigit (s : string) : bool := truthy s && all_digits s.

(** [s.replace(old, new)] for one-character [old] and [new]. *)
Fixpoint replace_char (old new : ascii) (s : string) : string :=
  match s with
  | EmptyString => EmptyString
  | String c s' =>
      String (if decide (c = old) then new else c) (replace_char old new s')
  end.

(** The line end that a text file read with universal newlines gives
    each line: one LF. *)
Definition newline : string := String (ascii_of_nat 10) EmptyString.

(** [s[:n]] on a string, for [n] that is not negative. *)
Definition str_slice_to (s : string) (n : nat) : string := String.substring 0 n s.

End PyStr.

(** ** JSON values as the scripts read them *)

(** What [d.get(key)] finds: the key may be absent, hold a JSON null
    (Python [None]) or hold a value of the expected type. *)
Inductive field (A : Type) :=
| Absent
| Null
| Val (a : A).
Arguments Absent {A}.
Arguments Null {A}.
Arguments Val {A} a.

#[global] Instance field_eq_dec {A} `{EqDecision A} : EqDecision (field A).
Proof. solve_decision. Defined.

(** [d.get(key)]: an absent key reads as [None]. *)
Definition get {A} (f : field A) : option A :=
  match f with
  | Val a => Some a
  | Absent | Null => None
  end.

(** [d.get(key, default)]: only an absent key takes the default. *)
Definition get_default {A} (f : field A) (d : A) : option A :=
  match f with
  | Absent => Some d
  | Null => None
  | Val a => Some a
  end.

(** The value of [episode.get("id")]: [None] (the key is absent or
    holds null), a string or an integer. *)
Inductive json_id :=
| IdNone
| IdStr (s : string)
| IdInt (n : Z).

(** What an f-string interpolates for [{episode_id}]. *)
Definition format_id (i : json_id) : string :=
  match i with
  | IdNone => "None"
  | IdStr s => s
  | IdInt n => PyStr.str_of_int n
  end.

(** What an f-string interpolates for a string or [None]. *)
Definition format_opt (o : option string) : string :=
  match o with
  | Some s => s
  | None => "None"
  end.

(** A Python [float] that is a number: [mantissa * 2 ^ exponent], or
    an infinity (what [json] makes of [1e999]). *)
Inductive pyfloat :=
| Finite (mantissa exponent : Z)
| Infinite (negative : bool).

(** What an episode holds under ["publishedAt"] when it is not null.
    The content API sends an integer, the epoch time in milliseconds;
    [podcaster357] also expects an ISO string there, and a JSON number
    written with a fraction or an exponent is read as a float.  A JSON
    boolean is an [int] for Python ([True] is 1, in [isinstance], in
    arithmetic and in comparisons), so it is an integer here.  JSON
    arrays and objects and the non-standard [NaN] are left out: the
    feed builders treat them like a string, and their comparisons
    follow no order. *)
Inductive timestamp :=
| TsInt (millis : Z)
| TsFloat (x : pyfloat)
| TsStr (s : string).

(** A member of an episode's [team] list. *)
Record member := Member {
  m_name : field string;
  m_email : field string;
  m_id : field string
}.

(** An entry of an episode's [categories] list. *)
Record category := Category {
  c_name : field string
}.

(** An episode object of the content API, with the three fields the
    cache layer injects ([_program_name], [_program_id],
    [_program_image]).  Elements of [team] and [categories] may be JSON
    nulls. *)
Record episode := Episode {
  e_id : json_id;
  e_title : field string;
  e_subTitle : field string;
  e_desc : field string;
  e_description : field string;
  e_descriptionRich : field string;
  e_publishedAt : field timestamp;
  e_isFree : field bool;
  e_duration : field Z;
  e_image : field string;
  e_team : field (list (option member));
  e_categories : field (list (option category));
  e_program_name : field string;
  e_program_id : field string;
  e_program_image : field string
}.

(** Python exceptions that reach the caller. *)
Inductive exn :=
| TypeError
| AttributeError
| DateRangeError.

Inductive result (A : Type) :=
| Ok (a : A)
| Raise (e : exn).
Arguments Ok {A} a.
Arguments Raise {A} e.

#[global] Instance result_ret : MRet result := fun A a => Ok a.

#[global] Instance result_bind : MBind result := fun A B k r =>
  match r with
  | Ok a => k a
  | Raise e => Raise e
  end.

(** ** Lists and dicts *)

(** [bool(x)] for a value that is a string or [None]. *)
Definition truthy_opt (x : option string) : bool :=
  match x with
  | Some s => PyStr.truthy s
  | None => false
  end.

(** [x or y] on such values. *)
Definition py_or (x y : option string) : option string :=
  if truthy_opt x then x else y.

(** [l.sort(key=key, reverse=True)] on integer keys.  Python's sort is
    stable, also with [reverse=True]: records with equal keys keep their
    order.  There is one stable sort for a given order, written here as
    an insertion sort: [x], which stood before all of [l], goes in front
    of the first record whose key is not larger than its own. *)
Fixpoint insert_desc {A} (key : A -> Z) (x : A) (l : list A) : list A :=
  match l with
  | [] => [x]
  | y :: l' => if key y <=? key x then x :: l else y :: insert_desc key x l'
  end.

Fixpoint sort_desc {A} (key : A -> Z) (l : list A) : list A :=
  match l with
  | [] => []
  | x :: l' => insert_desc key x (sort_desc key l')
  end.

(** The order of the result: larger keys first. *)
Definition desc {A} (key : A -> Z) (a b : A) : Prop := key b <= key a.

(** The same sort by an order [leb] on the records ([leb a b]: [b] is
    not smaller than [a]). *)
Fixpoint insert_desc_by {A} (leb : A -> A -> bool) (x : A) (l : list A) : list A :=
  match l with
  | [] => [x]
  | y :: l' => if leb y x then x :: l else y :: insert_desc_by leb x l'
  end.

Fixpoint sort_desc_by {A} (leb : A -> A -> bool) (l : list A) : list A :=
  match l with
  | [] => []
  | x :: l' => insert_desc_by leb x (sort_desc_by leb l')
  end.

(** [not (y < x)] for two numbers.  Python compares an [int] with a
    [float] by value, exactly: both are brought to the smaller
    exponent. *)
Definition pyfloat_leb (x y : pyfloat) : bool :=
  match x, y with
  | Infinite true, _ => true
  | _, Infinite false => true
  | Finite m1 e1, Finite m2 e2 =>
      let e := Z.min e1 e2 in
      m1 * 2 ^ (e1 - e) <=? m2 * 2 ^ (e2 - e)
  | _, _ => false
  end.

(** The kinds of sort keys: a number ([int] or [float]), a string, or
    [None].  Keys of one of the first two kinds compare with each other;
    any other comparison, also of [None] with [None], raises
    [TypeError]. *)
Definition number_of (k : option timestamp) : option pyfloat :=
  match k with
  | Some (TsInt n) => Some (Finite n 0)
  | Some (TsFloat x) => Some x
  | Some (TsStr _) | None => None
  end.

Definition text_of (k : option timestamp) : option string :=
  match k with
  | Some (TsStr s) => Some s
  | Some (TsInt _) | Some (TsFloat _) | None => None
  end.

(** [not (b < a)] for two keys that compare: numbers by value, strings
    by code points. *)
Definition key_leb (a b : option timestamp) : bool :=
  match number_of a, number_of b with
  | Some x, Some y => pyfloat_leb x y
  | _, _ =>
      match text_of a, text_of b with
      | Some s, Some t => String.leb s t
      | _, _ => false
      end
  end.

(** A number above 0: a timestamp later than the epoch. *)
Definition after_epoch (t : timestamp) : Prop :=
  match t with
  | TsInt n => 0 < n
  | TsFloat (Finite m _) => 0 < m
  | TsFloat (Infinite negative) => negative = false
  | TsStr _ => False
  end.

(** The order of the result: keys that are not smaller first. *)
Definition desc_keys {A} (key : A -> option timestamp) (a b : A) : Prop :=
  key_leb (key b) (key a) = true.

(** [l.sort(key=key, reverse=True)] for such keys.  With two records
    or more every record is compared with another at least once, and
    a sort cannot tell the order of records it did not link by
    comparisons: it raises [TypeError] unless all keys are numbers or
    all are strings.  With fewer records nothing is compared. *)
Definition sort_desc_opt {A} (key : A -> option timestamp) (l : list A)
    : result (list A) :=
  if (length l <=? 1)%nat then Ok l
  else if forallb (fun x => bool_decide (is_Some (number_of (key x)))) l
          || forallb (fun x => bool_decide (is_Some (text_of (key x)))) l
       then Ok (sort_desc_by (fun a b => key_leb (key a) (key b)) l)
       else Raise TypeError.

(** [sorted(names)] for the elements of a set of program names, each a
    string or [None]: strings compare by code points, a comparison with
    [None] raises. *)
Fixpoint insert_asc (x : string) (l : list string) : list string :=
  match l with
  | [] => [x]
  | y :: l' => if String.leb x y then x :: l else y :: insert_asc x l'
  end.

Definition sorted_names (names : list (option string)) : result (list (option string)) :=
  if (length names <=? 1)%nat then Ok names
  else if forallb (fun x => bool_decide (is_Some x)) names
       then Ok (Some <$> foldr insert_asc [] (omap id names))
       else Raise TypeError.

(** [s.add(x)] on a set kept as a list without repetition. *)
Definition set_add (x : option string) (s : list (option string)) : list (option string) :=
  if bool_decide (x ∈ s) then s else s ++ [x].

(** A dict with string keys, in insertion order. *)
Fixpoint dict_lookup {V} (k : string) (d : list (string * V)) : option V :=
  match d with
  | [] => None
  | (k', v) :: d' => if bool_decide (k' = k) then Some v else dict_lookup k d'
  end.

(** [d[k] = f(d[k])] for a key that is present. *)
Fixpoint dict_alter {V} (f : V -> V) (k : string) (d : list (string * V)) : list (string * V) :=
  match d with
  | [] => []
  | (k', v) :: d' =>
      if bool_decide (k' = k) then (k', f v) :: d' else (k', v) :: dict_alter f k d'
  end.

(** [d[k] = v]: a present key keeps its place. *)
Definition dict_set {V} (k : string) (v : V) (d : list (string * V)) : list (string * V) :=
  match dict_lookup k d with
  | Some _ => dict_alter (fun _ => v) k d
  | None => d ++ [(k, v)]
  end.

(** ** Configuration files *)

(** A text file as [open(path, 'r', encoding='utf-8')] and the loop
    [for line in f] find it: missing ([FileNotFoundError]), unreadable
    (another [OSError], or bytes that are not UTF-8), or its lines, each
    with its line end. *)
Inductive text_file :=
| FileMissing
| FileUnreadable
| FileLines (lines : list string).

(** The body of [for line in f] in [load_program_ids]: the line is
    trimmed, blank lines and comments are passed over, and a line is kept
    when it is made of digits. *)
Definition program_id_of_line (line : string) : option string :=
  let line := PyStr.strip line in
  if negb (PyStr.truthy line) || PyStr.startswith line "#" then None
  else if PyStr.isdigit line then Some line
  else None.

(** The body of [for line in f] in [load_author_ids]: a line is kept
    when it has an at sign. *)
Definition author_id_of_line (line : string) : option string :=
  let line := PyStr.strip line in
  if negb (PyStr.truthy line) || PyStr.startswith line "#" then None
  else if PyStr.contains_char "@" line then Some line
  else None.

(** What a loader gives its caller: the list, [None] after the message
    that the file was not found, or an exception that is not handled. *)
Inductive loaded :=
| Loaded (ids : list string)
| LoadedNone
| LoadRaise.

(** [load_program_ids(config_file)] of generate_author_feed_by_id.py and
    list_authors.py, which are the same text. *)
Definition load_program_ids (f : text_file) : loaded :=
  match f with
  | FileMissing => LoadedNone
  | FileUnreadable => LoadRaise
  | FileLines lines => Loaded (omap program_id_of_line lines)
  end.

(** [load_author_ids(authors_file)] of the same two files. *)
Definition load_author_ids (f : text_file) : loaded :=
  match f with
  | FileMissing => LoadedNone
  | FileUnreadable => LoadRaise
  | FileLines lines => Loaded (omap author_id_of_line lines)
  end.

(** [load_program_ids(config_file)] of generate_all_feeds.py: the same
    loop; a missing file ends the run with [sys.exit(1)]. *)
Module generate_all_feeds.

Inductive loaded_or_exit :=
| Ids (program_ids : list string)
| SysExit (code : Z)
| Raises.

Definition load_program_ids (f : text_file) : loaded_or_exit :=
  match f with
  | FileMissing => SysExit 1
  | FileUnreadable => Raises
  | FileLines lines => Ids (omap program_id_of_line lines)
  end.

End generate_all_feeds.

(** ** File names *)

(** The characters that [sanitize_filename] replaces, in the order of
    its [invalid_chars]: less-than, greater-than, colon, double quote
    (code point 34), slash, backslash (code point 92), bar, question
    mark, asterisk. *)
Definition invalid_chars : list ascii :=
  ["<"; ">"; ":"; ascii_of_nat 34; "/"; ascii_of_nat 92; "|"; "?"; "*"]%char.

(** [sanitize_filename(filename)] of podcaster357.py and
    download_from_feed.py, which are the same text: each invalid
    character in turn is replaced by an underscore, then the name is cut
    to 200 characters. *)
Definition sanitize_filename (filename : string) : string :=
  PyStr.str_slice_to
    (foldl (fun filename char => PyStr.replace_char char "_" filename)
       filename invalid_chars)
    200.

(** The string with [f] applied to each character. *)
Fixpoint string_map (f : ascii -> ascii) (s : string) : string :=
  match s with
  | EmptyString => EmptyString
  | String c s' => String (f c) (string_map f s')
  end.

(** What the replacements make of one character. *)
Definition clean_char (c : ascii) : ascii :=
  foldl (fun c old => if decide (c = old) then "_"%char else c) c invalid_chars.

(** ** The content API *)

(** The answer to [get_program_episodes(program_id, page)] as the
    loop reads it: the call, or a test on its result, raises (transport
    error, HTTP error status, a body that is not a JSON object), or the
    JSON has no [_embedded.podcasts], or it has the list (null reads as
    the empty list: both are falsy). *)
Inductive page_response :=
| PageRaise
| PageNoPodcasts
| PagePodcasts (episodes : list episode).

(** The data of [get_program_info(program_id)]. *)
Record program_info := ProgramInfo {
  p_name : field string;
  p_desc : field string;
  p_image : field string
}.

(** The content API as the crawl sees it: the same request always gets
    the same answer (stable upstream ordering). *)
Record content_api := ContentApi {
  get_program_info : string -> option program_info;
  get_program_episodes : string -> nat -> page_response
}.

(** The crawl loop shared by [fetch_all_episodes] (generate_rss_feed.py)
    and [fetch_all_episodes_from_program] (generate_author_feed_by_id.py,
    list_authors.py), which differ only in what they print.  One unit of
    [fuel] is one turn of the [while]; [None] means the fuel ran out. *)
Fixpoint crawl_loop (api : content_api) (program_id : string) (max_episodes : Z)
    (fuel : nat) (all_episodes : list episode) (page : nat)
    : option (list episode) :=
  match fuel with
  | O => None
  | S fuel' =>
      if Z.of_nat (length all_episodes) <? max_episodes then
        match get_program_episodes api program_id page with
        | PageRaise => Some all_episodes
        | PageNoPodcasts => Some all_episodes
        | PagePodcasts episodes =>
            match episodes with
            | [] => Some all_episodes
            | _ :: _ =>
                let all_episodes := all_episodes ++ episodes in
                if (length episodes <? 250)%nat then Some all_episodes
                else crawl_loop api program_id max_episodes fuel'
                       all_episodes (S page)
            end
        end
      else Some all_episodes
  end.

(** Turns of the loop that always suffice: each turn that continues adds
    at least 250 episodes. *)
Definition crawl_fuel (max_episodes : Z) : nat := S (Z.to_nat max_episodes).

(** The same loop with the bound on the running total removed: what
    pagination produces when nothing limits it.  It is cut off after
    [pages] requests, so it is defined on every upstream, also one that
    never sends a short page. *)
Fixpoint unlimited_pagination (api : content_api) (program_id : string)
    (pages : nat) (all_episodes : list episode) (page : nat) : list episode :=
  match pages with
  | O => all_episodes
  | S pages' =>
      match get_program_episodes api program_id page with
      | PageRaise => all_episodes
      | PageNoPodcasts => all_episodes
      | PagePodcasts episodes =>
          match episodes with
          | [] => all_episodes
          | _ :: _ =>
              let all_episodes := all_episodes ++ episodes in
              if (length episodes <? 250)%nat then all_episodes
              else unlimited_pagination api program_id pages'
                     all_episodes (S page)
          end
      end
  end.

(** *** Listings without a bound

    [fetch_all_episodes] of podcaster357.py and [fetch_all_programs]
    (podcaster357.py, generate_author_feed_by_id.py, list_authors.py)
    page through a listing in a [while True] loop. *)

(** What the loop finds under ["total"] when the page has the keys
    ["page"] and ["total"]: a number [t] (an integer, or a float whose
    ceiling is [t]: [len(all) >= total] reads the same), or a value
    that [>=] cannot compare with an [int], such as null (the
    [TypeError] is caught and ends the loop). *)
Inductive total_field :=
| NoTotal
| TotalInt (total : Z)
| TotalOther.

(** A page of a listing as the loop reads it: the request or a test on
    its result raises, or the JSON has no list under [_embedded], or it
    has the list (null reads as the empty list). *)
Inductive listing (A : Type) :=
| ListingRaise
| ListingNone
| Listing (items : list A) (total : total_field).
Arguments ListingRaise {A}.
Arguments ListingNone {A}.
Arguments Listing {A} items total.

(** [if "page" in data and "total" in data: if len(all) >= total: break] *)
Definition total_reached (total : total_field) (count : nat) : bool :=
  match total with
  | NoTotal => false
  | TotalInt t => t <=? Z.of_nat count
  | TotalOther => true
  end.

(** The loop.  One unit of [fuel] is one turn of the [while]; [None]
    means the fuel ran out. *)
Fixpoint paginate {A} (get_page : nat -> listing A) (fuel : nat)
    (all_items : list A) (page : nat) : option (list A) :=
  match fuel with
  | O => None
  | S fuel' =>
      match get_page page with
      | ListingRaise => Some all_items
      | ListingNone => Some all_items
      | Listing items total =>
          match items with
          | [] => Some all_items
          | _ :: _ =>
              let all_items := all_items ++ items in
              if total_reached total (length all_items) then Some all_items
              else if (length items <? 250)%nat then Some all_items
              else paginate get_page fuel' all_items (S page)
          end
      end
  end.

(** [fetch_all_programs()]: the listing of programs, from page 0. *)
Definition fetch_all_programs {program} (get_programs : nat -> listing program)
    (fuel : nat) : option (list program) :=
  paginate get_programs fuel [] 0%nat.

(** The page of episodes that [get_program_episodes] gives, with what
    the page holds under ["total"]. *)
Definition listing_of (r : page_response) (total : total_field) : listing episode :=
  match r with
  | PageRaise => ListingRaise
  | PageNoPodcasts => ListingNone
  | PagePodcasts episodes => Listing episodes total
  end.

(** The pages of a program's episodes as a listing; [totals] tells what
    each page holds under ["total"]. *)
Definition episodes_page (api : content_api) (totals : string -> nat -> total_field)
    (program_id : string) (page : nat) : listing episode :=
  listing_of (get_program_episodes api program_id page) (totals program_id page).

(** ** The network and the token file *)

Definition GATEWAY_BASE : string := "https://gateway.r357.eu/api".
Definition AUTH_BASE : string := "https://auth.r357.eu/api".

(** A call of [requests.get] or [requests.post]. *)
Inductive request :=
| HttpGet (url : string) (headers : list (string * string))
| HttpPost (url : string) (json : list (string * string)).

(** What the run has done so far: the requests it sent, and the calls
    of [Auth.refresh] it made. *)
Inductive event :=
| EvRequest (r : request)
| EvCallRefresh.

(** [resp.json()]: the body is not JSON or not an object (the call, or
    the [.get] after it, raises), or it is an object; a key that holds
    null reads like an absent one. *)
Inductive body :=
| BodyInvalid
| BodyObject (d : gmap string string).

(** The outcome of a request: an exception (timeout, connection error)
    or a response. *)
Inductive http_outcome :=
| HttpRaise
| HttpResponse (status_code : Z) (b : body).

(** The contents of the token file. *)
Inductive file_content :=
| FileGarbage
| FileTokens (accessToken refreshToken : option string).

(** The surroundings of a run: the servers, which answer a request
    knowing everything that happened before it, whether the token
    file can be written, and the local time zone: [utcoffset t] is
    what the C library's [localtime] adds to the instant [t] (seconds
    since the epoch), in seconds. *)
Record env := Env {
  http : list event -> request -> http_outcome;
  token_file_writable : bool;
  utcoffset : Z -> Z
}.

(** The zones the C library accepts are less than 25 hours from
    UTC. *)
Definition zone_ok (e : env) : Prop :=
  forall t, -90000 < utcoffset e t < 90000.

(** What a run changes: the log of events and the token file ([None]
    when it does not exist). *)
Record world := World {
  log : list event;
  token_file : option file_content
}.

Definition record_event (ev : event) (w : world) : world :=
  World (log w ++ [ev]) (token_file w).

Definition send (e : env) (r : request) (w : world) : http_outcome * world :=
  (http e (log w) r, record_event (EvRequest r) w).

(** ** class Auth

    The class is written out in podcaster357.py, generate_rss_feed.py,
    generate_author_feed_by_id.py and download_from_feed.py; the copies
    differ in what they print and in how the [chmod] is guarded. *)
Module Auth.

(** The fields [self.access_token] and [self.refresh_token]. *)
Record t := Make {
  access_token : option string;
  refresh_token : option string
}.

(** [bool(token)] *)
Definition truthy (token : option string) : bool :=
  match token with
  | Some s => PyStr.truthy s
  | None => false
  end.

(** [load_tokens(self)]: a missing file and a file that does not parse
    leave the fields as they are. *)
Definition load_tokens (self : t) (w : world) : t :=
  match token_file w with
  | Some (FileTokens a r) => Make a r
  | Some FileGarbage => self
  | None => self
  end.

(** [__init__]: both fields start as [None], then the file is read. *)
Definition init (w : world) : t := load_tokens (Make None None) w.

(** [save_tokens(self, access_token, refresh_token)]: the fields are
    assigned first; a failure to write the file is swallowed. *)
Definition save_tokens (e : env) (access_token refresh_token : option string)
    (self : t) (w : world) : t * world :=
  (Make access_token refresh_token,
   if token_file_writable e
   then World (log w) (Some (FileTokens access_token refresh_token))
   else w).

(** [login(self, email, password)] *)
Definition login (e : env) (email password : string) (self : t) (w : world)
    : bool * t * world :=
  let url := AUTH_BASE +:+ "/auth/login" in
  let '(resp, w) := send e (HttpPost url [("email", email); ("password", password)]) w in
  match resp with
  | HttpResponse status_code b =>
      if status_code =? 200 then
        match b with
        | BodyObject result =>
            let '(self, w) :=
              save_tokens e (result !! "accessToken") (result !! "refreshToken") self w in
            (true, self, w)
        | BodyInvalid => (false, self, w)
        end
      else (false, self, w)
  | HttpRaise => (false, self, w)
  end.

(** [refresh(self)] *)
Definition refresh (e : env) (self : t) (w : world) : bool * t * world :=
  let w := record_event EvCallRefresh w in
  match refresh_token self with
  | None => (false, self, w)
  | Some token =>
      if negb (PyStr.truthy token) then (false, self, w)
      else
        let url := AUTH_BASE +:+ "/auth/refresh" in
        let '(resp, w) := send e (HttpPost url [("refreshToken", token)]) w in
        match resp with
        | HttpResponse status_code b =>
            if status_code =? 200 then
              match b with
              | BodyObject result =>
                  let '(self, w) :=
                    save_tokens e (result !! "accessToken") (result !! "refreshToken") self w in
                  (true, self, w)
              | BodyInvalid => (false, self, w)
              end
            else (false, self, w)
        | HttpRaise => (false, self, w)
        end
  end.

(** [get_headers(self)] *)
Definition get_headers (self : t) : list (string * string) :=
  match access_token self with
  | Some token =>
      if PyStr.truthy token then [("Authorization", "Bearer " +:+ token)] else []
  | None => []
  end.

(** [is_authenticated(self)]: [self.access_token is not None] *)
Definition is_authenticated (self : t) : bool :=
  match access_token self with
  | Some _ => true
  | None => false
  end.

(** *** Notions to state the properties of the class *)

(** The tokens of a response that [login] and [refresh] accept: status
    200 and a JSON object as body. *)
Definition accepted (resp : http_outcome) : option (option string * option string) :=
  match resp with
  | HttpResponse status_code (BodyObject result) =>
      if status_code =? 200
      then Some (result !! "accessToken", result !! "refreshToken")
      else None
  | _ => None
  end.

(** The request [refresh] sends for a held refresh token. *)
Definition refresh_request (token : string) : request :=
  HttpPost (AUTH_BASE +:+ "/auth/refresh") [("refreshToken", token)].

(** The request [login] sends. *)
Definition login_request (email password : string) : request :=
  HttpPost (AUTH_BASE +:+ "/auth/login") [("email", email); ("password", password)].

(** The credentials invariant of the specification: a held access token
    comes with a held refresh token. *)
Definition credentials_ok (self : t) : bool :=
  match access_token self, refresh_token self with
  | Some _, None => false
  | _, _ => true
  end.

(** The same condition on a pair of tokens about to be stored. *)
Definition pair_ok (access_token refresh_token : option string) : bool :=
  credentials_ok (Make access_token refresh_token).

(** The condition on the token file: what it stores is such a pair. *)
Definition file_ok (w : world) : bool :=
  match token_file w with
  | Some (FileTokens a r) => pair_ok a r
  | _ => true
  end.

(** The condition on the servers: an accepted response carries such a
    pair. *)
Definition servers_send_pairs (e : env) : Prop :=
  forall l r a rt, accepted (http e l r) = Some (a, rt) -> pair_ok a rt = true.

End Auth.

(** The URL of the media-URL endpoint for an episode. *)
Definition audio_url_endpoint (podcast_id : json_id) : string :=
  GATEWAY_BASE +:+ "/content/podcast/" +:+ format_id podcast_id +:+ "/url".

(** [auth.get_headers() if auth else {}] *)
Definition headers_of (auth : option Auth.t) : list (string * string) :=
  match auth with
  | Some a => Auth.get_headers a
  | None => []
  end.

(** [data = resp.json(); data.get("url")], which raises on a body that
    is not a JSON object. *)
Definition url_of_body (b : body) : option (option string) :=
  match b with
  | BodyObject data => Some (data !! "url")
  | BodyInvalid => None
  end.

(** ** Downloads *)

(** The [content-length] header of a response. *)
Inductive content_length :=
| LengthAbsent
| LengthNumber (n : Z)
| LengthMalformed.

(** A streamed response: its status, its header, the chunks that
    [iter_content] yields and whether the stream ends well ([false]: an
    exception is raised after the chunks listed, by the transport or by
    the write). *)
Record stream := Stream {
  st_status : Z;
  st_content_length : content_length;
  st_chunks : list string;
  st_complete : bool
}.

(** The outcome of [requests.get(url, stream=True, ...)]. *)
Inductive get_outcome :=
| GetRaise
| GetStream (r : stream).

(** The surroundings of a download: the server, whether a path can be
    opened for writing, and what the external HLS tool does. *)
Record download_env := DownloadEnv {
  fetch : string -> get_outcome;
  can_open : string -> bool;
  hls_tool : string -> string -> gmap string string -> bool * gmap string string
}.

(** [resp.raise_for_status()] raises on the statuses 400 to 599. *)
Definition is_http_error (status : Z) : bool :=
  (400 <=? status) && (status <? 600).

(** [f.write(chunk)] on the file at [path], opened before. *)
Definition write_chunk (path chunk : string) (fs : gmap string string)
    : gmap string string :=
  <[path := default "" (fs !! path) +:+ chunk]> fs.

(** [for chunk in resp.iter_content(...): if chunk: f.write(chunk) ...] *)
Fixpoint write_chunks (path : string) (chunks : list string)
    (fs : gmap string string) : gmap string string :=
  match chunks with
  | [] => fs
  | chunk :: chunks' =>
      write_chunks path chunks'
        (if PyStr.truthy chunk then write_chunk path chunk fs else fs)
  end.

(** The handler of the [try]: [if output_path.exists(): output_path.unlink()]
    and [return False]. *)
Definition report_failure (path : string) (fs : gmap string string)
    : bool * gmap string string :=
  (false, delete path fs).

(** The direct download, the [try] block of [download_file] in
    podcaster357.py and in download_from_feed.py (which differ in the
    request headers and in what they print): the file system maps a
    path to the contents of the file there. *)
Definition download_direct (e : download_env) (url output_path : string)
    (fs : gmap string string) : bool * gmap string string :=
  match fetch e url with
  | GetRaise => report_failure output_path fs
  | GetStream resp =>
      if is_http_error (st_status resp) then report_failure output_path fs
      else
        match st_content_length resp with
        | LengthMalformed => report_failure output_path fs
        | LengthAbsent | LengthNumber _ =>
            if can_open e output_path then
              let fs := <[output_path := ""]> fs in
              let fs := write_chunks output_path (st_chunks resp) fs in
              if st_complete resp then (true, fs) else report_failure output_path fs
            else report_failure output_path fs
        end
  end.

Module podcaster357.

(** [get_audio_url(podcast_id, auth)]: returns the pair
    [(url, needs_auth)]; the [auth] object, when there is one, is
    changed in place by a refresh. *)
Definition get_audio_url (e : env) (podcast_id : json_id)
    (auth : option Auth.t) (w : world)
    : (option string * bool) * option Auth.t * world :=
  let url := audio_url_endpoint podcast_id in
  let headers := headers_of auth in
  let '(resp, w) := send e (HttpGet url headers) w in
  match resp with
  | HttpRaise => ((None, false), auth, w)
  | HttpResponse status_code b =>
      if status_code =? 200 then
        match url_of_body b with
        | Some u => ((u, false), auth, w)
        | None => ((None, false), auth, w)
        end
      else
        match auth with
        | Some a =>
            if (status_code =? 401) && Auth.is_authenticated a then
              let '(refreshed, a, w) := Auth.refresh e a w in
              if refreshed then
                let headers := Auth.get_headers a in
                let '(resp, w) := send e (HttpGet url headers) w in
                match resp with
                | HttpRaise => ((None, false), Some a, w)
                | HttpResponse status_code b =>
                    if status_code =? 200 then
                      match url_of_body b with
                      | Some u => ((u, false), Some a, w)
                      | None => ((None, false), Some a, w)
                      end
                    else ((None, true), Some a, w)
                end
              else ((None, true), Some a, w)
            else if status_code =? 403 then ((None, true), auth, w)
            else ((None, false), auth, w)
        | None =>
            if status_code =? 403 then ((None, true), auth, w)
            else ((None, false), auth, w)
        end
  end.

(** [download_file(url, output_path, description)]: an HLS stream goes
    to [download_hls_stream], which runs an external tool. *)
Definition download_file (e : download_env) (url output_path : string)
    (fs : gmap string string) : bool * gmap string string :=
  if PyStr.contains ".m3u8" url then hls_tool e url output_path fs
  else download_direct e url output_path fs.

(** [fetch_all_episodes(program_id)]: all pages of the program, with no
    bound. *)
Definition fetch_all_episodes (api : content_api)
    (totals : string -> nat -> total_field) (program_id : string) (fuel : nat)
    : option (list episode) :=
  paginate (episodes_page api totals program_id) fuel [] 0%nat.

End podcaster357.

(** Counting in a log: calls of [Auth.refresh], and GET requests. *)
Definition is_refresh_call (ev : event) : bool :=
  match ev with
  | EvCallRefresh => true
  | _ => false
  end.

Definition refresh_calls (l : list event) : nat :=
  length (filter (fun ev => is_refresh_call ev = true) l).

Definition is_get (ev : event) : bool :=
  match ev with
  | EvRequest (HttpGet _ _) => true
  | _ => false
  end.

Definition get_requests (l : list event) : nat :=
  length (filter (fun ev => is_get ev = true) l).

(** [get_audio_url(podcast_id, auth)] of generate_rss_feed.py and
    generate_author_feed_by_id.py (the two are the same text): returns
    the URL or [None]. *)
Definition feed_get_audio_url (e : env) (podcast_id : json_id)
    (auth : option Auth.t) (w : world)
    : option string * option Auth.t * world :=
  let url := audio_url_endpoint podcast_id in
  let headers := headers_of auth in
  let '(resp, w) := send e (HttpGet url headers) w in
  match resp with
  | HttpRaise => (None, auth, w)
  | HttpResponse status_code b =>
      if status_code =? 200 then
        match url_of_body b with
        | Some u => (u, auth, w)
        | None => (None, auth, w)
        end
      else
        match auth with
        | Some a =>
            if (status_code =? 401) && Auth.is_authenticated a then
              let '(refreshed, a, w) := Auth.refresh e a w in
              if refreshed then
                let headers := Auth.get_headers a in
                let '(resp, w) := send e (HttpGet url headers) w in
                match resp with
                | HttpRaise => (None, Some a, w)
                | HttpResponse status_code b =>
                    if status_code =? 200 then
                      match url_of_body b with
                      | Some u => (u, Some a, w)
                      | None => (None, Some a, w)
                      end
                    else (None, Some a, w)
                end
              else (None, Some a, w)
            else (None, auth, w)
        | None => (None, auth, w)
        end
  end.

(** The loop run with that fuel.  It never runs out
    ([crawl_loop_terminates] below), so the default is never taken. *)
Definition crawl (api : content_api) (program_id : string) (max_episodes : Z)
    : list episode :=
  default [] (crawl_loop api program_id max_episodes
                (crawl_fuel max_episodes) [] 0%nat).

(** [bool(is_free)] for [is_free = episode.get("isFree", True)]. *)
Definition is_free_of (isFree : field bool) : bool :=
  match get_default isFree true with
  | Some b => b
  | None => false
  end.

Definition is_free (ep : episode) : bool := is_free_of (e_isFree ep).

(** The media-URL endpoint answers by the episode alone, as far as the
    run can tell: in every state of the session and the world that
    [reachable] allows, [get_audio_url] gives [resolve podcast_id] and
    leaves a state that [reachable] allows. *)
Definition resolves_stably (e : env) (resolve : json_id -> option string)
    (reachable : option Auth.t -> world -> Prop) : Prop :=
  forall podcast_id auth w,
    reachable auth w ->
    let '(url, auth', w') := feed_get_audio_url e podcast_id auth w in
    url = resolve podcast_id /\ reachable auth' w'.

(** [bool(audio_url)] for the URL that [resolve] gives an episode. *)
Definition resolved (resolve : json_id -> option string) (ep : episode) : bool :=
  truthy_opt (resolve (e_id ep)).

(** Whether an episode gets an item: it passes the exclusive-content
    filter and its URL resolves. *)
Definition kept (include_exclusive : bool) (resolve : json_id -> option string)
    (ep : episode) : bool :=
  (is_free ep || include_exclusive) && resolved resolve ep.

(** ** Feed items *)

(** The instant an item's [pubDate] renders: [datetime.fromtimestamp]
    of the episode's timestamp, or [datetime.now()].  The text that
    [strftime] makes of it depends on the local time zone and is left
    out. *)
Inductive pub_date :=
| FromTimestamp (millis : Z)
| Now.

(** The first and the last second of the years 1 to 9999, counted from
    1970-01-01 00:00:00 on the same calendar. *)
Definition FIRST_SECOND : Z := -62135596800.
Definition LAST_SECOND : Z := 253402300799.

(** The span [datetime.fromtimestamp] looks back to detect a repeated
    local hour. *)
Definition max_fold_seconds : Z := 24 * 3600.

(** The local time of the instant [t], as seconds on the local
    calendar; [None] when its year is not one of 1 to 9999, where
    [datetime] raises [ValueError] ([OSError] or [OverflowError] when
    the year is out of the platform's range too). *)
Definition local (e : env) (t : Z) : option Z :=
  let seconds := t + utcoffset e t in
  if (FIRST_SECOND <=? seconds) && (seconds <=? LAST_SECOND) then Some seconds
  else None.

(** Whether [datetime.fromtimestamp(millis / 1000)] returns, on a POSIX
    system.  The quotient is a float whose whole seconds are
    [millis / 1000] rounded down wherever the year is in range.  The
    function works in local time: it converts the instant, then the
    instant [max_fold_seconds] before it and, when the offset from UTC
    went down in between, the instant before that change; each
    conversion raises when its year is not one of 1 to 9999. *)
Definition fromtimestamp_ok (e : env) (millis : Z) : bool :=
  let timet := millis / 1000 in
  match local e timet with
  | None => false
  | Some result_seconds =>
      match local e (timet - max_fold_seconds) with
      | None => false
      | Some probe_seconds =>
          let transition := result_seconds - probe_seconds - max_fold_seconds in
          if transition <? 0
          then bool_decide (is_Some (local e (timet + transition)))
          else true
      end
  end.

(** [if isinstance(published_at, int): pub_date = datetime.fromtimestamp(published_at / 1000)
     else: pub_date = datetime.now()], where [published_at] is
    [episode.get("publishedAt", 0)]: null, a string and a float take
    the current time. *)
Definition pub_date_of (e : env) (published_at : option timestamp) : result pub_date :=
  match published_at with
  | Some (TsInt millis) =>
      if fromtimestamp_ok e millis then Ok (FromTimestamp millis)
      else Raise DateRangeError
  | Some (TsFloat _) | Some (TsStr _) | None => Ok Now
  end.

(** [f"{n:02d}"] for [n] that is not negative. *)
Definition pad2 (n : Z) : string :=
  if n <? 10 then "0" +:+ PyStr.str_of_int n else PyStr.str_of_int n.

(** The text of [itunes:duration], for a positive [duration]. *)
Definition duration_str (duration : Z) : string :=
  let hours := duration / 3600 in
  let minutes := (duration mod 3600) / 60 in
  let seconds := duration mod 60 in
  if 0 <? hours
  then PyStr.str_of_int hours +:+ ":" +:+ pad2 minutes +:+ ":" +:+ pad2 seconds
  else PyStr.str_of_int minutes +:+ ":" +:+ pad2 seconds.

(** [if duration > 0: ...]: the text of [itunes:duration] when there is
    one; a null duration cannot be compared. *)
Definition itunes_duration_of (duration : option Z) : result (option string) :=
  match duration with
  | Some d => Ok (if 0 <? d then Some (duration_str d) else None)
  | None => Raise TypeError
  end.

Definition episode_link (episode_id : json_id) : string :=
  "https://radio357.pl/podcasty/audycje/odcinek/" +:+ format_id episode_id +:+ "/".

Module generate_rss_feed.

(** [fetch_all_episodes(program_id, max_episodes)] *)
Definition fetch_all_episodes (api : content_api) (program_id : string)
    (max_episodes : Z) : list episode :=
  PyStr.slice_to (crawl api program_id max_episodes) max_episodes.

(** [f"radio357-{program_id}-{episode_id}"], the text of an item's
    [guid] element. *)
Definition item_guid (program_id : string) (episode_id : json_id) : string :=
  "radio357-" +:+ program_id +:+ "-" +:+ format_id episode_id.

(** An [item] element of the program feed. *)
Record item := Item {
  item_title : option string;
  item_link : string;
  item_guid_text : string;
  item_pubDate : pub_date;
  item_description : option string;
  item_enclosure_url : string;
  item_enclosure_type : string;
  item_itunes_duration : option string;
  item_itunes_summary : option string;
  item_itunes_image : option string
}.

(** What one turn of [for episode in episodes] does. *)
Inductive outcome :=
| Added (it : item)
| Skipped.

(** The part of the loop body that builds the item, once the audio URL
    is known: the publish date, the sub-elements, the duration. *)
Definition make_item (e : env) (program_id : string) (program_image : option string)
    (episode : episode) (audio_url : string) : result item :=
  let episode_id := e_id episode in
  let episode_title :=
    get_default (e_title episode) ("Odcinek " +:+ format_id episode_id) in
  let episode_desc := get_default (e_desc episode) "" in
  let published_at := get_default (e_publishedAt episode) (TsInt 0) in
  let duration := get_default (e_duration episode) 0 in
  let episode_image :=
    match e_image episode with
    | Absent => program_image
    | Null => None
    | Val image => Some image
    end in
  pub_date ← pub_date_of e published_at;
  itunes_duration ← itunes_duration_of duration;
  Ok {| item_title := episode_title;
        item_link := episode_link episode_id;
        item_guid_text := item_guid program_id episode_id;
        item_pubDate := pub_date;
        item_description := py_or episode_desc episode_title;
        item_enclosure_url := audio_url;
        item_enclosure_type := "audio/mpeg";
        item_itunes_duration := itunes_duration;
        item_itunes_summary := py_or episode_desc episode_title;
        item_itunes_image :=
          if truthy_opt episode_image then episode_image else None |}.

(** The item made of an episode to which [resolve] gives a URL. *)
Definition item_for (e : env) (program_id : string) (program_image : option string)
    (resolve : json_id -> option string) (episode : episode) : result item :=
  make_item e program_id program_image episode (default "" (resolve (e_id episode))).

(** No step of [make_item] raises on the episode. *)
Definition renderable (e : env) (episode : episode) : Prop :=
  e_duration episode <> Null
  /\ forall millis,
       get_default (e_publishedAt episode) (TsInt 0) = Some (TsInt millis) ->
       fromtimestamp_ok e millis = true.

(** The body of [for episode in episodes]: the exclusive-content
    filter, the audio URL, the item. *)
Definition feed_step (e : env) (program_id : string) (program_image : option string)
    (include_exclusive : bool) (episode : episode)
    (auth : option Auth.t) (w : world)
    : result (outcome * option Auth.t * world) :=
  if negb (is_free episode) && negb include_exclusive then Ok (Skipped, auth, w)
  else
    let '(audio_url, auth, w) := feed_get_audio_url e (e_id episode) auth w in
    match audio_url with
    | None => Ok (Skipped, auth, w)
    | Some audio_url =>
        if negb (PyStr.truthy audio_url) then Ok (Skipped, auth, w)
        else
          it ← make_item e program_id program_image episode audio_url;
          Ok (Added it, auth, w)
    end.

(** The loop: the outcomes of the turns, in order, and the session and
    world after the last. *)
Fixpoint feed_loop (e : env) (program_id : string) (program_image : option string)
    (include_exclusive : bool) (episodes : list episode)
    (auth : option Auth.t) (w : world)
    : result (list outcome * option Auth.t * world) :=
  match episodes with
  | [] => Ok ([], auth, w)
  | episode :: episodes' =>
      '(o, auth, w) ← feed_step e program_id program_image include_exclusive
                         episode auth w;
      '(os, auth, w) ← feed_loop e program_id program_image include_exclusive
                          episodes' auth w;
      Ok (o :: os, auth, w)
  end.

(** The items added, in order. *)
Definition items_of (os : list outcome) : list item :=
  omap (fun o => match o with Added it => Some it | Skipped => None end) os.

(** The feed document, with the two counts that are printed. *)
Record feed := Feed {
  channel_title : option string;
  channel_description : option string;
  channel_image : option string;
  items : list item;
  added_count : nat;
  skipped_count : nat
}.

(** [generate_rss_feed(program_id, output_file, max_episodes, include_exclusive, auth)]:
    [None] is the early [return False] when the program's info cannot be
    fetched.  The XML text and its file are left out. *)
Definition generate_rss_feed (e : env) (api : content_api) (program_id : string)
    (max_episodes : Z) (include_exclusive : bool)
    (auth : option Auth.t) (w : world)
    : option (result (feed * option Auth.t * world)) :=
  match get_program_info api program_id with
  | None => None
  | Some program_info =>
      let program_name := get_default (p_name program_info) "3odca57er" in
      let program_desc := get_default (p_desc program_info) "" in
      let program_image := get_default (p_image program_info) "" in
      let episodes := fetch_all_episodes api program_id max_episodes in
      Some ('(os, auth, w) ← feed_loop e program_id program_image include_exclusive
                                episodes auth w;
            Ok ({| channel_title := program_name;
                   channel_description :=
                     py_or program_desc
                       (Some ("Podcast " +:+ format_opt program_name +:+ " z Radio 357"));
                   channel_image :=
                     if truthy_opt program_image then program_image else None;
                   items := items_of os;
                   added_count := length (items_of os);
                   skipped_count := length os - length (items_of os) |},
                auth, w))
  end.

End generate_rss_feed.

(** ** Author aggregation *)

(** A value of [authors_dict]. *)
Record author_data := AuthorData {
  ad_name : string;
  ad_email : string;
  ad_episode_count : Z;
  ad_programs : list (option string)
}.

(** An entry of the list the aggregation returns.  [s_email] is the key
    of [authors_dict], which list_authors.py writes under ['id'] and
    ['email'], generate_author_feed_by_id.py under ['id'] and
    generate_all_author_feeds.py under ['email']. *)
Record author_summary := AuthorSummary {
  s_email : string;
  s_name : string;
  s_episode_count : Z;
  s_programs : list (option string)
}.

(** The body of [if author_email and author_name:], the same in the
    three aggregations: a new key gets a fresh entry, then the entry's
    count goes up by one and the program name joins its set. *)
Definition add_author (program_name : option string) (author_name author_email : string)
    (authors_dict : list (string * author_data)) : list (string * author_data) :=
  let authors_dict :=
    match dict_lookup author_email authors_dict with
    | Some _ => authors_dict
    | None => authors_dict ++ [(author_email, AuthorData author_name author_email 0 [])]
    end in
  dict_alter
    (fun data => AuthorData (ad_name data) (ad_email data)
                   (ad_episode_count data + 1)
                   (set_add program_name (ad_programs data)))
    author_email authors_dict.

(** [(member.get(key) or "").strip()] *)
Definition stripped (f : field string) : string :=
  PyStr.strip (PyStr.or_else (get f) "").

(** [episode.get("team") or []] *)
Definition team_of (ep : episode) : list (option member) :=
  default [] (get (e_team ep)).

(** [program_info.get("name", f"Program {program_id}")] *)
Definition program_name_of (info : program_info) (program_id : string) : option string :=
  get_default (p_name info) ("Program " +:+ program_id).

(** The contribution of one team member in list_authors.py and
    generate_author_feed_by_id.py.  A null member is skipped; so is an
    empty object, which has neither name nor email. *)
Definition scan_member (program_name : option string)
    (authors_dict : list (string * author_data)) (m : option member)
    : list (string * author_data) :=
  match m with
  | None => authors_dict
  | Some m =>
      let author_name := stripped (m_name m) in
      let author_email := stripped (m_email m) in
      if PyStr.truthy author_email && PyStr.truthy author_name
      then add_author program_name author_name author_email authors_dict
      else authors_dict
  end.

Definition scan_episode (program_name : option string)
    (authors_dict : list (string * author_data)) (ep : episode)
    : list (string * author_data) :=
  foldl (scan_member program_name) authors_dict (team_of ep).

(** The entries of [authors_dict] as the list that is returned:
    [sorted(list(data['programs']))] for each, then the sort by
    [episode_count], largest first. *)
Definition summaries (authors_dict : list (string * author_data))
    : result (list author_summary) :=
  authors_list ← mapM (fun '(email, data) =>
                          programs ← sorted_names (ad_programs data);
                          mret (AuthorSummary email (ad_name data)
                                  (ad_episode_count data) programs))
                   authors_dict;
  mret (sort_desc s_episode_count authors_list).

Module generate_author_feed_by_id.

(** [fetch_all_episodes_from_program(program_id, max_episodes_per_program)];
    list_authors.py has the same function. *)
Definition fetch_all_episodes_from_program (api : content_api)
    (program_id : string) (max_episodes_per_program : Z) : list episode :=
  PyStr.slice_to (crawl api program_id max_episodes_per_program)
    max_episodes_per_program.

(** [f"radio357-author-{author_id}-{episode_id}"], the text of an
    item's [guid] element. *)
Definition item_guid (author_id : string) (episode_id : json_id) : string :=
  "radio357-author-" +:+ author_id +:+ "-" +:+ format_id episode_id.

(** A value of [episodes_cache]. *)
Record cache_data := CacheData {
  cd_program_name : option string;
  cd_program_image : option string;
  cd_episodes : list episode
}.

(** A field that holds [x] ([None] is stored as null). *)
Definition stored (x : option string) : field string :=
  match x with
  | Some s => Val s
  | None => Null
  end.

(** [episode["_program_name"] = program_name] and the two other
    assignments of the cache layer. *)
Definition inject (program_name : option string) (program_id : string)
    (program_image : option string) (ep : episode) : episode :=
  Episode (e_id ep) (e_title ep) (e_subTitle ep) (e_desc ep) (e_description ep)
    (e_descriptionRich ep) (e_publishedAt ep) (e_isFree ep) (e_duration ep)
    (e_image ep) (e_team ep) (e_categories ep)
    (stored program_name) (Val program_id) (stored program_image).

(** One turn of the loop over the programs in
    [collect_all_authors_for_selection]. *)
Definition select_program (api : content_api)
    (acc : list (string * author_data) * list (string * cache_data))
    (program_id : string)
    : list (string * author_data) * list (string * cache_data) :=
  let '(authors_dict, episodes_cache) := acc in
  match get_program_info api program_id with
  | None => acc
  | Some program_info =>
      let program_name := program_name_of program_info program_id in
      let program_image := get_default (p_image program_info) "" in
      let episodes :=
        inject program_name program_id program_image
          <$> fetch_all_episodes_from_program api program_id 500 in
      (foldl (scan_episode program_name) authors_dict episodes,
       dict_set program_id (CacheData program_name program_image episodes)
         episodes_cache)
  end.

(** [collect_all_authors_for_selection(program_ids)] *)
Definition collect_all_authors_for_selection (api : content_api)
    (program_ids : list string)
    : result (list author_summary) * list (string * cache_data) :=
  let '(authors_dict, episodes_cache) :=
    foldl (select_program api) ([], []) program_ids in
  (summaries authors_dict, episodes_cache).

(** The inner [for member in team] of
    [collect_episodes_by_author_id_from_cache]: whether the team has the
    author, and [author_name] afterwards. *)
Fixpoint find_author (author_id : string) (team : list (option member))
    (author_name : option string) : bool * option string :=
  match team with
  | [] => (false, author_name)
  | None :: team' => find_author author_id team' author_name
  | Some m :: team' =>
      let member_email := stripped (m_email m) in
      let member_name := stripped (m_name m) in
      if bool_decide (member_email = author_id)
      then (true, if truthy_opt author_name then author_name else Some member_name)
      else find_author author_id team' author_name
  end.

(** The loop over the episodes of one cached program. *)
Fixpoint filter_episodes (author_id : string) (include_exclusive : bool)
    (episodes : list episode)
    (author_episodes : list episode) (author_name : option string)
    : list episode * option string :=
  match episodes with
  | [] => (author_episodes, author_name)
  | episode :: episodes' =>
      let '(has_author, author_name) :=
        find_author author_id (team_of episode) author_name in
      let author_episodes :=
        if has_author && (is_free episode || include_exclusive)
        then author_episodes ++ [episode]
        else author_episodes in
      filter_episodes author_id include_exclusive episodes' author_episodes author_name
  end.

(** The loop over the cache, with its [break] once enough episodes are
    gathered. *)
Fixpoint scan_cache (author_id : string) (max_total_episodes : Z)
    (include_exclusive : bool) (episodes_cache : list (string * cache_data))
    (author_episodes : list episode) (author_name : option string)
    : list episode * option string :=
  match episodes_cache with
  | [] => (author_episodes, author_name)
  | (_, cache_data) :: episodes_cache' =>
      let '(author_episodes, author_name) :=
        filter_episodes author_id include_exclusive (cd_episodes cache_data)
          author_episodes author_name in
      if max_total_episodes <=? Z.of_nat (length author_episodes)
      then (author_episodes, author_name)
      else scan_cache author_id max_total_episodes include_exclusive
             episodes_cache' author_episodes author_name
  end.

(** The sort key [lambda x: x.get("publishedAt", 0)]. *)
Definition published_key (ep : episode) : option timestamp :=
  get_default (e_publishedAt ep) (TsInt 0).

(** [collect_episodes_by_author_id_from_cache(author_id, episodes_cache,
    max_total_episodes, include_exclusive)] *)
Definition collect_episodes_by_author_id_from_cache (author_id : string)
    (episodes_cache : list (string * cache_data)) (max_total_episodes : Z)
    (include_exclusive : bool) : result (list episode * option string) :=
  let '(author_episodes, author_name) :=
    scan_cache author_id max_total_episodes include_exclusive episodes_cache [] None in
  author_episodes ← sort_desc_opt published_key author_episodes;
  Ok (PyStr.slice_to author_episodes max_total_episodes, author_name).

(** An [item] element of the author feed. *)
Record item := Item {
  item_title : string;
  item_link : string;
  item_guid_text : string;
  item_pubDate : pub_date;
  item_author : option string;
  item_itunes_author : option string;
  item_categories : list (option string);
  item_description : option string;
  item_content_encoded : option string;
  item_enclosure_url : string;
  item_enclosure_type : string;
  item_itunes_duration : option string;
  item_itunes_subtitle : option string;
  item_itunes_summary : option string;
  item_itunes_image : option string
}.

Inductive outcome :=
| Added (it : item)
| Skipped.

(** [[member.get(key, "") for member in team if member.get(key)]]: a
    null member raises. *)
Fixpoint truthy_fields {A} (key : A -> field string) (l : list (option A))
    : result (list string) :=
  match l with
  | [] => Ok []
  | None :: _ => Raise AttributeError
  | Some x :: l' =>
      rest ← truthy_fields key l';
      Ok (match get (key x) with
          | Some s => if PyStr.truthy s then s :: rest else rest
          | None => rest
          end)
  end.

(** The lists made at the top of the loop body, before the
    exclusive-content filter: [authors], [author_emails] and
    [category_names] (with the program name in front). *)
Definition item_lists (episode : episode)
    : result (list string * list string * list (option string)) :=
  let program_name := get_default (e_program_name episode) "Radio 357" in
  let team := team_of episode in
  authors ← truthy_fields m_name team;
  author_emails ← truthy_fields m_email team;
  let categories := default [] (get (e_categories episode)) in
  category_names ← truthy_fields c_name categories;
  let category_names :=
    if truthy_opt program_name
    then program_name :: (Some <$> category_names)
    else Some <$> category_names in
  Ok (authors, author_emails, category_names).

(** The part of the loop body that builds the item, once the audio URL
    is known. *)
Definition make_item (e : env) (author_id : string) (episode : episode)
    (lists : list string * list string * list (option string))
    (audio_url : string) : result item :=
  let '(authors, author_emails, category_names) := lists in
  let episode_id := e_id episode in
  let episode_title :=
    get_default (e_title episode) ("Odcinek " +:+ format_id episode_id) in
  let episode_subtitle := get_default (e_subTitle episode) "" in
  let episode_desc := get_default (e_description episode) "" in
  let episode_desc_rich := get_default (e_descriptionRich episode) "" in
  let published_at := get_default (e_publishedAt episode) (TsInt 0) in
  let duration := get_default (e_duration episode) 0 in
  let episode_image := get_default (e_image episode) "" in
  let program_name := get_default (e_program_name episode) "Radio 357" in
  let program_image := get_default (e_program_image episode) "" in
  let item_image := py_or episode_image program_image in
  pub_date ← pub_date_of e published_at;
  let full_title :=
    "[" +:+ format_opt program_name +:+ "] " +:+ format_opt episode_title in
  let full_title :=
    if truthy_opt episode_subtitle
    then full_title +:+ " - " +:+ format_opt episode_subtitle
    else full_title in
  itunes_duration ← itunes_duration_of duration;
  Ok {| item_title := full_title;
        item_link := episode_link episode_id;
        item_guid_text := item_guid author_id episode_id;
        item_pubDate := pub_date;
        item_author :=
          match authors, author_emails with
          | a :: _, m :: _ => Some (m +:+ " (" +:+ a +:+ ")")
          | _, _ => None
          end;
        item_itunes_author :=
          match authors with
          | _ :: _ => Some (String.concat ", " authors)
          | [] => None
          end;
        item_categories := category_names;
        item_description :=
          if truthy_opt episode_desc_rich then episode_desc_rich
          else py_or episode_desc episode_title;
        item_content_encoded :=
          if truthy_opt episode_desc_rich then episode_desc_rich else None;
        item_enclosure_url := audio_url;
        item_enclosure_type := "audio/mpeg";
        item_itunes_duration := itunes_duration;
        item_itunes_subtitle :=
          if truthy_opt episode_subtitle then episode_subtitle
          else match episode_desc with
               | Some d =>
                   if PyStr.truthy d then Some (String.substring 0 250 d) else None
               | None => None
               end;
        item_itunes_summary := py_or episode_desc episode_title;
        item_itunes_image := if truthy_opt item_image then item_image else None |}.

(** The item made of an episode to which [resolve] gives a URL. *)
Definition item_for (e : env) (author_id : string) (resolve : json_id -> option string)
    (episode : episode) : result item :=
  lists ← item_lists episode;
  make_item e author_id episode lists (default "" (resolve (e_id episode))).

(** No step of the loop body raises on the episode. *)
Definition renderable (e : env) (episode : episode) : Prop :=
  e_duration episode <> Null
  /\ (forall millis,
        get_default (e_publishedAt episode) (TsInt 0) = Some (TsInt millis) ->
        fromtimestamp_ok e millis = true)
  /\ Forall (fun m => is_Some m) (team_of episode)
  /\ Forall (fun c => is_Some c) (default [] (get (e_categories episode))).

(** The body of [for episode in episodes]: the lists, the
    exclusive-content filter, the audio URL, the item. *)
Definition feed_step (e : env) (author_id : string) (include_exclusive : bool)
    (episode : episode) (auth : option Auth.t) (w : world)
    : result (outcome * option Auth.t * world) :=
  lists ← item_lists episode;
  if negb (is_free episode) && negb include_exclusive then Ok (Skipped, auth, w)
  else
    let '(audio_url, auth, w) := feed_get_audio_url e (e_id episode) auth w in
    match audio_url with
    | None => Ok (Skipped, auth, w)
    | Some audio_url =>
        if negb (PyStr.truthy audio_url) then Ok (Skipped, auth, w)
        else
          it ← make_item e author_id episode lists audio_url;
          Ok (Added it, auth, w)
    end.

Fixpoint feed_loop (e : env) (author_id : string) (include_exclusive : bool)
    (episodes : list episode) (auth : option Auth.t) (w : world)
    : result (list outcome * option Auth.t * world) :=
  match episodes with
  | [] => Ok ([], auth, w)
  | episode :: episodes' =>
      '(o, auth, w) ← feed_step e author_id include_exclusive episode auth w;
      '(os, auth, w) ← feed_loop e author_id include_exclusive episodes' auth w;
      Ok (o :: os, auth, w)
  end.

Definition items_of (os : list outcome) : list item :=
  omap (fun o => match o with Added it => Some it | Skipped => None end) os.

(** The feed document: the channel's title, the items, and the two
    counts that are printed. *)
Record feed := Feed {
  channel_title : string;
  items : list item;
  added_count : nat;
  skipped_count : nat
}.

(** [generate_author_rss_feed(author_id, author_name, episodes,
    output_file, include_exclusive, auth)]; the other elements of the
    channel, the XML text and its file are left out. *)
Definition generate_author_rss_feed (e : env) (author_id : string)
    (author_name : option string) (episodes : list episode)
    (include_exclusive : bool) (auth : option Auth.t) (w : world)
    : result (feed * option Auth.t * world) :=
  '(os, auth, w) ← feed_loop e author_id include_exclusive episodes auth w;
  Ok ({| channel_title := format_opt author_name +:+ " - Radia 357";
         items := items_of os;
         added_count := length (items_of os);
         skipped_count := length os - length (items_of os) |},
      auth, w).

(** The inner [for member in team] of [collect_episodes_by_author_id]:
    at the first member with the author's email the name is noted, the
    episode, if it passes the exclusive-content filter, is given the
    program's fields and gathered, and the loop is left.  A member that
    is falsy is passed over. *)
Fixpoint match_team (author_id : string) (include_exclusive : bool)
    (program_name : option string) (program_id : string)
    (program_image : option string) (ep : episode)
    (team : list (option member))
    (author_episodes : list episode) (author_name : option string)
    : list episode * option string :=
  match team with
  | [] => (author_episodes, author_name)
  | None :: team' =>
      match_team author_id include_exclusive program_name program_id program_image
        ep team' author_episodes author_name
  | Some m :: team' =>
      let member_email := stripped (m_email m) in
      let member_name := stripped (m_name m) in
      if bool_decide (member_email = author_id) then
        let author_name :=
          if truthy_opt author_name then author_name else Some member_name in
        if is_free ep || include_exclusive
        then (author_episodes ++ [inject program_name program_id program_image ep],
              author_name)
        else (author_episodes, author_name)
      else
        match_team author_id include_exclusive program_name program_id program_image
          ep team' author_episodes author_name
  end.

(** The loop over the episodes of one program. *)
Fixpoint match_episodes (author_id : string) (include_exclusive : bool)
    (program_name : option string) (program_id : string)
    (program_image : option string) (episodes : list episode)
    (author_episodes : list episode) (author_name : option string)
    : list episode * option string :=
  match episodes with
  | [] => (author_episodes, author_name)
  | episode :: episodes' =>
      let '(author_episodes, author_name) :=
        match_team author_id include_exclusive program_name program_id program_image
          episode (team_of episode) author_episodes author_name in
      match_episodes author_id include_exclusive program_name program_id program_image
        episodes' author_episodes author_name
  end.

(** The loop over the programs, with its [continue] for a program whose
    info cannot be fetched and its [break] once enough episodes are
    gathered. *)
Fixpoint scan_programs (api : content_api) (author_id : string)
    (max_total_episodes : Z) (include_exclusive : bool) (program_ids : list string)
    (author_episodes : list episode) (author_name : option string)
    : list episode * option string :=
  match program_ids with
  | [] => (author_episodes, author_name)
  | program_id :: program_ids' =>
      match get_program_info api program_id with
      | None =>
          scan_programs api author_id max_total_episodes include_exclusive
            program_ids' author_episodes author_name
      | Some program_info =>
          let program_name := program_name_of program_info program_id in
          let program_image := get_default (p_image program_info) "" in
          let episodes := fetch_all_episodes_from_program api program_id 500 in
          let '(author_episodes, author_name) :=
            match_episodes author_id include_exclusive program_name program_id
              program_image episodes author_episodes author_name in
          if max_total_episodes <=? Z.of_nat (length author_episodes)
          then (author_episodes, author_name)
          else scan_programs api author_id max_total_episodes include_exclusive
                 program_ids' author_episodes author_name
      end
  end.

(** [collect_episodes_by_author_id(author_id, program_ids,
    max_total_episodes, include_exclusive)] *)
Definition collect_episodes_by_author_id (api : content_api) (author_id : string)
    (program_ids : list string) (max_total_episodes : Z) (include_exclusive : bool)
    : result (list episode * option string) :=
  let '(author_episodes, author_name) :=
    scan_programs api author_id max_total_episodes include_exclusive program_ids
      [] None in
  author_episodes ← sort_desc_opt published_key author_episodes;
  Ok (PyStr.slice_to author_episodes max_total_episodes, author_name).

End generate_author_feed_by_id.

Module list_authors.

(** One turn of [for i, program_id in enumerate(program_ids, 1)]: a
    program whose info cannot be fetched is skipped. *)
Definition scan_program (api : content_api)
    (authors_dict : list (string * author_data)) (program_id : string)
    : list (string * author_data) :=
  match get_program_info api program_id with
  | None => authors_dict
  | Some program_info =>
      let program_name := program_name_of program_info program_id in
      let episodes :=
        generate_author_feed_by_id.fetch_all_episodes_from_program api program_id 500 in
      foldl (scan_episode program_name) authors_dict episodes
  end.

(** [authors_dict] when the loop over the programs is done. *)
Definition authors_dict_of (api : content_api) (program_ids : list string)
    : list (string * author_data) :=
  foldl (scan_program api) [] program_ids.

(** [collect_all_authors(program_ids)] *)
Definition collect_all_authors (api : content_api) (program_ids : list string)
    : result (list author_summary) :=
  summaries (authors_dict_of api program_ids).

End list_authors.

Module generate_all_author_feeds.

(** [member.get(key, "").strip()]: a key that holds null raises. *)
Definition stripped_strict (f : field string) : result string :=
  match f with
  | Absent => Ok (PyStr.strip "")
  | Null => Raise AttributeError
  | Val s => Ok (PyStr.strip s)
  end.

(** The contribution of one team member: the name comes from ["name"]
    and the identity from ["id"]. *)
Definition scan_member (program_name : option string)
    (authors_dict : list (string * author_data)) (m : option member)
    : result (list (string * author_data)) :=
  match m with
  | None => Ok authors_dict
  | Some m =>
      author_name ← stripped_strict (m_name m);
      author_email ← stripped_strict (m_id m);
      if PyStr.truthy author_email && PyStr.truthy author_name
      then Ok (add_author program_name author_name author_email authors_dict)
      else Ok authors_dict
  end.

Fixpoint scan_team (program_name : option string)
    (authors_dict : list (string * author_data)) (team : list (option member))
    : result (list (string * author_data)) :=
  match team with
  | [] => Ok authors_dict
  | m :: team' =>
      authors_dict ← scan_member program_name authors_dict m;
      scan_team program_name authors_dict team'
  end.

Fixpoint scan_episodes (program_name : option string)
    (authors_dict : list (string * author_data)) (episodes : list episode)
    : result (list (string * author_data)) :=
  match episodes with
  | [] => Ok authors_dict
  | ep :: episodes' =>
      authors_dict ← scan_team program_name authors_dict (team_of ep);
      scan_episodes program_name authors_dict episodes'
  end.

Fixpoint scan_programs (api : content_api)
    (authors_dict : list (string * author_data)) (program_ids : list string)
    : result (list (string * author_data)) :=
  match program_ids with
  | [] => Ok authors_dict
  | program_id :: program_ids' =>
      match get_program_info api program_id with
      | None => scan_programs api authors_dict program_ids'
      | Some program_info =>
          let program_name := program_name_of program_info program_id in
          let episodes :=
            generate_author_feed_by_id.fetch_all_episodes_from_program
              api program_id 500 in
          authors_dict ← scan_episodes program_name authors_dict episodes;
          scan_programs api authors_dict program_ids'
      end
  end.

(** [collect_all_authors(program_ids)]; [list(data['programs'])] lists
    the set in an order Python does not fix, here the order of
    insertion. *)
Definition collect_all_authors (api : content_api) (program_ids : list string)
    : result (list author_summary) :=
  authors_dict ← scan_programs api [] program_ids;
  mret (sort_desc s_episode_count
          ((fun '(email, data) =>
              AuthorSummary email (ad_name data) (ad_episode_count data)
                (ad_programs data)) <$> authors_dict)).

(** One turn of the loop of [build_episodes_cache]: a program whose
    info cannot be fetched is passed over; the episodes of the others
    get the program's fields and go to the cache under the program's
    id. *)
Definition cache_program (api : content_api)
    (cache : list (string * generate_author_feed_by_id.cache_data))
    (program_id : string)
    : list (string * generate_author_feed_by_id.cache_data) :=
  match get_program_info api program_id with
  | None => cache
  | Some program_info =>
      let program_name := program_name_of program_info program_id in
      let program_image := get_default (p_image program_info) "" in
      let episodes :=
        generate_author_feed_by_id.inject program_name program_id program_image
          <$> generate_author_feed_by_id.fetch_all_episodes_from_program
                api program_id 500 in
      dict_set program_id
        (generate_author_feed_by_id.CacheData program_name program_image episodes)
        cache
  end.

(** [build_episodes_cache(program_ids)] *)
Definition build_episodes_cache (api : content_api) (program_ids : list string)
    : list (string * generate_author_feed_by_id.cache_data) :=
  foldl (cache_program api) [] program_ids.

(** The inner [for member in team] of
    [collect_episodes_by_author_optimized]: whether a member has the
    author's email under ["id"], compared as it is read
    ([member.get("id", "")], not trimmed).  A member that is falsy is
    passed over. *)
Fixpoint has_author (author_email : string) (team : list (option member)) : bool :=
  match team with
  | [] => false
  | None :: team' => has_author author_email team'
  | Some m :: team' =>
      if bool_decide (get_default (m_id m) "" = Some author_email) then true
      else has_author author_email team'
  end.

(** The loop over the episodes of one cached program. *)
Fixpoint gather (author_email : string) (include_exclusive : bool)
    (episodes : list episode) (author_episodes : list episode) : list episode :=
  match episodes with
  | [] => author_episodes
  | episode :: episodes' =>
      gather author_email include_exclusive episodes'
        (if has_author author_email (team_of episode)
            && (is_free episode || include_exclusive)
         then author_episodes ++ [episode]
         else author_episodes)
  end.

(** The loop over [program_ids], with its [continue] for an id that is
    not in the cache and its [break] once enough episodes are
    gathered. *)
Fixpoint gather_programs (author_email : string) (max_total_episodes : Z)
    (include_exclusive : bool)
    (all_episodes_cache : list (string * generate_author_feed_by_id.cache_data))
    (program_ids : list string) (author_episodes : list episode) : list episode :=
  match program_ids with
  | [] => author_episodes
  | program_id :: program_ids' =>
      match dict_lookup program_id all_episodes_cache with
      | None =>
          gather_programs author_email max_total_episodes include_exclusive
            all_episodes_cache program_ids' author_episodes
      | Some episodes_data =>
          let author_episodes :=
            gather author_email include_exclusive
              (generate_author_feed_by_id.cd_episodes episodes_data) author_episodes in
          if max_total_episodes <=? Z.of_nat (length author_episodes)
          then author_episodes
          else gather_programs author_email max_total_episodes include_exclusive
                 all_episodes_cache program_ids' author_episodes
      end
  end.

(** [collect_episodes_by_author_optimized(author_email, program_ids,
    all_episodes_cache, max_total_episodes, include_exclusive)] *)
Definition collect_episodes_by_author_optimized (author_email : string)
    (program_ids : list string)
    (all_episodes_cache : list (string * generate_author_feed_by_id.cache_data))
    (max_total_episodes : Z) (include_exclusive : bool) : result (list episode) :=
  author_episodes ←
    sort_desc_opt generate_author_feed_by_id.published_key
      (gather_programs author_email max_total_episodes include_exclusive
         all_episodes_cache program_ids []);
  Ok (PyStr.slice_to author_episodes max_total_episodes).

End generate_all_author_feeds.

(** The team memberships the specification counts for an identity:
    the members of the teams of the episodes scanned, null entries
    aside. *)
Definition scanned_episodes (api : content_api) (program_ids : list string)
    : list episode :=
  program_id ← program_ids;
  match get_program_info api program_id with
  | None => []
  | Some _ =>
      generate_author_feed_by_id.fetch_all_episodes_from_program api program_id 500
  end.

Definition memberships (episodes : list episode) : list member :=
  omap id (episodes ≫= team_of).

(** Memberships that carry the email [email] (after trimming). *)
Definition carrying (email : string) (ms : list member) : list member :=
  filter (fun m => stripped (m_email m) = email) ms.

(** Among them, those with a name that is not empty (after trimming). *)
Definition named (ms : list member) : list member :=
  filter (fun m => PyStr.truthy (stripped (m_name m)) = true) ms.

(** The number of counted memberships of [email] among [ms]. *)
Definition counted (email : string) (ms : list member) : Z :=
  Z.of_nat (length (named (carrying email ms))).

(** The count held for an identity, zero when it has no entry. *)
Definition tally (email : string) (d : list (string * author_data)) : Z :=
  match dict_lookup email d with
  | Some data => ad_episode_count data
  | None => 0
  end.

(** What holds of [authors_dict] all along: keys are not empty and not
    repeated, and an entry has its key as email, a name that is not
    empty and a positive count. *)
Definition well_keyed (d : list (string * author_data)) : Prop :=
  NoDup d.*1
  /\ forall k data, dict_lookup k d = Some data ->
       k <> "" /\ ad_email data = k /\ ad_name data <> ""
       /\ 0 < ad_episode_count data.

(** Every program name gathered is a string. *)
Definition programs_named (d : list (string * author_data)) : Prop :=
  forall k data, dict_lookup k d = Some data ->
    Forall (fun x => is_Some x) (ad_programs data).

(** Whether the team of an episode has a member with the email
    [author_id] (after trimming). *)
Definition on_team (author_id : string) (ep : episode) : bool :=
  existsb (fun m => match m with
                    | Some m => bool_decide (stripped (m_email m) = author_id)
                    | None => false
                    end)
    (team_of ep).

(** The episodes to gather for an author: those with the author on the
    team that pass the exclusive-content filter. *)
Definition wanted (author_id : string) (include_exclusive : bool) (ep : episode) : bool :=
  on_team author_id ep && (is_free ep || include_exclusive).

(** All the episodes of a cache, in its order. *)
Definition cached_episodes
    (episodes_cache : list (string * generate_author_feed_by_id.cache_data))
    : list episode :=
  entry ← episodes_cache; generate_author_feed_by_id.cd_episodes entry.2.

(** The entry of the cache for a program: none when the program's info
    cannot be fetched. *)
Definition cache_entry (api : content_api) (program_id : string)
    : option generate_author_feed_by_id.cache_data :=
  match get_program_info api program_id with
  | None => None
  | Some program_info =>
      let program_name := program_name_of program_info program_id in
      let program_image := get_default (p_image program_info) "" in
      Some (generate_author_feed_by_id.CacheData program_name program_image
              (generate_author_feed_by_id.inject program_name program_id program_image
                 <$> generate_author_feed_by_id.fetch_all_episodes_from_program
                       api program_id 500))
  end.

(** The same with ["id"] in place of the email, compared as it is
    read. *)
Definition on_team_by_id (author_email : string) (ep : episode) : bool :=
  existsb (fun m => match m with
                    | Some m => bool_decide (get_default (m_id m) "" = Some author_email)
                    | None => false
                    end)
    (team_of ep).

(** A field that holds null. *)
Definition is_null {A} (f : field A) : bool :=
  match f with
  | Null => true
  | _ => false
  end.

(** A member on which [member.get("name", "").strip()] or
    [member.get("id", "").strip()] raises. *)
Definition has_null (m : member) : bool := is_null (m_name m) || is_null (m_id m).

(** The number of memberships among [ms] whose trimmed ["id"] is [id]
    and whose trimmed name is not empty. *)
Definition counted_by_id (id : string) (ms : list member) : Z :=
  Z.of_nat (length (filter (fun m => stripped (m_id m) = id
                                     /\ PyStr.truthy (stripped (m_name m)) = true) ms)).

(** The episodes to gather for an author named by ["id"]. *)
Definition wanted_by_id (author_email : string) (include_exclusive : bool)
    (ep : episode) : bool :=
  on_team_by_id author_email ep && (is_free ep || include_exclusive).

(** The cached episodes of the programs listed, in the order of the
    list; a program listed twice gives its episodes twice. *)
Definition listed_episodes
    (all_episodes_cache : list (string * generate_author_feed_by_id.cache_data))
    (program_ids : list string) : list episode :=
  program_id ← program_ids;
  match dict_lookup program_id all_episodes_cache with
  | Some episodes_data => generate_author_feed_by_id.cd_episodes episodes_data
  | None => []
  end.

(** The GET requests among [evs] go to the media-URL endpoint, for
    episodes among [eps]. *)
Definition gets_only_for (eps : list episode) (evs : list event) : Prop :=
  Forall (fun ev => match ev with
                    | EvRequest (HttpGet url _) =>
                        exists ep, ep ∈ eps /\ url = audio_url_endpoint (e_id ep)
                    | _ => True
                    end) evs.

(** The episodes that pass the exclusive-content filter. *)
Definition passing (include_exclusive : bool) (eps : list episode) : list episode :=
  filter (fun ep => is_free ep || include_exclusive = true) eps.

Module download_from_feed.

(** [extract_podcast_id_from_guid(guid)]; the argument is [None] when
    the feed item has no guid element.  [parts[-1]] on an empty list
    would raise inside the [try], whose handler falls through to the
    final [return None]. *)
Definition extract_podcast_id_from_guid (guid : option string) : option string :=
  match guid with
  | None => None
  | Some g =>
      if negb (PyStr.truthy g) then None
      else if PyStr.startswith g "radio357-" then
        let parts := PyStr.split "-"%char g in
        if (2 <=? length parts)%nat then last parts else None
      else None
  end.

(** [download_file(url, output_path, show_progress)] *)
Definition download_file (e : download_env) (url output_path : string)
    (fs : gmap string string) : bool * gmap string string :=
  download_direct e url output_path fs.

(** [get_audio_url_from_api(podcast_id, auth, verbose)]: returns the URL
    or [None]; [podcast_id] is the text read from a guid.  What
    [verbose] prints is left out. *)
Definition get_audio_url_from_api (e : env) (podcast_id : string)
    (auth : option Auth.t) (w : world)
    : option string * option Auth.t * world :=
  let url := audio_url_endpoint (IdStr podcast_id) in
  let headers := headers_of auth in
  let '(resp, w) := send e (HttpGet url headers) w in
  match resp with
  | HttpRaise => (None, auth, w)
  | HttpResponse status_code b =>
      if status_code =? 200 then
        match url_of_body b with
        | Some audio_url => (audio_url, auth, w)
        | None => (None, auth, w)
        end
      else
        match auth with
        | Some a =>
            if (status_code =? 401) && Auth.is_authenticated a then
              let '(refreshed, a, w) := Auth.refresh e a w in
              if refreshed then
                let headers := Auth.get_headers a in
                let '(resp, w) := send e (HttpGet url headers) w in
                match resp with
                | HttpRaise => (None, Some a, w)
                | HttpResponse status_code b =>
                    if status_code =? 200 then
                      match url_of_body b with
                      | Some audio_url => (audio_url, Some a, w)
                      | None => (None, Some a, w)
                      end
                    else (None, Some a, w)
                end
              else (None, Some a, w)
            else (None, auth, w)
        | None => (None, auth, w)
        end
  end.

End download_from_feed.

(** ** The guid as a function of (source kind, owner, episode) *)

(** The two feed builders. *)
Inductive source_kind :=
| ProgramFeed
| AuthorFeed.

Definition guid (k : source_kind) (owner : string) (episode_id : json_id) : string :=
  match k with
  | ProgramFeed => generate_rss_feed.item_guid owner episode_id
  | AuthorFeed => generate_author_feed_by_id.item_guid owner episode_id
  end.

(** ** Notions used in the proofs *)

(** The name noted for the author is the trimmed name of a member with
    the author's email, in one of the episodes [eps]. *)
Definition name_from (author_id : string) (eps : list episode)
    (author_name : option string) : Prop :=
  forall n, author_name = Some n ->
    exists ep m, ep ∈ eps /\ Some m ∈ team_of ep
                 /\ stripped (m_email m) = author_id /\ stripped (m_name m) = n.

(** A member read with its ["id"] in the place of its email. *)
Definition by_id (m : member) : member := Member (m_name m) (m_id m) (m_id m).

Definition team_by_id (team : list (option member)) : list (option member) :=
  (fun m : option member => by_id <$> m) <$> team.

Definition episode_by_id (ep : episode) : episode :=
  Episode (e_id ep) (e_title ep) (e_subTitle ep) (e_desc ep) (e_description ep)
    (e_descriptionRich ep) (e_publishedAt ep) (e_isFree ep) (e_duration ep)
    (e_image ep) (Val (team_by_id (team_of ep))) (e_categories ep)
    (e_program_name ep) (e_program_id ep) (e_program_image ep).

(** The scan of the programs, when no member raises. *)
Definition scan_program_by_id (api : content_api)
    (authors_dict : list (string * author_data)) (program_id : string)
    : list (string * author_data) :=
  match get_program_info api program_id with
  | None => authors_dict
  | Some program_info =>
      foldl (scan_episode (program_name_of program_info program_id)) authors_dict
        (episode_by_id
           <$> generate_author_feed_by_id.fetch_all_episodes_from_program
                 api program_id 500)
  end.

(** The set of program names held for an identity, empty when it has no
    entry. *)
Definition progs (email : string) (d : list (string * author_data)) : list (option string) :=
  match dict_lookup email d with
  | Some data => ad_programs data
  | None => []
  end.

(** What a scan adds to the programs of [email]: the name of the
    program, when the scan counts a membership of [email]. *)
Definition adds (email : string) (pn : option string) (ms : list member)
    (d d' : list (string * author_data)) : Prop :=
  (NoDup (progs email d) -> NoDup (progs email d'))
  /\ forall x, x ∈ progs email d' <-> x ∈ progs email d \/ (x = pn /\ 0 < counted email ms).

(** The programs that count a membership of [email]. *)
Definition counting (email : string) (api : content_api) (pids : list string)
    (x : option string) : Prop :=
  exists pid info,
    pid ∈ pids /\ get_program_info api pid = Some info
    /\ x = program_name_of info pid
    /\ 0 < counted email
             (memberships
                (generate_author_feed_by_id.fetch_all_episodes_from_program api pid 500)).

(** ** Sample surroundings *)

Module Samples.

(** A zone that is an hour ahead of UTC all year. *)
Definition one_hour_east (t : Z) : Z := 3600.

(** A login endpoint that answers 200 with an access token and no
    refresh token. *)
Definition login_without_refresh : env :=
  Env (fun _ _ => HttpResponse 200 (BodyObject {[ "accessToken" := "tok" ]})) true
    one_hour_east.

(** Servers that hand out one fixed pair of tokens, and a media URL to
    whoever presents the new access token (401 to everyone else). *)
Definition expiring_gateway : env :=
  Env (fun _ r =>
         match r with
         | HttpPost _ _ =>
             HttpResponse 200
               (BodyObject {[ "accessToken" := "new-access";
                              "refreshToken" := "new-refresh" ]})
         | HttpGet _ headers =>
             if decide (headers = [("Authorization", "Bearer new-access")])
             then HttpResponse 200 (BodyObject {[ "url" := "https://cdn.example/a.mp3" ]})
             else HttpResponse 401 BodyInvalid
         end) true one_hour_east.

(** A gateway that gives every episode a media URL. *)
Definition open_gateway : env :=
  Env (fun _ _ =>
         HttpResponse 200 (BodyObject {[ "url" := "https://cdn.example/a.mp3" ]}))
    true one_hour_east.

(** A gateway that gives a media URL to requests with the patron's
    token, and 403 to the others. *)
Definition patron_gateway : env :=
  Env (fun _ r =>
         match r with
         | HttpGet _ headers =>
             if decide (headers = [("Authorization", "Bearer patron-token")])
             then HttpResponse 200
                    (BodyObject {[ "url" := "https://cdn.example/a.mp3" ]})
             else HttpResponse 403 BodyInvalid
         | HttpPost _ _ => HttpResponse 500 BodyInvalid
         end) true one_hour_east.

Definition patron_session : Auth.t :=
  Auth.Make (Some "patron-token") (Some "patron-refresh").

(** A session whose access token has expired. *)
Definition stale_session : Auth.t :=
  Auth.Make (Some "old-access") (Some "old-refresh").

Definition fresh_world : world := World [] None.

(** A server whose stream breaks after two chunks. *)
Definition broken_stream : download_env :=
  DownloadEnv
    (fun _ => GetStream (Stream 200 (LengthNumber 100) ["abc"; "def"] false))
    (fun _ => true)
    (fun _ _ fs => (false, fs)).

(** A team member with a name and an email. *)
Definition contributor (name email : string) : member :=
  Member (Val name) (Val email) Absent.

(** An episode with an id and a team, and nothing else. *)
Definition team_episode (n : Z) (team : list (option member)) : episode :=
  Episode (IdInt n) Absent Absent Absent Absent Absent Absent Absent
    Absent Absent (Val team) Absent Absent Absent Absent.

(** One program with two episodes: the team of the first has a member
    with an email and an empty name, the team of the second a member
    with the same email and a name. *)
Definition unnamed_member : content_api :=
  ContentApi
    (fun _ => Some (ProgramInfo (Val "Audycja") Absent Absent))
    (fun _ page =>
       match page with
       | 0%nat => PagePodcasts
                    [team_episode 1 [Some (contributor "" "ann@example.org")];
                     team_episode 2 [Some (contributor "Ann" "ann@example.org")]]
       | _ => PagePodcasts []
       end).

(** An episode of one contributor, with a timestamp and a free flag. *)
Definition stamped_episode (n : Z) (published_at : field timestamp) (free : field bool)
    : episode :=
  Episode (IdInt n) Absent Absent Absent Absent Absent published_at free
    Absent Absent (Val [Some (contributor "Ann" "ann@example.org")]) Absent
    Absent Absent Absent.

(** A cache of one program: an episode without timestamp, then one
    published later than epoch 0. *)
Definition small_cache : list (string * generate_author_feed_by_id.cache_data) :=
  [("1", generate_author_feed_by_id.CacheData (Some "Audycja") None
           [stamped_episode 1 Absent Absent;
            stamped_episode 2 (Val (TsInt 1600000000000)) (Val false)])].

(** A cache of one program: an episode without timestamp, then one
    whose timestamp is an ISO string. *)
Definition dated_cache : list (string * generate_author_feed_by_id.cache_data) :=
  [("1", generate_author_feed_by_id.CacheData (Some "Audycja") None
           [stamped_episode 1 Absent Absent;
            stamped_episode 2 (Val (TsStr "2024-05-01T10:00:00Z")) Absent])].

(** What [open_gateway] gives every episode, and [patron_gateway]
    gives the patron. *)
Definition open_resolve (_ : json_id) : option string :=
  Some "https://cdn.example/a.mp3".

(** An episode with an id and nothing else. *)
Definition bare_episode (n : nat) : episode :=
  Episode (IdInt (Z.of_nat n)) Absent Absent Absent Absent Absent Absent Absent
    Absent Absent Absent Absent Absent Absent Absent.

(** A program whose episodes come as a page of 250 and a page of 10. *)
Definition two_pages : content_api :=
  ContentApi
    (fun _ => Some (ProgramInfo (Val "Audycja") Absent Absent))
    (fun _ page =>
       match page with
       | 0%nat => PagePodcasts (bare_episode <$> seq 0 250)
       | 1%nat => PagePodcasts (bare_episode <$> seq 250 10)
       | _ => PagePodcasts []
       end).

(** A configuration file: a comment, an id with spaces around it, a
    line that is no id, a blank line and an id without a line end. *)
Definition config_lines : list string :=
  ["# programs" +:+ PyStr.newline; "  100037114 " +:+ PyStr.newline;
   "abc" +:+ PyStr.newline; PyStr.newline; "130265"].

(** A file of authors: a comment, an email, a line without an at sign,
    an email that is commented out and an email without a line end. *)
Definition author_lines : list string :=
  ["# authors" +:+ PyStr.newline; " ann@example.org" +:+ PyStr.newline;
   "ann" +:+ PyStr.newline; "#bob@example.org" +:+ PyStr.newline;
   "bob@example.org"].

(** Pages without a total. *)
Definition no_totals (_ : string) (_ : nat) : total_field := NoTotal.

(** A listing of 260 programs in two pages, each reporting the total. *)
Definition listing_with_total (page : nat) : listing nat :=
  match page with
  | 0%nat => Listing (seq 0 250) (TotalInt 260)
  | 1%nat => Listing (seq 250 10) (TotalInt 260)
  | _ => ListingNone
  end.

(** A listing that sends the same full page for ever. *)
Definition endless_listing (_ : nat) : listing nat := Listing (seq 0 250) NoTotal.

(** A server whose stream ends well after three chunks, one of them
    empty. *)
Definition complete_stream : download_env :=
  DownloadEnv
    (fun _ => GetStream (Stream 200 LengthAbsent ["abc"; ""; "def"] true))
    (fun _ => true)
    (fun _ _ fs => (false, fs)).

(** A team member with a name, an email and an id. *)
Definition member_with_id (name email id : string) : member :=
  Member (Val name) (Val email) (Val id).

(** One program with two episodes, whose team members have ids. *)
Definition id_team : content_api :=
  ContentApi
    (fun _ => Some (ProgramInfo (Val "Audycja") Absent Absent))
    (fun _ page =>
       match page with
       | 0%nat => PagePodcasts
                    [team_episode 1 [Some (member_with_id "Ann" "ann@example.org" "ann")];
                     team_episode 2 [Some (member_with_id "Ann" "ann@example.org" "ann");
                                     Some (member_with_id "Bob" "bob@example.org" "bob")]]
       | _ => PagePodcasts []
       end).

End Samples.


(** * Properties *)

(** ** Strings *)

Lemma append_cons c s t : String c s +:+ t = String c (s +:+ t).
Proof. reflexivity. Qed.

Lemma append_nil_l s : "" +:+ s = s.
Proof. reflexivity. Qed.

Lemma append_assoc s t u : (s +:+ t) +:+ u = s +:+ (t +:+ u).
Proof.
  induction s as [|c s IH]; [reflexivity|].
  rewrite !append_cons. by rewrite IH.
Qed.

Lemma split_nonempty sep s : PyStr.split sep s <> [].
Proof.
  destruct s as [|c s]; simpl; [done|].
  case_decide; [done|]. by destruct (PyStr.split sep s).
Qed.

(** [split] distributes over a separator: ['a-b'.split('-')] is
    ['a'.split('-') + 'b'.split('-')]. *)
Lemma split_app_sep sep s t :
  PyStr.split sep (s +:+ String sep t) = PyStr.split sep s ++ PyStr.split sep t.
Proof.
  induction s as [|c s IH].
  - rewrite append_nil_l. simpl. by rewrite decide_True.
  - rewrite append_cons. simpl. rewrite IH.
    case_decide; [done|].
    pose proof (split_nonempty sep s).
    by destruct (PyStr.split sep s).
Qed.

Lemma split_no_sep sep s :
  PyStr.contains_char sep s = false -> PyStr.split sep s = [s].
Proof.
  induction s as [|c s IH]; simpl; [done|].
  case_decide; [done|]. intros Hc. by rewrite (IH Hc).
Qed.

Lemma contains_char_app sep s t :
  PyStr.contains_char sep (s +:+ t)
  = PyStr.contains_char sep s || PyStr.contains_char sep t.
Proof.
  induction s as [|c s IH]; [done|].
  rewrite append_cons. simpl. by case_decide.
Qed.

Lemma split_app_sep_length sep s t :
  (2 <= length (PyStr.split sep (s +:+ String sep t)))%nat.
Proof.
  rewrite split_app_sep, length_app.
  pose proof (split_nonempty sep s). pose proof (split_nonempty sep t).
  destruct (PyStr.split sep s), (PyStr.split sep t); simpl; try done; lia.
Qed.

(** The last part of a split has no separator, and the string is that
    part alone or ends with a separator followed by it. *)
Lemma last_split sep s r :
  last (PyStr.split sep s) = Some r ->
  PyStr.contains_char sep r = false
  /\ (s = r \/ exists pre, s = pre +:+ String sep r).
Proof.
  revert r. induction s as [|c s IH]; intros r; simpl.
  - intros [= <-]. by split; [|left].
  - pose proof (split_nonempty sep s) as Hne.
    case_decide as Hc.
    + subst c. destruct (PyStr.split sep s) as [|p ps] eqn:E; [done|].
      rewrite last_cons_cons. intros Hl.
      destruct (IH _ Hl) as [Hr [->|[pre ->]]]; (split; [done|right]).
      * exists "". reflexivity.
      * exists (String sep pre). reflexivity.
    + destruct (PyStr.split sep s) as [|p ps] eqn:E; [done|].
      destruct ps as [|q ps].
      * simpl. intros [= <-].
        destruct (IH p eq_refl) as [Hr [->|[pre ->]]].
        -- split; [simpl; by rewrite decide_False|by left].
        -- pose proof (split_app_sep_length sep pre p) as Hlen.
           rewrite E in Hlen. simpl in Hlen. lia.
      * rewrite last_cons_cons. intros Hl.
        rewrite last_cons_cons in IH.
        destruct (IH _ Hl) as [Hr [->|[pre ->]]]; (split; [done|]).
        -- rewrite (split_no_sep _ _ Hr) in E. done.
        -- right. exists (String c pre). reflexivity.
Qed.

(** ** Episode ids recovered from guids *)

Lemma guid_shape k owner eid :
  exists pre, guid k owner eid = "radio357-" +:+ pre +:+ String "-" (format_id eid).
Proof.
  destruct k; simpl.
  - by exists owner.
  - exists ("author-" +:+ owner). reflexivity.
Qed.

Lemma startswith_app p s : PyStr.startswith (p +:+ s) p = true.
Proof.
  unfold PyStr.startswith. induction p as [|c p IH]; [by destruct s|].
  rewrite append_cons. simpl. by destruct (ascii_dec c c).
Qed.

(** C10. For a guid made by either feed builder,
    [extract_podcast_id_from_guid] returns the text after the last
    hyphen, which is the episode id as it was interpolated exactly when
    that id has no hyphen; for a missing or empty guid, and for one that
    does not start with [radio357-], it returns [None]. *)
Theorem extract_podcast_id_from_guid_spec :
  (forall k owner eid, exists r,
      download_from_feed.extract_podcast_id_from_guid (Some (guid k owner eid)) = Some r
      /\ (exists pre, guid k owner eid = pre +:+ String "-" r)
      /\ PyStr.contains_char "-" r = false
      /\ (r = format_id eid <-> PyStr.contains_char "-" (format_id eid) = false))
  /\ download_from_feed.extract_podcast_id_from_guid None = None
  /\ download_from_feed.extract_podcast_id_from_guid (Some "") = None
  /\ (forall g, PyStr.startswith g "radio357-" = false ->
       download_from_feed.extract_podcast_id_from_guid (Some g) = None).
Proof.
  split; [|split; [done|split; [done|]]].
  - intros k owner eid.
    destruct (guid_shape k owner eid) as [pre Hg].
    assert (guid k owner eid = ("radio357-" +:+ pre) +:+ String "-" (format_id eid)) as Hg'
      by (by rewrite Hg, append_assoc).
    pose proof (split_nonempty "-" (format_id eid)) as Hne.
    destruct (last (PyStr.split "-" (format_id eid))) as [r|] eqn:Hl;
      [|by apply last_None in Hl].
    destruct (last_split _ _ _ Hl) as [Hr Hs].
    exists r. unfold download_from_feed.extract_podcast_id_from_guid.
    replace (PyStr.truthy (guid k owner eid)) with true by (by rewrite Hg).
    replace (PyStr.startswith (guid k owner eid) "radio357-") with true
      by (by rewrite Hg, startswith_app).
    simpl negb. cbv iota.
    pose proof (split_app_sep_length "-" ("radio357-" +:+ pre) (format_id eid)) as Hlen.
    rewrite <- Hg' in Hlen.
    apply Nat.leb_le in Hlen. rewrite Hlen.
    repeat split.
    + rewrite Hg', split_app_sep, last_app, Hl. done.
    + destruct Hs as [<-|[pre' Hs]].
      * by exists ("radio357-" +:+ pre).
      * exists (("radio357-" +:+ pre) +:+ String "-" pre').
        rewrite Hg', Hs, !append_assoc. reflexivity.
    + done.
    + by intros <-.
    + intros Hno. rewrite (split_no_sep _ _ Hno) in Hl. by injection Hl.
  - intros g Hg. unfold download_from_feed.extract_podcast_id_from_guid.
    rewrite Hg. by destruct (negb _).
Qed.

Lemma extract_podcast_id_from_guid_spec_witness :
  download_from_feed.extract_podcast_id_from_guid (Some "radio357-12-3456") = Some "3456"
  /\ download_from_feed.extract_podcast_id_from_guid (Some "radio358-12-3456") = None.
Proof.
  split; [reflexivity|].
  apply (proj2 (proj2 (proj2 extract_podcast_id_from_guid_spec))). reflexivity.
Defined.

(** ** The episode crawl *)

Lemma slice_to_prefix {A} (l : list A) n : PyStr.slice_to l n `prefix_of` l.
Proof. unfold PyStr.slice_to. destruct (0 <=? n); apply prefix_take. Qed.

Section crawl.
Context (api : content_api) (program_id : string).

Lemma slice_to_nonneg {A} (l : list A) n :
  0 <= n -> PyStr.slice_to l n = take (Z.to_nat n) l.
Proof. intros Hn. unfold PyStr.slice_to. by rewrite (proj2 (Z.leb_le 0 n) Hn). Qed.

(** One turn of the loop. *)
Lemma crawl_loop_step max_episodes fuel all_episodes page :
  crawl_loop api program_id max_episodes (S fuel) all_episodes page
  = if Z.of_nat (length all_episodes) <? max_episodes then
      match get_program_episodes api program_id page with
      | PagePodcasts (e :: episodes) =>
          if (length (e :: episodes) <? 250)%nat
          then Some (all_episodes ++ e :: episodes)
          else crawl_loop api program_id max_episodes fuel
                 (all_episodes ++ e :: episodes) (S page)
      | _ => Some all_episodes
      end
    else Some all_episodes.
Proof.
  simpl. destruct (_ <? _); [|done].
  destruct (get_program_episodes _ _ _) as [| |[|e episodes]]; done.
Qed.

(** The loop ends before the fuel does: a turn that goes on has added
    a full page. *)
Lemma crawl_loop_terminates max_episodes fuel all_episodes page :
  (Z.to_nat (max_episodes - Z.of_nat (length all_episodes)) < fuel)%nat ->
  is_Some (crawl_loop api program_id max_episodes fuel all_episodes page).
Proof.
  revert all_episodes page.
  induction fuel as [|fuel IH]; intros all_episodes page Hfuel; [lia|].
  rewrite crawl_loop_step.
  destruct (Z.ltb_spec (Z.of_nat (length all_episodes)) max_episodes) as [Hlt|]; [|done].
  destruct (get_program_episodes _ _ _) as [| |[|e episodes]]; try done.
  destruct (Nat.ltb_spec (length (e :: episodes)) 250) as [|Hfull]; [done|].
  apply IH. rewrite length_app. lia.
Qed.

(** More fuel does not change the result. *)
Lemma crawl_loop_fuel_mono max_episodes fuel fuel' all_episodes page r :
  crawl_loop api program_id max_episodes fuel all_episodes page = Some r ->
  (fuel <= fuel')%nat ->
  crawl_loop api program_id max_episodes fuel' all_episodes page = Some r.
Proof.
  revert fuel' all_episodes page.
  induction fuel as [|fuel IH]; intros fuel' all_episodes page; [done|].
  destruct fuel' as [|fuel']; [lia|]. rewrite !crawl_loop_step.
  destruct (_ <? _); [|done].
  destruct (get_program_episodes _ _ _) as [| |[|e episodes]]; try done.
  destruct (_ <? _)%nat; [done|].
  intros Hr Hle. apply IH; [done|lia].
Qed.

Lemma unlimited_pagination_extends pages all_episodes page :
  all_episodes `prefix_of` unlimited_pagination api program_id pages all_episodes page.
Proof.
  revert all_episodes page.
  induction pages as [|pages IH]; intros all_episodes page; simpl; [done|].
  destruct (get_program_episodes _ _ _) as [| |[|e episodes]]; try done.
  destruct (_ <? _)%nat.
  - by apply prefix_app_r.
  - etrans; [|apply IH]. by apply prefix_app_r.
Qed.

(** What the bounded loop has gathered is an initial part of what the
    unbounded loop gathers in at least as many requests. *)
Lemma crawl_loop_prefix max_episodes fuel pages all_episodes page r :
  crawl_loop api program_id max_episodes fuel all_episodes page = Some r ->
  (fuel <= pages)%nat ->
  r `prefix_of` unlimited_pagination api program_id pages all_episodes page.
Proof.
  revert pages all_episodes page.
  induction fuel as [|fuel IH]; intros pages all_episodes page; [done|].
  destruct pages as [|pages]; [lia|]. rewrite crawl_loop_step.
  intros Hr Hle.
  destruct (_ <? _).
  - simpl. destruct (get_program_episodes _ _ _) as [| |[|e episodes]];
      try (by injection Hr as <-).
    destruct (_ <? _)%nat; [by injection Hr as <-|].
    apply IH; [done|lia].
  - injection Hr as <-. apply unlimited_pagination_extends.
Qed.

(** The fuel of [crawl] is enough, whatever the bound. *)
Lemma crawl_defined max_episodes :
  crawl_loop api program_id max_episodes (crawl_fuel max_episodes) [] 0%nat
  = Some (crawl api program_id max_episodes).
Proof.
  unfold crawl.
  destruct (crawl_loop_terminates max_episodes (crawl_fuel max_episodes) [] 0%nat)
    as [all Hall]; [unfold crawl_fuel; simpl length; lia|].
  by rewrite Hall.
Qed.

(** A bound that is zero or negative: the loop body never runs. *)
Lemma fetch_all_episodes_nonpositive max_episodes :
  max_episodes <= 0 ->
  generate_rss_feed.fetch_all_episodes api program_id max_episodes = [].
Proof.
  intros Hm. unfold generate_rss_feed.fetch_all_episodes, crawl, crawl_fuel.
  rewrite crawl_loop_step. change (length []) with 0%nat.
  destruct (Z.ltb_spec (Z.of_nat 0) max_episodes); [lia|].
  simpl. unfold PyStr.slice_to. by destruct (0 <=? max_episodes); rewrite take_nil.
Qed.

End crawl.

(** C1. The crawl loop ends, whatever the bound.  For a bound that is a
    count (not negative) the result has at most [max_episodes] records;
    for a bound of zero or less it is empty.  In every case it is an
    initial part of what unlimited pagination produces.  On a program
    whose pages hold 250 and then 10 episodes, a bound of 1000 gives the
    260 episodes and a bound of 100 gives the first 100. *)
Theorem fetch_all_episodes_bounded_prefix :
  (forall api program_id max_episodes,
      let r := generate_rss_feed.fetch_all_episodes api program_id max_episodes in
      is_Some (crawl_loop api program_id max_episodes (crawl_fuel max_episodes) [] 0%nat)
      /\ generate_author_feed_by_id.fetch_all_episodes_from_program
           api program_id max_episodes = r
      /\ (0 <= max_episodes -> Z.of_nat (length r) <= max_episodes)
      /\ (max_episodes <= 0 -> r = [])
      /\ forall pages, (crawl_fuel max_episodes <= pages)%nat ->
           r `prefix_of` unlimited_pagination api program_id pages [] 0%nat)
  /\ (forall api program_id page0 page1,
        get_program_episodes api program_id 0%nat = PagePodcasts page0 ->
        get_program_episodes api program_id 1%nat = PagePodcasts page1 ->
        length page0 = 250%nat -> length page1 = 10%nat ->
        generate_rss_feed.fetch_all_episodes api program_id 1000 = page0 ++ page1
        /\ length (page0 ++ page1) = 260%nat
        /\ generate_rss_feed.fetch_all_episodes api program_id 100 = take 100 page0
        /\ length (take 100 page0) = 100%nat
        /\ generate_author_feed_by_id.fetch_all_episodes_from_program
             api program_id 1000 = page0 ++ page1
        /\ generate_author_feed_by_id.fetch_all_episodes_from_program
             api program_id 100 = take 100 page0).
Proof.
  split.
  - intros api program_id max_episodes r. subst r.
    pose proof (crawl_defined api program_id max_episodes) as Hall.
    split; [by rewrite Hall|]. split; [done|]. split; [|split].
    + intros Hmax. unfold generate_rss_feed.fetch_all_episodes.
      rewrite slice_to_nonneg, length_take by done. lia.
    + apply fetch_all_episodes_nonpositive.
    + intros pages Hpages. etrans; [apply slice_to_prefix|].
      by eapply crawl_loop_prefix.
  - intros api program_id page0 page1 H0 H1 Hl0 Hl1.
    assert (forall max_episodes, 250 < max_episodes ->
              crawl api program_id max_episodes = page0 ++ page1) as Hbig.
    { intros m Hm. unfold crawl.
      rewrite (crawl_loop_fuel_mono _ _ _ 2%nat _ _ _ (page0 ++ page1));
        [done| |unfold crawl_fuel; lia].
      destruct page0 as [|e0 page0]; [done|].
      destruct page1 as [|e1 page1]; [done|].
      rewrite crawl_loop_step, H0. cbv iota. rewrite Hl0.
      change (length []) with 0%nat.
      destruct (Z.ltb_spec (Z.of_nat 0) m); [|lia].
      change (250 <? 250)%nat with false. cbv iota.
      rewrite crawl_loop_step, H1. cbv iota. rewrite app_nil_l, Hl0, Hl1.
      destruct (Z.ltb_spec (Z.of_nat 250) m); [|lia].
      done. }
    assert (crawl api program_id 100 = page0) as Hsmall.
    { unfold crawl.
      rewrite (crawl_loop_fuel_mono _ _ _ 2%nat _ _ _ page0);
        [done| |unfold crawl_fuel; lia].
      destruct page0 as [|e0 page0]; [done|].
      rewrite crawl_loop_step, H0. cbv iota. rewrite Hl0.
      change (250 <? 250)%nat with false. cbv iota.
      rewrite crawl_loop_step, app_nil_l, Hl0. done. }
    unfold generate_rss_feed.fetch_all_episodes,
      generate_author_feed_by_id.fetch_all_episodes_from_program.
    rewrite (Hbig 1000) by lia. rewrite Hsmall.
    rewrite !slice_to_nonneg by lia.
    rewrite take_ge by (rewrite length_app; lia).
    rewrite length_app, length_take. repeat split; lia.
Qed.

(** ** Authentication *)

Section auth.
Context (e : env).

Lemma send_eq r w : send e r w = (http e (log w) r, record_event (EvRequest r) w).
Proof. reflexivity. Qed.

(** What [refresh] does, by the answer of the refresh endpoint. *)
Lemma refresh_unfold (self : Auth.t) w token :
  Auth.refresh_token self = Some token ->
  PyStr.truthy token = true ->
  let w1 := record_event EvCallRefresh w in
  let w2 := record_event (EvRequest (Auth.refresh_request token)) w1 in
  Auth.refresh e self w
  = match Auth.accepted (http e (log w1) (Auth.refresh_request token)) with
    | Some (a, r) =>
        (true, Auth.Make a r,
         if token_file_writable e then World (log w2) (Some (FileTokens a r)) else w2)
    | None => (false, self, w2)
    end.
Proof.
  intros Ht Htruthy w1 w2. unfold Auth.refresh. rewrite Ht, Htruthy. simpl negb. cbv iota.
  rewrite send_eq. fold w1. unfold Auth.accepted.
  change (HttpPost _ _) with (Auth.refresh_request token). fold w2.
  destruct (http e (log w1) (Auth.refresh_request token)) as [|status_code [|result]];
    try done; by destruct (status_code =? 200).
Qed.

Lemma refresh_no_token (self : Auth.t) w :
  Auth.truthy (Auth.refresh_token self) = false ->
  Auth.refresh e self w = (false, self, record_event EvCallRefresh w).
Proof.
  unfold Auth.refresh, Auth.truthy. destruct (Auth.refresh_token self) as [token|]; [|done].
  by intros ->.
Qed.

End auth.

(** C7. [refresh] fails at once, sending nothing, when no refresh token
    is held; when the refresh endpoint answers 200 with a JSON object,
    the two tokens of the answer replace the held ones, go to the token
    file (when it can be written) and the result is [True]; on any other
    answer (another status, an exception, a body that does not parse)
    the result is [False] and the held tokens and the token file are as
    before.  The function is total: no exception leaves it. *)
Theorem refresh_spec e (self : Auth.t) w :
  let '(ok, self', w') := Auth.refresh e self w in
  (Auth.truthy (Auth.refresh_token self) = false ->
     ok = false /\ self' = self
     /\ get_requests (log w') = get_requests (log w)
     /\ log w' = log w ++ [EvCallRefresh]
     /\ token_file w' = token_file w)
  /\ (forall token,
        Auth.refresh_token self = Some token -> PyStr.truthy token = true ->
        log w' = log w ++ [EvCallRefresh; EvRequest (Auth.refresh_request token)]
        /\ match Auth.accepted
                   (http e (log w ++ [EvCallRefresh]) (Auth.refresh_request token)) with
           | Some (a, r) =>
               ok = true /\ self' = Auth.Make a r
               /\ (token_file_writable e = true ->
                   token_file w' = Some (FileTokens a r))
           | None =>
               ok = false /\ self' = self /\ token_file w' = token_file w
           end).
Proof.
  destruct (Auth.refresh e self w) as [[ok self'] w'] eqn:E. split.
  - intros Hno. rewrite (refresh_no_token _ _ _ Hno) in E. injection E as <- <- <-.
    repeat split. unfold get_requests. simpl. by rewrite filter_app, length_app.
  - intros token Ht Htruthy. rewrite (refresh_unfold _ _ _ _ Ht Htruthy) in E.
    simpl in E. destruct (Auth.accepted _) as [[a r]|].
    + injection E as <- <- <-. split.
      * destruct (token_file_writable e); simpl; by rewrite <- app_assoc.
      * repeat split. by intros ->.
    + injection E as <- <- <-. simpl. by rewrite <- app_assoc.
Qed.

(** C2. A 401 from the media-URL endpoint, with a session that holds an
    access token and a refresh token: [get_audio_url] calls
    [Auth.refresh] once; when the refresh is accepted it sends the GET a
    second time, once, with the headers of the new token; when the
    refresh fails it returns [(None, True)] and sends no second GET.
    The events added to the log are exactly those listed. *)
Theorem get_audio_url_refreshes_once e podcast_id (self : Auth.t) w token b :
  Auth.is_authenticated self = true ->
  Auth.refresh_token self = Some token ->
  PyStr.truthy token = true ->
  http e (log w) (HttpGet (audio_url_endpoint podcast_id) (Auth.get_headers self))
    = HttpResponse 401 b ->
  let url := audio_url_endpoint podcast_id in
  let get0 := EvRequest (HttpGet url (Auth.get_headers self)) in
  let post := EvRequest (Auth.refresh_request token) in
  let '(res, auth', w') := podcaster357.get_audio_url e podcast_id (Some self) w in
  exists evs,
    log w' = log w ++ evs
    /\ refresh_calls evs = 1%nat
    /\ match Auth.accepted
               (http e (log w ++ [get0; EvCallRefresh]) (Auth.refresh_request token)) with
       | Some (a, r) =>
           let get1 := EvRequest (HttpGet url (Auth.get_headers (Auth.Make a r))) in
           auth' = Some (Auth.Make a r)
           /\ evs = [get0; EvCallRefresh; post; get1]
           /\ get_requests evs = 2%nat
       | None =>
           res = (None, true)
           /\ auth' = Some self
           /\ evs = [get0; EvCallRefresh; post]
           /\ get_requests evs = 1%nat
       end.
Proof.
  intros Hauth Htoken Htruthy H401 url get0 post.
  unfold podcaster357.get_audio_url. subst get0 post url.
  set (url := audio_url_endpoint podcast_id) in *.
  set (get0 := EvRequest (HttpGet url (Auth.get_headers self))).
  set (post := EvRequest (Auth.refresh_request token)).
  simpl headers_of.
  rewrite send_eq, H401. change (401 =? 200) with false. cbv iota.
  rewrite Hauth. change ((401 =? 401) && true) with true. cbv iota.
  rewrite (refresh_unfold _ _ _ _ Htoken Htruthy). simpl log.
  replace ((log w ++ [EvRequest (HttpGet url (Auth.get_headers self))]) ++ [EvCallRefresh])
    with (log w ++ [get0; EvCallRefresh]) by (by rewrite <- app_assoc).
  destruct (Auth.accepted _) as [[a r]|].
  - rewrite send_eq.
    set (w2 := if token_file_writable e then _ else _).
    assert (log w2 = log w ++ [get0; EvCallRefresh; post]) as Hlog.
    { subst w2. destruct (token_file_writable e); simpl; by rewrite <- !app_assoc. }
    set (get1 := HttpGet url (Auth.get_headers (Auth.Make a r))).
    assert (log (record_event (EvRequest get1) w2)
            = log w ++ [get0; EvCallRefresh; post; EvRequest get1]) as Hlog'.
    { simpl. rewrite Hlog. by rewrite <- app_assoc. }
    destruct (http e (log w2) get1) as [|status_code b'].
    + exists [get0; EvCallRefresh; post; EvRequest get1]. done.
    + destruct (status_code =? 200); [destruct (url_of_body b')|];
        exists [get0; EvCallRefresh; post; EvRequest get1]; done.
  - exists [get0; EvCallRefresh; post]. simpl. by rewrite <- !app_assoc.
Qed.

Lemma get_audio_url_refreshes_once_witness :
  let '(res, auth', w') :=
    podcaster357.get_audio_url Samples.expiring_gateway (IdInt 42)
      (Some Samples.stale_session) Samples.fresh_world in
  exists evs, log w' = [] ++ evs /\ refresh_calls evs = 1%nat
              /\ auth' = Some (Auth.Make (Some "new-access") (Some "new-refresh"))
              /\ get_requests evs = 2%nat.
Proof.
  pose proof (get_audio_url_refreshes_once Samples.expiring_gateway (IdInt 42)
                Samples.stale_session Samples.fresh_world "old-refresh" BodyInvalid
                eq_refl eq_refl eq_refl eq_refl) as H.
  cbv zeta in H.
  destruct (podcaster357.get_audio_url _ _ _ _) as [[res auth'] w'].
  destruct H as (evs & Hlog & Hcalls & H). exists evs.
  change (Auth.accepted _) with (Some (Some "new-access", Some "new-refresh")) in H.
  destruct H as (Hauth & Hevs & Hgets). done.
Defined.

Lemma refresh_spec_witness :
  Auth.refresh Samples.expiring_gateway Samples.stale_session Samples.fresh_world
  = (true, Auth.Make (Some "new-access") (Some "new-refresh"),
     World [EvCallRefresh; EvRequest (Auth.refresh_request "old-refresh")]
       (Some (FileTokens (Some "new-access") (Some "new-refresh")))).
Proof.
  pose proof (refresh_spec Samples.expiring_gateway Samples.stale_session
                Samples.fresh_world) as H.
  destruct (Auth.refresh _ _ _) as [[ok self'] [l f]].
  destruct H as [_ H]. destruct (H "old-refresh" eq_refl eq_refl) as [Hlog Hacc].
  change (Auth.accepted _) with (Some (Some "new-access", Some "new-refresh")) in Hacc.
  destruct Hacc as (-> & -> & Hfile). simpl in Hlog, Hfile.
  rewrite Hlog, (Hfile eq_refl). reflexivity.
Defined.

(** C8, as stated, fails: a login answered with 200 and a body that has
    an access token and no refresh token leaves the session with the
    first and without the second; so does loading a token file that has
    only the access token. *)
Lemma login_breaks_credentials_invariant :
  ~ (forall e email password self w,
        Auth.credentials_ok self = true ->
        Auth.credentials_ok (Auth.login e email password self w).1.2 = true)
  /\ ~ (forall self w,
          Auth.credentials_ok self = true ->
          Auth.credentials_ok (Auth.load_tokens self w) = true).
Proof.
  split; intros H.
  - specialize (H Samples.login_without_refresh "a@example.org" "secret"
                  (Auth.Make None None) Samples.fresh_world eq_refl).
    vm_compute in H. discriminate.
  - specialize (H (Auth.Make None None)
                  (World [] (Some (FileTokens (Some "tok") None))) eq_refl).
    vm_compute in H. discriminate.
Qed.

Section auth_pairs.
Context (e : env).

Lemma login_unfold email password (self : Auth.t) w :
  let w1 := record_event (EvRequest (Auth.login_request email password)) w in
  Auth.login e email password self w
  = match Auth.accepted (http e (log w) (Auth.login_request email password)) with
    | Some (a, r) =>
        (true, Auth.Make a r,
         if token_file_writable e then World (log w1) (Some (FileTokens a r)) else w1)
    | None => (false, self, w1)
    end.
Proof.
  intros w1. unfold Auth.login. rewrite send_eq.
  change (HttpPost _ _) with (Auth.login_request email password). fold w1.
  unfold Auth.accepted.
  destruct (http e (log w) (Auth.login_request email password)) as [|status_code [|result]];
    try done; by destruct (status_code =? 200).
Qed.

End auth_pairs.

(** C8, amended.  Every operation of [Auth] assigns the two tokens
    together or leaves both as they were: [save_tokens] stores its two
    arguments, [login] and [refresh] store the two tokens of an accepted
    response, [load_tokens] takes the two tokens of the file.  None of
    them checks the pair.  So the invariant (a held access token comes
    with a refresh token), and the same condition on the token file,
    hold after an operation when they held before it and the pair that
    is supplied (by the caller, the server or the file) satisfies the
    condition. *)
Theorem auth_operations_keep_pairs e (self : Auth.t) w :
  Auth.servers_send_pairs e ->
  Auth.file_ok w = true ->
  Auth.credentials_ok self = true ->
  Auth.credentials_ok (Auth.load_tokens self w) = true
  /\ (forall email password,
        let '(_, self', w') := Auth.login e email password self w in
        Auth.credentials_ok self' = true /\ Auth.file_ok w' = true)
  /\ (let '(_, self', w') := Auth.refresh e self w in
      Auth.credentials_ok self' = true /\ Auth.file_ok w' = true)
  /\ (forall a r,
        let '(self', w') := Auth.save_tokens e a r self w in
        self' = Auth.Make a r
        /\ (token_file_writable e = true -> token_file w' = Some (FileTokens a r))
        /\ (Auth.pair_ok a r = true ->
            Auth.credentials_ok self' = true /\ Auth.file_ok w' = true)).
Proof.
  intros Hsrv Hfile Hself. split; [|split; [|split]].
  - unfold Auth.load_tokens. unfold Auth.file_ok in Hfile.
    by destruct (token_file w) as [[|a r]|].
  - intros email password. rewrite login_unfold.
    destruct (Auth.accepted _) as [[a r]|] eqn:E; [|done].
    split; [apply (Hsrv _ _ _ _ E)|].
    destruct (token_file_writable e); [|done].
    unfold Auth.file_ok. simpl. apply (Hsrv _ _ _ _ E).
  - destruct (Auth.refresh_token self) as [token|] eqn:Ht;
      [destruct (PyStr.truthy token) eqn:Htr|].
    + rewrite (refresh_unfold _ _ _ _ Ht Htr). cbv zeta.
      destruct (Auth.accepted _) as [[a r]|] eqn:E; [|done].
      split; [apply (Hsrv _ _ _ _ E)|].
      destruct (token_file_writable e); [|done].
      unfold Auth.file_ok. simpl. apply (Hsrv _ _ _ _ E).
    + rewrite refresh_no_token; [done|]. by rewrite Ht.
    + rewrite refresh_no_token; [done|]. by rewrite Ht.
  - intros a r. unfold Auth.save_tokens.
    split; [done|]. split; [by intros ->|].
    intros Hp. split; [done|]. by destruct (token_file_writable e).
Qed.

Lemma expiring_gateway_sends_pairs : Auth.servers_send_pairs Samples.expiring_gateway.
Proof.
  intros l [url headers|url json] a rt; simpl.
  - case_decide; [|done]. by intros [= <- <-].
  - by intros [= <- <-].
Qed.

Lemma auth_operations_keep_pairs_witness :
  Auth.credentials_ok (Auth.load_tokens Samples.stale_session Samples.fresh_world) = true
  /\ Auth.credentials_ok
       (Auth.refresh Samples.expiring_gateway Samples.stale_session
          Samples.fresh_world).1.2 = true.
Proof.
  destruct (auth_operations_keep_pairs Samples.expiring_gateway Samples.stale_session
              Samples.fresh_world expiring_gateway_sends_pairs eq_refl eq_refl)
    as (Hload & _ & Hrefresh & _).
  split; [exact Hload|].
  destruct (Auth.refresh _ _ _) as [[ok self'] w']. exact (proj1 Hrefresh).
Defined.

Lemma fetch_all_episodes_bounded_prefix_witness :
  Z.of_nat (length (generate_rss_feed.fetch_all_episodes Samples.two_pages "7" 100)) <= 100
  /\ length (generate_rss_feed.fetch_all_episodes Samples.two_pages "7" 1000) = 260%nat
  /\ generate_rss_feed.fetch_all_episodes Samples.two_pages "7" 100
     = Samples.bare_episode <$> seq 0 100.
Proof.
  destruct fetch_all_episodes_bounded_prefix as [Hbound Hscenario].
  destruct (Hbound Samples.two_pages "7" 100) as (_ & _ & Hlen & _).
  specialize (Hlen ltac:(lia)).
  destruct (Hscenario Samples.two_pages "7" _ _ eq_refl eq_refl eq_refl eq_refl)
    as (H1000 & Hl & H100 & _).
  split; [exact Hlen|]. split; [by rewrite H1000|]. by rewrite H100.
Defined.

(** ** Author aggregation *)

Section dicts.
Context {V : Type}.
Implicit Types d : list (string * V).

Lemma dict_lookup_app k d d' :
  dict_lookup k (d ++ d')
  = match dict_lookup k d with Some v => Some v | None => dict_lookup k d' end.
Proof.
  induction d as [|[k' v] d IH]; simpl; [done|]. by case_bool_decide.
Qed.

Lemma dict_lookup_alter (f : V -> V) k k' d :
  dict_lookup k (dict_alter f k' d)
  = if bool_decide (k' = k) then f <$> dict_lookup k d else dict_lookup k d.
Proof.
  induction d as [|[k0 v] d IH]; simpl; [by case_bool_decide|].
  repeat (case_bool_decide; simpl); subst; try done; congruence.
Qed.

Lemma dict_alter_keys (f : V -> V) k d : (dict_alter f k d).*1 = d.*1.
Proof.
  induction d as [|[k0 v] d IH]; [done|]. cbn [dict_alter].
  case_bool_decide; csimpl; by rewrite ?IH.
Qed.

Lemma dict_lookup_None k d : dict_lookup k d = None <-> k ∉ d.*1.
Proof.
  induction d as [|[k0 v] d IH]; simpl.
  - split; [intros _; apply not_elem_of_nil|done].
  - rewrite not_elem_of_cons. case_bool_decide as Hk; [subst|].
    + split; [done|]. by intros [? _].
    + rewrite IH. split; [by intros ?; split|by intros [_ ?]].
Qed.

End dicts.

Lemma truthy_nonempty s : PyStr.truthy s = true <-> s <> "".
Proof. by destruct s. Qed.

Lemma add_author_tally pn name e d email :
  tally email (add_author pn name e d)
  = tally email d + (if bool_decide (e = email) then 1 else 0).
Proof.
  unfold add_author, tally. rewrite dict_lookup_alter.
  destruct (dict_lookup e d) as [data|] eqn:E.
  - case_bool_decide; [subst; rewrite E; simpl; lia|lia].
  - rewrite dict_lookup_app. simpl.
    case_bool_decide; [subst; rewrite E; simpl; lia|].
    destruct (dict_lookup email d); simpl; lia.
Qed.

Lemma add_author_well_keyed pn name e d :
  e <> "" -> name <> "" -> well_keyed d -> well_keyed (add_author pn name e d).
Proof.
  intros He Hname [Hnd Hd]. unfold add_author. split.
  - rewrite dict_alter_keys. destruct (dict_lookup e d) eqn:E; [done|].
    rewrite fmap_app. simpl. apply NoDup_app. split; [done|].
    split; [|apply NoDup_singleton].
    intros x Hx ->%list_elem_of_singleton. by apply dict_lookup_None in E.
  - intros k data. rewrite dict_lookup_alter.
    destruct (dict_lookup e d) as [data0|] eqn:E.
    + case_bool_decide; [subst k; rewrite E; simpl|].
      * intros [= <-]. simpl. destruct (Hd _ _ E) as (? & ? & ? & ?). repeat split; try done; lia.
      * apply Hd.
    + rewrite dict_lookup_app. simpl. case_bool_decide.
      * subst k. rewrite E. simpl.
        intros [= <-]. simpl. repeat split; try done; lia.
      * destruct (dict_lookup k d) eqn:E'; [intros [= <-]; by apply Hd|done].
Qed.

Lemma scan_member_well_keyed pn d m : well_keyed d -> well_keyed (scan_member pn d m).
Proof.
  intros Hd. destruct m as [m|]; [|done]. cbn [scan_member].
  destruct (PyStr.truthy (stripped (m_email m))) eqn:He; [|done].
  destruct (PyStr.truthy (stripped (m_name m))) eqn:Hn; [|done].
  apply add_author_well_keyed; [by apply truthy_nonempty..|done].
Qed.

Lemma carrying_app email ms ms' :
  carrying email (ms ++ ms') = carrying email ms ++ carrying email ms'.
Proof. apply filter_app. Qed.

Lemma named_app ms ms' : named (ms ++ ms') = named ms ++ named ms'.
Proof. apply filter_app. Qed.

Lemma counted_app email ms ms' :
  counted email (ms ++ ms') = counted email ms + counted email ms'.
Proof. unfold counted. rewrite carrying_app, named_app, length_app. lia. Qed.

Lemma counted_nil email : counted email [] = 0.
Proof. done. Qed.

Lemma counted_cons email m ms :
  counted email (m :: ms)
  = (if bool_decide (stripped (m_email m) = email)
     then if PyStr.truthy (stripped (m_name m)) then 1 else 0
     else 0) + counted email ms.
Proof.
  change (m :: ms) with ([m] ++ ms). rewrite counted_app. f_equal.
  unfold counted, carrying, named. simpl. rewrite filter_cons, filter_nil.
  case_decide as Hc.
  - rewrite bool_decide_true by done. rewrite filter_cons, filter_nil.
    destruct (PyStr.truthy _); by case_decide.
  - by rewrite bool_decide_false.
Qed.

Lemma scan_member_tally pn d m email :
  email <> "" ->
  tally email (scan_member pn d m)
  = tally email d + counted email (omap id [m]).
Proof.
  intros Hne. destruct m as [m|]; [|cbn; rewrite counted_nil; lia].
  cbn [scan_member]. change (omap id [Some m]) with [m].
  rewrite counted_cons, counted_nil.
  destruct (PyStr.truthy (stripped (m_email m))) eqn:He;
    destruct (PyStr.truthy (stripped (m_name m))) eqn:Hn; cbn [andb].
  - rewrite add_author_tally. case_bool_decide; lia.
  - case_bool_decide; lia.
  - rewrite bool_decide_false; [lia|].
    intros Heq. rewrite Heq in He. by destruct email.
  - case_bool_decide; lia.
Qed.

Lemma scan_team_tally pn team d email :
  email <> "" ->
  tally email (foldl (scan_member pn) d team)
  = tally email d + counted email (omap id team).
Proof.
  intros Hne. revert d. induction team as [|m team IH]; intros d; cbn [foldl].
  - change (omap id []) with (@nil member). rewrite counted_nil. lia.
  - rewrite IH, scan_member_tally by done.
    change (omap id (m :: team)) with (omap id ([m] ++ team)).
    rewrite omap_app, counted_app. lia.
Qed.

Lemma scan_team_well_keyed pn team d :
  well_keyed d -> well_keyed (foldl (scan_member pn) d team).
Proof.
  revert d. induction team as [|m team IH]; intros d Hd; simpl; [done|].
  by apply IH, scan_member_well_keyed.
Qed.

Lemma memberships_app eps eps' :
  memberships (eps ++ eps') = memberships eps ++ memberships eps'.
Proof. unfold memberships. by rewrite bind_app, omap_app. Qed.

Lemma memberships_cons ep eps :
  memberships (ep :: eps) = omap id (team_of ep) ++ memberships eps.
Proof. unfold memberships. by rewrite bind_cons, omap_app. Qed.

Lemma scan_episodes_tally pn eps d email :
  email <> "" ->
  tally email (foldl (scan_episode pn) d eps)
  = tally email d + counted email (memberships eps).
Proof.
  intros Hne. revert d. induction eps as [|ep eps IH]; intros d; cbn [foldl].
  - change (memberships []) with (@nil member). rewrite counted_nil. lia.
  - rewrite IH. unfold scan_episode. rewrite scan_team_tally by done.
    rewrite memberships_cons, counted_app. lia.
Qed.

Lemma scan_episodes_well_keyed pn eps d :
  well_keyed d -> well_keyed (foldl (scan_episode pn) d eps).
Proof.
  revert d. induction eps as [|ep eps IH]; intros d Hd; simpl; [done|].
  by apply IH, scan_team_well_keyed.
Qed.

Lemma scan_programs_tally api pids d email :
  email <> "" ->
  tally email (foldl (list_authors.scan_program api) d pids)
  = tally email d + counted email (memberships (scanned_episodes api pids)).
Proof.
  intros Hne. revert d. induction pids as [|pid pids IH]; intros d; cbn [foldl].
  - change (memberships (scanned_episodes api [])) with (@nil member).
    rewrite counted_nil. lia.
  - rewrite IH. unfold scanned_episodes. rewrite bind_cons.
    fold (scanned_episodes api pids).
    rewrite memberships_app, counted_app.
    unfold list_authors.scan_program.
    destruct (get_program_info api pid).
    + rewrite scan_episodes_tally by done. lia.
    + change (memberships []) with (@nil member). rewrite counted_nil. lia.
Qed.

Lemma scan_programs_well_keyed api pids d :
  well_keyed d -> well_keyed (foldl (list_authors.scan_program api) d pids).
Proof.
  revert d. induction pids as [|pid pids IH]; intros d Hd; simpl; [done|].
  apply IH. unfold list_authors.scan_program.
  destruct (get_program_info api pid); [|done].
  by apply scan_episodes_well_keyed.
Qed.

Lemma dict_lookup_elem_of {V} k (v : V) (d : list (string * V)) :
  dict_lookup k d = Some v -> (k, v) ∈ d.
Proof.
  induction d as [|[k' v'] d IH]; [done|]. cbn [dict_lookup].
  case_bool_decide; [intros [= <-]; subst; left|intros; right; by apply IH].
Qed.

Lemma elem_of_dict_lookup {V} k (v : V) (d : list (string * V)) :
  NoDup d.*1 -> (k, v) ∈ d -> dict_lookup k d = Some v.
Proof.
  induction d as [|[k' v'] d IH]; [by intros _ ?%elem_of_nil|].
  csimpl. intros [Hk Hnd]%NoDup_cons [[= <- <-]|Hin]%elem_of_cons.
  - by rewrite bool_decide_true.
  - rewrite bool_decide_false; [by apply IH|].
    intros <-. apply Hk. apply list_elem_of_fmap. by exists (k', v).
Qed.

Lemma set_add_named pn names :
  is_Some pn -> Forall (fun x => is_Some x) names ->
  Forall (fun x => is_Some x) (set_add pn names).
Proof.
  intros Hpn Hn. unfold set_add. case_bool_decide; [done|].
  apply Forall_app. split; [done|]. by apply Forall_singleton.
Qed.

Lemma add_author_programs_named pn name e d :
  is_Some pn -> programs_named d -> programs_named (add_author pn name e d).
Proof.
  intros Hpn Hd k data. unfold add_author. rewrite dict_lookup_alter.
  destruct (dict_lookup e d) as [data0|] eqn:E.
  - case_bool_decide; [subst k; rewrite E; simpl|by apply Hd].
    intros [= <-]. simpl. apply set_add_named; [done|]. by eapply Hd.
  - rewrite dict_lookup_app. simpl. case_bool_decide.
    + subst k. rewrite E. simpl. intros [= <-]. simpl.
      by apply set_add_named.
    + destruct (dict_lookup k d) eqn:E'; [intros [= <-]; by eapply Hd|done].
Qed.

Lemma scan_episodes_programs_named pn eps d :
  is_Some pn -> programs_named d -> programs_named (foldl (scan_episode pn) d eps).
Proof.
  intros Hpn. revert d. induction eps as [|ep eps IH]; intros d Hd; cbn [foldl]; [done|].
  apply IH. unfold scan_episode. generalize (team_of ep). intros team.
  revert d Hd. induction team as [|m team IHt]; intros d Hd; cbn [foldl]; [done|].
  apply IHt. destruct m as [m|]; [|done]. cbn [scan_member].
  destruct (_ && _); [|done]. by apply add_author_programs_named.
Qed.

Lemma scan_programs_programs_named api pids d :
  (forall program_id info,
      get_program_info api program_id = Some info -> p_name info <> Null) ->
  programs_named d ->
  programs_named (foldl (list_authors.scan_program api) d pids).
Proof.
  intros Hapi. revert d. induction pids as [|pid pids IH]; intros d Hd; cbn [foldl]; [done|].
  apply IH. unfold list_authors.scan_program.
  destruct (get_program_info api pid) as [info|] eqn:E; [|done].
  apply scan_episodes_programs_named; [|done].
  unfold program_name_of. specialize (Hapi _ _ E). by destruct (p_name info).
Qed.

Lemma sorted_names_total names :
  Forall (fun x => is_Some x) names -> exists l, sorted_names names = Ok l.
Proof.
  intros Hn. unfold sorted_names. destruct (_ <=? _)%nat; [by eexists|].
  assert (forallb (fun x : option string => bool_decide (is_Some x)) names = true) as ->;
    [|by eexists].
  apply forallb_forall. intros x Hx%list_elem_of_In.
  apply bool_decide_eq_true. by eapply Forall_forall in Hn.
Qed.

Section mapM_result.
Context {A B : Type} (f : A -> result B).

Lemma mapM_result_Ok l k :
  mapM f l = Ok k -> Forall2 (fun x y => f x = Ok y) l k.
Proof.
  revert k. induction l as [|x l IH]; intros k; cbn [mapM].
  - intros [= <-]. constructor.
  - destruct (f x) as [y|] eqn:E; [|done]. cbn.
    destruct (mapM f l) as [k'|]; [|done]. cbn. intros [= <-].
    constructor; [done|by apply IH].
Qed.

Lemma mapM_result_total l :
  (forall x, x ∈ l -> exists y, f x = Ok y) -> exists k, mapM f l = Ok k.
Proof.
  induction l as [|x l IH]; intros Hl; cbn [mapM]; [by eexists|].
  destruct (Hl x) as [y ->]; [by left|].
  destruct IH as [k ->]; [intros; apply Hl; by right|]. by eexists.
Qed.

End mapM_result.

Section sorting.
Context {A : Type} (key : A -> Z).

Lemma insert_desc_perm x l : insert_desc key x l ≡ₚ x :: l.
Proof.
  induction l as [|y l IH]; cbn [insert_desc]; [done|].
  destruct (_ <=? _); [done|]. rewrite IH. apply Permutation_swap.
Qed.

Lemma sort_desc_perm l : sort_desc key l ≡ₚ l.
Proof.
  induction l as [|x l IH]; cbn [sort_desc]; [done|].
  by rewrite insert_desc_perm, IH.
Qed.

End sorting.

(** What [summaries] returns lists the entries of [authors_dict]. *)
Lemma summaries_Ok d l :
  summaries d = Ok l ->
  s_email <$> l ≡ₚ d.*1
  /\ forall s, s ∈ l ->
       exists data, (s_email s, data) ∈ d
                    /\ s_name s = ad_name data
                    /\ s_episode_count s = ad_episode_count data.
Proof.
  unfold summaries. destruct (mapM _ d) as [authors_list|] eqn:E; [|done].
  cbn. intros [= <-]. apply mapM_result_Ok in E. split.
  - rewrite sort_desc_perm.
    induction E as [|[email data] s d' l' Hs _ IH]; [done|]. csimpl.
    rewrite IH. destruct (sorted_names _); [|done]. cbn in Hs.
    by injection Hs as <-.
  - intros s Hs. rewrite sort_desc_perm in Hs.
    induction E as [|[email data] s' d' l' Hs' _ IH]; [by apply elem_of_nil in Hs|].
    apply elem_of_cons in Hs as [->|Hs].
    + destruct (sorted_names _); [|done]. cbn in Hs'. injection Hs' as <-.
      exists data. simpl. split; [left|done].
    + destruct (IH Hs) as (data' & ? & ?). exists data'. split; [by right|done].
Qed.

Lemma summaries_total d : programs_named d -> NoDup d.*1 -> exists l, summaries d = Ok l.
Proof.
  intros Hd Hnd. unfold summaries.
  edestruct (mapM_result_total
               (fun '(email, data) =>
                  programs ← sorted_names (ad_programs data);
                  mret (AuthorSummary email (ad_name data)
                          (ad_episode_count data) programs)) d) as [k ->].
  - intros [email data] Hin.
    destruct (sorted_names_total (ad_programs data)) as [l ->]; [|by eexists].
    eapply Hd. by apply elem_of_dict_lookup.
  - by eexists.
Qed.

Lemma well_keyed_nil : well_keyed [].
Proof. split; [constructor|done]. Qed.

(** C3, as stated, fails: a membership with the email and an empty name
    is a team membership carrying that email, and it is not counted. *)
Lemma unnamed_membership_not_counted :
  ~ (forall api program_ids l s,
        list_authors.collect_all_authors api program_ids = Ok l ->
        s ∈ l ->
        s_episode_count s
        = Z.of_nat (length (carrying (s_email s)
                              (memberships (scanned_episodes api program_ids))))).
Proof.
  intros H.
  specialize (H Samples.unnamed_member ["1"]
                [AuthorSummary "ann@example.org" "Ann" 1 [Some "Audycja"]]
                (AuthorSummary "ann@example.org" "Ann" 1 [Some "Audycja"])).
  assert (1 = 2) as Habs; [|done].
  apply H; [by vm_compute|by left].
Qed.

(** C3, amended.  [collect_all_authors] of list_authors.py keeps one
    entry per trimmed email: no email occurs twice in the result, no
    entry has an empty email or an empty name, and the [episode_count]
    of an entry is the number of team memberships, over the episodes of
    the programs scanned, whose trimmed email is the entry's and whose
    trimmed name is not empty; every email with such a membership has
    an entry.  It returns whenever no program has a null name. *)
Theorem collect_all_authors_counts api program_ids :
  let ms := memberships (scanned_episodes api program_ids) in
  ((forall program_id info,
       get_program_info api program_id = Some info -> p_name info <> Null) ->
   exists l, list_authors.collect_all_authors api program_ids = Ok l)
  /\ forall l, list_authors.collect_all_authors api program_ids = Ok l ->
       NoDup (s_email <$> l)
       /\ (forall s, s ∈ l ->
             s_email s <> "" /\ s_name s <> ""
             /\ s_episode_count s = counted (s_email s) ms
             /\ 0 < s_episode_count s)
       /\ (forall email, email <> "" -> 0 < counted email ms ->
             exists s, s ∈ l /\ s_email s = email).
Proof.
  intros ms.
  pose proof (scan_programs_well_keyed api program_ids [] well_keyed_nil) as [Hnd Hwk].
  fold (list_authors.authors_dict_of api program_ids) in Hnd, Hwk.
  assert (forall email, email <> "" ->
            tally email (list_authors.authors_dict_of api program_ids) = counted email ms)
    as Htally.
  { intros email Hne. unfold list_authors.authors_dict_of.
    by rewrite scan_programs_tally. }
  split.
  - intros Hapi. apply summaries_total; [|done].
    by apply scan_programs_programs_named.
  - intros l [Hperm Hl]%summaries_Ok. split; [by rewrite Hperm|]. split.
    + intros s Hs. destruct (Hl s Hs) as (data & Hin & Hname & Hcount).
      apply elem_of_dict_lookup in Hin; [|done].
      destruct (Hwk _ _ Hin) as (Hne & _ & Hn & Hpos).
      rewrite Hname, Hcount, <- Htally by done. unfold tally. by rewrite Hin.
    + intros email Hne Hpos. rewrite <- Htally in Hpos by done. unfold tally in Hpos.
      destruct (dict_lookup email _) as [data|] eqn:E; [|lia].
      apply dict_lookup_elem_of in E.
      assert (email ∈ s_email <$> l) as (s & -> & Hs)%list_elem_of_fmap.
      { rewrite Hperm. apply list_elem_of_fmap. by exists (email, data). }
      by exists s.
Qed.

Lemma collect_all_authors_counts_witness :
  list_authors.collect_all_authors Samples.unnamed_member ["1"]
    = Ok [AuthorSummary "ann@example.org" "Ann" 1 [Some "Audycja"]]
  /\ counted "ann@example.org"
       (memberships (scanned_episodes Samples.unnamed_member ["1"])) = 1.
Proof.
  destruct (collect_all_authors_counts Samples.unnamed_member ["1"]) as [Htotal Hcounts].
  destruct Htotal as [l Hl]; [by intros ? ? [= <-]|].
  destruct (Hcounts l Hl) as (_ & Hs & _).
  assert (l = [AuthorSummary "ann@example.org" "Ann" 1 [Some "Audycja"]]) as ->
    by (vm_compute in Hl; by injection Hl).
  split; [exact Hl|].
  symmetry. apply (Hs (AuthorSummary "ann@example.org" "Ann" 1 [Some "Audycja"])). by left.
Defined.

(** [collect_all_authors] of generate_all_author_feeds.py reads the
    identity from the member's ["id"], not from ["email"]: members that
    have an email and no id are left out. *)
Lemma all_author_feeds_key_on_id :
  generate_all_author_feeds.collect_all_authors Samples.unnamed_member ["1"] = Ok [].
Proof. by vm_compute. Qed.

(** ** Sorting by publication date *)

Section sort_desc.
Context {A : Type} (key : A -> Z).

Lemma insert_desc_sorted x l :
  StronglySorted (desc key) l -> StronglySorted (desc key) (insert_desc key x l).
Proof.
  induction l as [|y l IH]; cbn [insert_desc]; intros Hl.
  - by repeat constructor.
  - apply StronglySorted_inv in Hl as [Hl Hy].
    destruct (Z.leb_spec (key y) (key x)) as [Hle|Hgt].
    + constructor; [by constructor|].
      constructor; [done|].
      eapply Forall_impl; [exact Hy|]. unfold desc. intros z Hz. lia.
    + constructor; [by apply IH|].
      rewrite insert_desc_perm. constructor; [unfold desc; lia|done].
Qed.

Lemma sort_desc_sorted l : StronglySorted (desc key) (sort_desc key l).
Proof.
  induction l as [|x l IH]; cbn [sort_desc]; [constructor|].
  by apply insert_desc_sorted.
Qed.

(** The sort is stable: records with one key keep their order. *)
Lemma insert_desc_stable x l k :
  filter (fun a => key a = k) (insert_desc key x l)
  = filter (fun a => key a = k) (x :: l).
Proof.
  induction l as [|y l IH]; cbn [insert_desc]; [done|].
  destruct (Z.leb_spec (key y) (key x)) as [Hle|Hgt]; [done|].
  rewrite (filter_cons _ y), IH, !filter_cons.
  repeat case_decide; try done; lia.
Qed.

Lemma sort_desc_stable l k :
  filter (fun a => key a = k) (sort_desc key l) = filter (fun a => key a = k) l.
Proof.
  induction l as [|x l IH]; cbn [sort_desc]; [done|].
  by rewrite insert_desc_stable, !filter_cons, IH.
Qed.

Lemma sorted_lookup (l : list A) i j a b :
  StronglySorted (desc key) l -> l !! i = Some a -> l !! j = Some b -> (i < j)%nat ->
  desc key a b.
Proof.
  intros Hl. revert i j. induction Hl as [|x l Hl IH Hx]; intros i j; [done|].
  destruct i as [|i], j as [|j]; try lia; cbn.
  - intros [= <-] Hb _. eapply Forall_forall in Hx; [done|].
    by eapply list_elem_of_lookup_2.
  - intros Ha Hb Hlt. apply (IH i j); [done..|lia].
Qed.

End sort_desc.

Section cache.
Import generate_author_feed_by_id.

Lemma filter_episodes_elem author_id incl eps acc name ep :
  ep ∈ (filter_episodes author_id incl eps acc name).1 -> ep ∈ acc \/ ep ∈ eps.
Proof.
  revert acc name. induction eps as [|ep' eps IH]; intros acc name; cbn [filter_episodes].
  - by left.
  - destruct (find_author _ _ _) as [has name']. intros Hin.
    destruct (IH _ _ Hin) as [Hacc|?]; [|right; by right].
    destruct (_ && _); [|by left].
    apply elem_of_app in Hacc as [?|Hs]; [by left|].
    apply list_elem_of_singleton in Hs as ->. right; by left.
Qed.

Lemma scan_cache_elem author_id max_total incl cache acc name ep :
  ep ∈ (scan_cache author_id max_total incl cache acc name).1 ->
  ep ∈ acc \/ exists program_id cache_data,
                (program_id, cache_data) ∈ cache /\ ep ∈ cd_episodes cache_data.
Proof.
  revert acc name. induction cache as [|[pid cd] cache IH]; intros acc name;
    cbn [scan_cache]; [by left|].
  destruct (filter_episodes _ _ _ _ _) as [acc' name'] eqn:E.
  assert (forall ep, ep ∈ acc' -> ep ∈ acc \/ ep ∈ cd_episodes cd) as Hacc'.
  { intros ep' Hin. apply (filter_episodes_elem author_id incl _ _ name).
    by rewrite E. }
  destruct (_ <=? _).
  - intros [?|?]%Hacc'; [by left|right]. exists pid, cd. split; [left|done].
  - intros [[?|?]%Hacc'|(pid' & cd' & ? & ?)]%IH; [by left|right..].
    + exists pid, cd. split; [left|done].
    + exists pid', cd'. split; [by right|done].
Qed.

End cache.

Lemma string_leb_trans s1 s2 s3 :
  String.leb s1 s2 = true -> String.leb s2 s3 = true -> String.leb s1 s3 = true.
Proof.
  unfold String.leb. revert s2 s3.
  induction s1 as [|c1 s1 IH]; intros [|c2 s2] [|c3 s3]; cbn; try done.
  unfold Ascii.compare.
  destruct (N.compare_spec (N_of_ascii c1) (N_of_ascii c2)) as [E12|L12|G12];
    destruct (N.compare_spec (N_of_ascii c2) (N_of_ascii c3)) as [E23|L23|G23];
    try done.
  - rewrite E12, E23, N.compare_refl. apply IH.
  - intros _ _. rewrite E12. by apply N.compare_lt_iff in L23 as ->.
  - intros _ _. rewrite <- E23. by apply N.compare_lt_iff in L12 as ->.
  - intros _ _. assert (N_of_ascii c1 < N_of_ascii c3)%N as H by lia.
    by apply N.compare_lt_iff in H as ->.
Qed.

Lemma pyfloat_leb_finite m1 e1 m2 e2 k :
  k <= e1 -> k <= e2 ->
  pyfloat_leb (Finite m1 e1) (Finite m2 e2)
  = (m1 * 2 ^ (e1 - k) <=? m2 * 2 ^ (e2 - k)).
Proof.
  intros H1 H2. cbn. set (e := Z.min e1 e2).
  assert (k <= e) as He by lia.
  assert (forall m e', e <= e' -> m * 2 ^ (e' - k) = m * 2 ^ (e' - e) * 2 ^ (e - k)) as Hs.
  { intros m e' He'. rewrite <- Z.mul_assoc, <- Z.pow_add_r by lia.
    do 2 f_equal. lia. }
  rewrite (Hs m1 e1), (Hs m2 e2) by lia.
  assert (0 < 2 ^ (e - k)) as Hpos by (apply Z.pow_pos_nonneg; lia).
  apply eq_true_iff_eq. rewrite !Z.leb_le.
  by rewrite <- (Z.mul_le_mono_pos_r _ _ (2 ^ (e - k))).
Qed.

Lemma pyfloat_leb_total x y : pyfloat_leb x y = true \/ pyfloat_leb y x = true.
Proof.
  destruct x as [m1 e1|[]], y as [m2 e2|[]]; try (by left); try (by right).
  rewrite (pyfloat_leb_finite m1 e1 m2 e2 (Z.min e1 e2)),
    (pyfloat_leb_finite m2 e2 m1 e1 (Z.min e1 e2)) by lia.
  rewrite !Z.leb_le. lia.
Qed.

Lemma pyfloat_leb_trans x y z :
  pyfloat_leb x y = true -> pyfloat_leb y z = true -> pyfloat_leb x z = true.
Proof.
  destruct x as [m1 e1|[]], y as [m2 e2|[]], z as [m3 e3|[]]; try done.
  rewrite (pyfloat_leb_finite m1 e1 m2 e2 (Z.min e1 (Z.min e2 e3))),
    (pyfloat_leb_finite m2 e2 m3 e3 (Z.min e1 (Z.min e2 e3))),
    (pyfloat_leb_finite m1 e1 m3 e3 (Z.min e1 (Z.min e2 e3))) by lia.
  rewrite !Z.leb_le. lia.
Qed.

(** Keys that compare with each other: all numbers, or all strings. *)
Lemma key_leb_total (a b : option timestamp) :
  is_Some (number_of a) /\ is_Some (number_of b)
  \/ is_Some (text_of a) /\ is_Some (text_of b) ->
  key_leb a b = true \/ key_leb b a = true.
Proof.
  unfold key_leb.
  intros [[[x Hx] [y Hy]]|[[s Hs] [t Ht]]].
  - rewrite Hx, Hy. apply pyfloat_leb_total.
  - destruct a as [[]|], b as [[]|]; try done. cbn. apply String.leb_total.
Qed.

Lemma key_leb_trans (a b c : option timestamp) :
  key_leb a b = true -> key_leb b c = true -> key_leb a c = true.
Proof.
  unfold key_leb.
  destruct a as [[n1|x1|s1]|], b as [[n2|x2|s2]|], c as [[n3|x3|s3]|]; cbn [number_of text_of];
    try done; try apply pyfloat_leb_trans; apply string_leb_trans.
Qed.

Section sort_desc_by.
Context {A : Type} (leb : A -> A -> bool).

Lemma insert_desc_by_perm x l : insert_desc_by leb x l ≡ₚ x :: l.
Proof.
  induction l as [|y l IH]; cbn [insert_desc_by]; [done|].
  destruct (leb y x); [done|]. rewrite IH. apply Permutation_swap.
Qed.

Lemma sort_desc_by_perm l : sort_desc_by leb l ≡ₚ l.
Proof.
  induction l as [|x l IH]; cbn [sort_desc_by]; [done|].
  by rewrite insert_desc_by_perm, IH.
Qed.

Context (P : A -> Prop).
Context (Htotal : forall a b, P a -> P b -> leb a b = true \/ leb b a = true).
Context (Htrans : forall a b c, leb a b = true -> leb b c = true -> leb a c = true).

Lemma insert_desc_by_sorted x l :
  P x -> Forall P l ->
  StronglySorted (fun a b => leb b a = true) l ->
  StronglySorted (fun a b => leb b a = true) (insert_desc_by leb x l).
Proof.
  intros Hx. induction l as [|y l IH]; cbn [insert_desc_by]; intros HP Hl.
  - by repeat constructor.
  - apply Forall_cons in HP as [Hy HP].
    apply StronglySorted_inv in Hl as [Hl Hyl].
    destruct (leb y x) eqn:E.
    + constructor; [by constructor|].
      constructor; [done|].
      eapply Forall_impl; [exact Hyl|]. intros z Hz. exact (Htrans z y x Hz E).
    + constructor; [by apply IH|].
      rewrite insert_desc_by_perm. constructor; [|done].
      destruct (Htotal x y Hx Hy); [done|congruence].
Qed.

Lemma sort_desc_by_sorted l :
  Forall P l -> StronglySorted (fun a b => leb b a = true) (sort_desc_by leb l).
Proof.
  induction l as [|x l IH]; cbn [sort_desc_by]; [constructor|].
  intros [Hx Hl]%Forall_cons. apply insert_desc_by_sorted; [done| |by apply IH].
  by rewrite sort_desc_by_perm.
Qed.

End sort_desc_by.

Lemma StronglySorted_lookup {A} (R : A -> A -> Prop) (l : list A) i j a b :
  StronglySorted R l -> l !! i = Some a -> l !! j = Some b -> (i < j)%nat -> R a b.
Proof.
  intros Hl. revert i j. induction Hl as [|x l Hl IH Hx]; intros i j; [done|].
  destruct i as [|i], j as [|j]; try lia; cbn.
  - intros [= <-] Hb _. eapply Forall_forall in Hx; [done|].
    by eapply list_elem_of_lookup_2.
  - intros Ha Hb Hlt. apply (IH i j); [done..|lia].
Qed.

(** What the sort returns is the input in another order, larger keys
    first. *)
Lemma sort_desc_opt_inv {A} (key : A -> option timestamp) (l l' : list A) :
  sort_desc_opt key l = Ok l' ->
  l' ≡ₚ l /\ StronglySorted (desc_keys key) l'.
Proof.
  unfold sort_desc_opt.
  destruct (Nat.leb_spec (length l) 1) as [Hlen|Hlen].
  - intros [= <-]. split; [done|].
    destruct l as [|x [|y l]]; [constructor|by repeat constructor|simpl in Hlen; lia].
  - destruct (_ || _) eqn:E; [|done]. intros [= <-].
    split; [apply sort_desc_by_perm|].
    apply orb_true_iff in E as [E|E].
    + apply (sort_desc_by_sorted (fun a b => key_leb (key a) (key b))
               (fun a => is_Some (number_of (key a)))).
      * intros a b Ha Hb. apply key_leb_total. by left.
      * intros a b c. apply key_leb_trans.
      * apply Forall_forall. intros x Hx%list_elem_of_In.
        eapply forallb_forall in E; [|done]. by apply bool_decide_eq_true in E.
    + apply (sort_desc_by_sorted (fun a b => key_leb (key a) (key b))
               (fun a => is_Some (text_of (key a)))).
      * intros a b Ha Hb. apply key_leb_total. by right.
      * intros a b c. apply key_leb_trans.
      * apply Forall_forall. intros x Hx%list_elem_of_In.
        eapply forallb_forall in E; [|done]. by apply bool_decide_eq_true in E.
Qed.

(** The sort returns when every key is a number. *)
Lemma sort_desc_opt_Ok {A} (key : A -> option timestamp) (l : list A) :
  Forall (fun x => is_Some (number_of (key x))) l ->
  exists l', sort_desc_opt key l = Ok l'.
Proof.
  intros Hl. unfold sort_desc_opt.
  destruct (length l <=? 1)%nat; [by eexists|].
  assert (forallb (fun x => bool_decide (is_Some (number_of (key x)))) l = true) as ->.
  { apply forallb_forall. intros x Hx%list_elem_of_In.
    apply bool_decide_eq_true. by eapply Forall_forall in Hl. }
  by eexists.
Qed.

Lemma after_epoch_key t :
  after_epoch t -> key_leb (Some t) (Some (TsInt 0)) = false.
Proof.
  destruct t as [n|[m e|[]]|s]; cbn; try done.
  - intros Hn. apply Z.leb_gt. lia.
  - intros Hm. apply Z.leb_gt.
    assert (0 < 2 ^ (e - Z.min e 0)) by (apply Z.pow_pos_nonneg; lia). nia.
Qed.

(** C4, as stated, fails: the feed builder gives an episode without a
    timestamp the date of epoch 0, not the current time; and next to
    an episode whose timestamp is a string the sort raises. *)
Lemma absent_timestamp_renders_epoch_not_now :
  ~ (forall e author_id include_exclusive ep auth w it auth' w',
        e_publishedAt ep = Absent \/ e_publishedAt ep = Val (TsInt 0) ->
        generate_author_feed_by_id.feed_step e author_id include_exclusive ep auth w
          = Ok (generate_author_feed_by_id.Added it, auth', w') ->
        generate_author_feed_by_id.item_pubDate it = Now)
  /\ generate_author_feed_by_id.collect_episodes_by_author_id_from_cache
       "ann@example.org" Samples.dated_cache 100 true
     = Raise TypeError.
Proof.
  split; [|by vm_compute].
  intros H.
  destruct (generate_author_feed_by_id.feed_step Samples.open_gateway
              "ann@example.org" false (Samples.bare_episode 1) None Samples.fresh_world)
    as [[[[it|] auth'] w']|] eqn:E; try (by vm_compute in E).
  assert (generate_author_feed_by_id.item_pubDate it = Now) as Hnow.
  { eapply H; [|exact E]. by left. }
  vm_compute in E. injection E as <- _ _. done.
Qed.

(** In a zone the C library accepts, an instant that is more than 25
    hours inside the years 1 to 9999 has a local time. *)
Lemma local_Some e t :
  zone_ok e ->
  FIRST_SECOND + 90000 <= t <= LAST_SECOND - 90000 ->
  local e t = Some (t + utcoffset e t).
Proof.
  intros Hz Ht. unfold local. pose proof (Hz t) as Ho.
  assert ((FIRST_SECOND <=? t + utcoffset e t) = true) as -> by (apply Z.leb_le; lia).
  assert ((t + utcoffset e t <=? LAST_SECOND) = true) as -> by (apply Z.leb_le; lia).
  done.
Qed.

(** There, [datetime.fromtimestamp] returns for every timestamp from
    the fifth day of the year 1 to the day before the last of the year
    9999. *)
Lemma fromtimestamp_ok_inside e millis :
  zone_ok e ->
  (FIRST_SECOND + 270000) * 1000 <= millis <= (LAST_SECOND - 90000) * 1000 ->
  fromtimestamp_ok e millis = true.
Proof.
  intros Hz Hm. unfold fromtimestamp_ok.
  assert (FIRST_SECOND + 270000 <= millis / 1000 <= LAST_SECOND - 90000) as Ht.
  { split; [apply Z.div_le_lower_bound; lia|].
    apply Z.div_le_upper_bound; lia. }
  set (t := millis / 1000) in *.
  unfold FIRST_SECOND, LAST_SECOND, max_fold_seconds in *.
  pose proof (Hz t) as H0. pose proof (Hz (t - 24 * 3600)) as H1.
  rewrite !local_Some by (done || unfold FIRST_SECOND, LAST_SECOND; lia).
  case_match; [|done]. apply bool_decide_eq_true.
  rewrite local_Some; [done..|]. unfold FIRST_SECOND, LAST_SECOND.
  match goal with H : (_ <? 0) = true |- _ => apply Z.ltb_lt in H end. lia.
Qed.

Lemma fromtimestamp_epoch e : zone_ok e -> fromtimestamp_ok e 0 = true.
Proof.
  intros Hz. apply fromtimestamp_ok_inside; [done|].
  unfold FIRST_SECOND, LAST_SECOND. lia.
Qed.

Lemma pub_date_of_missing e (published_at : field timestamp) :
  zone_ok e ->
  published_at = Absent \/ published_at = Val (TsInt 0) ->
  pub_date_of e (get_default published_at (TsInt 0)) = Ok (FromTimestamp 0).
Proof. intros Hz [->| ->]; cbn; by rewrite fromtimestamp_epoch. Qed.

Lemma pub_date_of_total e (published_at : option timestamp) :
  (forall millis, published_at = Some (TsInt millis) -> fromtimestamp_ok e millis = true) ->
  exists d, pub_date_of e published_at = Ok d.
Proof.
  intros H. destruct published_at as [[millis|x|s]|]; cbn; try by eexists.
  rewrite (H millis) by done. by eexists.
Qed.

Lemma itunes_duration_of_total (duration : field Z) :
  duration <> Null -> exists d, itunes_duration_of (get_default duration 0) = Ok d.
Proof. destruct duration; [by eexists|done|by eexists]. Qed.

(** C4, amended.  An episode whose [publishedAt] is absent or zero has
    the sort key 0.  When the timestamp of every cached episode is
    absent or a number, [collect_episodes_by_author_id_from_cache]
    returns, and the episode stands after every episode whose
    timestamp is later than the epoch.  The feed builders give it the
    date of epoch 0 ([datetime.fromtimestamp(0)]), not the current
    time, and the date raises nothing. *)
Theorem missing_timestamp_sorts_last_renders_epoch :
  (forall author_id episodes_cache max_total_episodes include_exclusive,
      (forall program_id cache_data ep,
          (program_id, cache_data) ∈ episodes_cache ->
          ep ∈ generate_author_feed_by_id.cd_episodes cache_data ->
          e_publishedAt ep <> Null /\ forall s, e_publishedAt ep <> Val (TsStr s)) ->
      exists author_episodes author_name,
        generate_author_feed_by_id.collect_episodes_by_author_id_from_cache
          author_id episodes_cache max_total_episodes include_exclusive
        = Ok (author_episodes, author_name)
        /\ forall i j a b t,
             author_episodes !! i = Some a -> author_episodes !! j = Some b ->
             e_publishedAt a = Absent \/ e_publishedAt a = Val (TsInt 0) ->
             e_publishedAt b = Val t -> after_epoch t ->
             (j < i)%nat)
  /\ (forall e ep,
        zone_ok e ->
        e_publishedAt ep = Absent \/ e_publishedAt ep = Val (TsInt 0) ->
        pub_date_of e (get_default (e_publishedAt ep) (TsInt 0)) = Ok (FromTimestamp 0)
        /\ (forall program_id program_image audio_url,
              e_duration ep <> Null ->
              exists it,
                generate_rss_feed.make_item e program_id program_image ep audio_url
                = Ok it
                /\ generate_rss_feed.item_pubDate it = FromTimestamp 0)
        /\ (forall author_id lists audio_url,
              e_duration ep <> Null ->
              exists it,
                generate_author_feed_by_id.make_item e author_id ep lists audio_url
                = Ok it
                /\ generate_author_feed_by_id.item_pubDate it = FromTimestamp 0)).
Proof.
  split.
  - intros author_id cache max_total incl Hcache.
    unfold generate_author_feed_by_id.collect_episodes_by_author_id_from_cache.
    destruct (generate_author_feed_by_id.scan_cache _ _ _ _ _ _)
      as [gathered name] eqn:E.
    destruct (sort_desc_opt_Ok generate_author_feed_by_id.published_key gathered)
      as [sorted Hsort].
    { apply Forall_forall. intros ep Hep.
      assert (ep ∈ (generate_author_feed_by_id.scan_cache
                      author_id max_total incl cache [] None).1) as Hin
        by (by rewrite E).
      apply scan_cache_elem in Hin as [?%elem_of_nil|(pid & cd & Hcd & Hin)]; [done|].
      destruct (Hcache _ _ _ Hcd Hin) as [Hnull Hstr].
      unfold generate_author_feed_by_id.published_key.
      destruct (e_publishedAt ep) as [| |[n|x|s]]; cbn; try done.
      by destruct (Hstr s). }
    rewrite Hsort. apply sort_desc_opt_inv in Hsort as [Hperm Hsorted].
    eexists _, _. split; [done|].
    intros i j a b t Ha Hb Hmissing Hstamp Hpos.
    destruct (slice_to_prefix sorted max_total) as [rest Hrest].
    assert (sorted !! i = Some a) as Ha'
      by (rewrite Hrest; by apply lookup_app_l_Some).
    assert (sorted !! j = Some b) as Hb'
      by (rewrite Hrest; by apply lookup_app_l_Some).
    assert (generate_author_feed_by_id.published_key a = Some (TsInt 0)) as Hka
      by (unfold generate_author_feed_by_id.published_key;
          by destruct Hmissing as [-> | ->]).
    assert (generate_author_feed_by_id.published_key b = Some t) as Hkb
      by (unfold generate_author_feed_by_id.published_key; by rewrite Hstamp).
    apply after_epoch_key in Hpos.
    destruct (Nat.lt_trichotomy i j) as [Hlt|[->|Hgt]]; [|exfalso|done].
    2: { rewrite Ha' in Hb'. injection Hb' as ->.
         destruct Hmissing as [Hm|Hm]; rewrite Hm in Hstamp; [done|].
         injection Hstamp as <-. done. }
    pose proof (StronglySorted_lookup _ _ _ _ _ _ Hsorted Ha' Hb' Hlt) as Hdesc.
    unfold desc_keys in Hdesc. rewrite Hka, Hkb in Hdesc. congruence.
  - intros e ep Hz Hmissing. split; [by apply pub_date_of_missing|]. split.
    + intros pid pimg url Hdur. unfold generate_rss_feed.make_item.
      rewrite pub_date_of_missing by done.
      destruct (itunes_duration_of_total _ Hdur) as [d ->]. by eexists.
    + intros aid [[authors emails] cats] url Hdur.
      unfold generate_author_feed_by_id.make_item.
      rewrite pub_date_of_missing by done.
      destruct (itunes_duration_of_total _ Hdur) as [d ->]. by eexists.
Qed.

(** ** The exclusive-content filter of the feed builders *)

Lemma mapM_result_sublist {A B} (f : A -> result B) l l' k :
  mapM f l = Ok k -> l' `sublist_of` l ->
  exists k', mapM f l' = Ok k' /\ k' `sublist_of` k.
Proof.
  intros Hk Hsub. revert k Hk.
  induction Hsub as [|x l1 l2 Hsub IH|x l1 l2 Hsub IH]; intros k; cbn [mapM].
  - intros [= <-]. by exists [].
  - destruct (f x) as [y|]; [|done]. cbn.
    destruct (mapM f l2) as [k2|] eqn:E2; [|done]. cbn. intros [= <-].
    destruct (IH _ eq_refl) as (k1 & -> & Hk1). exists (y :: k1). cbn.
    split; [done|]. by constructor.
  - destruct (f x) as [y|]; [|done]. cbn.
    destruct (mapM f l2) as [k2|] eqn:E2; [|done]. cbn. intros [= <-].
    destruct (IH _ eq_refl) as (k1 & -> & Hk1). exists k1.
    split; [done|]. by constructor.
Qed.

Lemma kept_false_sublist resolve eps :
  filter (fun ep => kept false resolve ep = true) eps
  `sublist_of` filter (fun ep => kept true resolve ep = true) eps.
Proof.
  induction eps as [|ep eps IH]; [done|].
  rewrite !filter_cons.
  case_decide as Hf; case_decide as Ht; try done; try (by constructor).
  exfalso. apply Ht. unfold kept in *.
  by destruct (is_free ep), (resolved resolve ep).
Qed.

Section feeds.
Context (e : env) (resolve : json_id -> option string).
Context (reachable : option Auth.t -> world -> Prop).
Context (Hstable : resolves_stably e resolve reachable).

(** The audio URL a turn of the loop gets. *)
Lemma feed_get_audio_url_stable podcast_id auth w :
  reachable auth w ->
  exists auth' w',
    reachable auth' w'
    /\ feed_get_audio_url e podcast_id auth w = (resolve podcast_id, auth', w').
Proof.
  intros Hr. specialize (Hstable podcast_id auth w Hr).
  destruct (feed_get_audio_url e podcast_id auth w) as [[url auth'] w'].
  destruct Hstable as [-> Hr']. by exists auth', w'.
Qed.

Section program_feed.
Import generate_rss_feed.
Context (program_id : string) (program_image : option string).

(** A turn of the loop, by what [resolve] gives the episode. *)
Lemma program_feed_step include_exclusive ep auth w :
  reachable auth w ->
  exists auth' w',
    reachable auth' w'
    /\ feed_step e program_id program_image include_exclusive ep auth w
       = if kept include_exclusive resolve ep
         then it ← item_for e program_id program_image resolve ep;
              Ok (Added it, auth', w')
         else Ok (Skipped, auth', w').
Proof.
  intros Hr. unfold feed_step, kept, resolved, item_for.
  destruct (feed_get_audio_url_stable (e_id ep) auth w Hr) as (auth' & w' & Hr' & ->).
  destruct (is_free ep), include_exclusive; cbn [negb andb orb];
    try (destruct (resolve (e_id ep)) as [[|c url]|]; cbn; by exists auth', w').
  by exists auth, w.
Qed.

(** The loop: its items are those made of the episodes kept, in order,
    and it raises what the first of them raises. *)
Lemma program_feed_loop include_exclusive eps auth w :
  reachable auth w ->
  match feed_loop e program_id program_image include_exclusive eps auth w with
  | Ok (os, _, _) =>
      mapM (item_for e program_id program_image resolve)
        (filter (fun ep => kept include_exclusive resolve ep = true) eps)
      = Ok (items_of os)
  | Raise x =>
      mapM (item_for e program_id program_image resolve)
        (filter (fun ep => kept include_exclusive resolve ep = true) eps)
      = Raise x
  end.
Proof.
  revert auth w. induction eps as [|ep eps IH]; intros auth w Hr; [done|].
  cbn [feed_loop]. rewrite filter_cons.
  destruct (program_feed_step include_exclusive ep auth w Hr) as (auth' & w' & Hr' & ->).
  destruct (kept include_exclusive resolve ep).
  - rewrite decide_True by done. cbn [mapM].
    destruct (item_for _ _ _ _ ep) as [it|x]; [|done]. cbn.
    specialize (IH auth' w' Hr').
    destruct (feed_loop _ _ _ _ eps auth' w') as [[[os auth''] w'']|x]; cbn.
    + by rewrite IH.
    + by rewrite IH.
  - rewrite decide_False by done. cbn.
    specialize (IH auth' w' Hr').
    by destruct (feed_loop _ _ _ _ eps auth' w') as [[[os auth''] w'']|x].
Qed.

Lemma program_item_for_total ep :
  renderable e ep -> exists it, item_for e program_id program_image resolve ep = Ok it.
Proof.
  intros [Hdur Hstamp]. unfold item_for, make_item.
  destruct (pub_date_of_total e _ Hstamp) as [d ->].
  destruct (itunes_duration_of_total _ Hdur) as [dur ->]. by eexists.
Qed.

End program_feed.
End feeds.

Lemma truthy_fields_total {A} (key : A -> field string) (l : list (option A)) :
  Forall (fun x => is_Some x) l ->
  exists r, generate_author_feed_by_id.truthy_fields key l = Ok r.
Proof.
  induction 1 as [|x l [a ->] _ [r IH]]; cbn; [by eexists|].
  rewrite IH. by eexists.
Qed.

Section author_feed.
Import generate_author_feed_by_id.
Context (e : env) (resolve : json_id -> option string).
Context (reachable : option Auth.t -> world -> Prop).
Context (Hstable : resolves_stably e resolve reachable).
Context (author_id : string).

Lemma author_feed_step include_exclusive ep auth w :
  reachable auth w ->
  exists auth' w',
    reachable auth' w'
    /\ feed_step e author_id include_exclusive ep auth w
       = lists ← item_lists ep;
         if kept include_exclusive resolve ep
         then it ← make_item e author_id ep lists (default "" (resolve (e_id ep)));
              Ok (Added it, auth', w')
         else Ok (Skipped, auth', w').
Proof.
  intros Hr. unfold feed_step, kept, resolved.
  destruct (feed_get_audio_url_stable e resolve reachable Hstable (e_id ep) auth w Hr)
    as (auth' & w' & Hr' & ->).
  destruct (item_lists ep) as [lists|x]; cbn; [|by exists auth, w].
  destruct (is_free ep), include_exclusive; cbn [negb andb orb];
    try (destruct (resolve (e_id ep)) as [[|c url]|]; cbn; by exists auth', w').
  by exists auth, w.
Qed.

Lemma author_item_for_eq ep lists :
  item_lists ep = Ok lists ->
  item_for e author_id resolve ep
  = make_item e author_id ep lists (default "" (resolve (e_id ep))).
Proof. unfold item_for. by intros ->. Qed.

Lemma author_feed_loop_Ok include_exclusive eps auth w os auth' w' :
  reachable auth w ->
  feed_loop e author_id include_exclusive eps auth w = Ok (os, auth', w') ->
  mapM (item_for e author_id resolve)
    (filter (fun ep => kept include_exclusive resolve ep = true) eps)
  = Ok (items_of os)
  /\ Forall (fun ep => exists lists, item_lists ep = Ok lists) eps.
Proof.
  revert auth w os auth' w'. induction eps as [|ep eps IH]; intros auth w os auth' w' Hr.
  - intros [= <- _ _]. by split.
  - cbn [feed_loop]. rewrite filter_cons.
    destruct (author_feed_step include_exclusive ep auth w Hr) as (auth1 & w1 & Hr1 & ->).
    destruct (item_lists ep) as [lists|x] eqn:El; [|done]. cbn.
    destruct (kept include_exclusive resolve ep).
    + rewrite decide_True by done. cbn [mapM]. rewrite (author_item_for_eq _ _ El).
      destruct (make_item _ _ _ _ _) as [it|x]; [|done]. cbn.
      destruct (feed_loop _ _ _ eps auth1 w1) as [[[os1 auth2] w2]|x] eqn:E; [|done].
      cbn. intros [= <- _ _]. destruct (IH _ _ _ _ _ Hr1 E) as [-> Hall].
      split; [done|]. constructor; [by eexists|done].
    + rewrite decide_False by done. cbn.
      destruct (feed_loop _ _ _ eps auth1 w1) as [[[os1 auth2] w2]|x] eqn:E; [|done].
      cbn. intros [= <- _ _]. destruct (IH _ _ _ _ _ Hr1 E) as [-> Hall].
      split; [done|]. constructor; [by eexists|done].
Qed.

Lemma author_feed_loop_total include_exclusive eps k auth w :
  reachable auth w ->
  Forall (fun ep => exists lists, item_lists ep = Ok lists) eps ->
  mapM (item_for e author_id resolve)
    (filter (fun ep => kept include_exclusive resolve ep = true) eps) = Ok k ->
  exists os auth' w',
    feed_loop e author_id include_exclusive eps auth w = Ok (os, auth', w')
    /\ items_of os = k.
Proof.
  intros Hr Hall. revert k auth w Hr.
  induction Hall as [|ep eps [lists El] _ IH]; intros k auth w Hr.
  - intros [= <-]. by eexists _, _, _.
  - cbn [feed_loop]. rewrite filter_cons.
    destruct (author_feed_step include_exclusive ep auth w Hr) as (auth1 & w1 & Hr1 & ->).
    rewrite El. cbn.
    destruct (kept include_exclusive resolve ep).
    + rewrite decide_True by done. cbn [mapM]. rewrite (author_item_for_eq _ _ El).
      destruct (make_item _ _ _ _ _) as [it|x]; [|done]. cbn.
      destruct (mapM _ _) as [k1|] eqn:E; [|done]. cbn. intros [= <-].
      destruct (IH _ auth1 w1 Hr1 eq_refl) as (os & auth2 & w2 & -> & <-).
      by eexists _, _, _.
    + rewrite decide_False by done. cbn. intros Hk.
      destruct (IH _ auth1 w1 Hr1 Hk) as (os & auth2 & w2 & -> & <-).
      by eexists _, _, _.
Qed.

Lemma author_item_for_total ep :
  renderable e ep -> exists it, item_for e author_id resolve ep = Ok it.
Proof.
  intros (Hdur & Hstamp & Hteam & Hcats). unfold item_for, item_lists.
  destruct (truthy_fields_total m_name _ Hteam) as [authors ->].
  destruct (truthy_fields_total m_email _ Hteam) as [emails ->].
  destruct (truthy_fields_total c_name _ Hcats) as [cats ->]. cbn.
  unfold make_item.
  destruct (pub_date_of_total e _ Hstamp) as [d ->].
  destruct (itunes_duration_of_total _ Hdur) as [dur ->]. by eexists.
Qed.

Lemma author_item_for_lists ep it :
  item_for e author_id resolve ep = Ok it -> exists lists, item_lists ep = Ok lists.
Proof. unfold item_for. destruct (item_lists ep); [by eexists|done]. Qed.

End author_feed.

(** The filter, by the field: with [include_exclusive=False] an
    episode passes when ["isFree"] holds true or is absent. *)
Lemma filter_kept_false resolve (eps : list episode) :
  filter (fun ep => kept false resolve ep = true) eps
  = filter (fun ep => (e_isFree ep = Val true \/ e_isFree ep = Absent)
                      /\ resolved resolve ep = true) eps.
Proof.
  apply list_filter_iff. intros ep. unfold kept, is_free, is_free_of.
  rewrite orb_false_r, andb_true_iff.
  destruct (e_isFree ep) as [| |[]]; cbn; intuition congruence.
Qed.

Lemma filter_kept_true resolve (eps : list episode) :
  filter (fun ep => kept true resolve ep = true) eps
  = filter (fun ep => resolved resolve ep = true) eps.
Proof.
  apply list_filter_iff. intros ep. unfold kept. by rewrite orb_true_r.
Qed.

(** C5.  Let the media-URL endpoint answer by the episode alone
    ([resolve]) in the states the run can reach.  A feed built with
    [include_exclusive=False] has the items of exactly the episodes
    whose ["isFree"] is true (or absent, which reads as true) and
    whose URL resolves, in order; with [include_exclusive=True] it has
    the items of all episodes whose URL resolves; and when the second
    feed is built, so is the first, and its items are among those of
    the second.  Both builders return on episodes that are
    [renderable]. *)
Theorem include_exclusive_filter e resolve reachable auth w :
  resolves_stably e resolve reachable ->
  reachable auth w ->
  (forall program_id program_image episodes,
      (Forall (generate_rss_feed.renderable e) episodes ->
       forall include_exclusive, exists os auth' w',
         generate_rss_feed.feed_loop e program_id program_image include_exclusive
           episodes auth w = Ok (os, auth', w'))
      /\ (forall os auth' w',
            generate_rss_feed.feed_loop e program_id program_image false
              episodes auth w = Ok (os, auth', w') ->
            mapM (generate_rss_feed.item_for e program_id program_image resolve)
              (filter (fun ep => (e_isFree ep = Val true \/ e_isFree ep = Absent)
                                 /\ resolved resolve ep = true) episodes)
            = Ok (generate_rss_feed.items_of os))
      /\ (forall os auth' w',
            generate_rss_feed.feed_loop e program_id program_image true
              episodes auth w = Ok (os, auth', w') ->
            mapM (generate_rss_feed.item_for e program_id program_image resolve)
              (filter (fun ep => resolved resolve ep = true) episodes)
            = Ok (generate_rss_feed.items_of os)
            /\ exists os0 auth0 w0,
                 generate_rss_feed.feed_loop e program_id program_image false
                   episodes auth w = Ok (os0, auth0, w0)
                 /\ generate_rss_feed.items_of os0
                    `sublist_of` generate_rss_feed.items_of os))
  /\ (forall author_id episodes,
        (Forall (generate_author_feed_by_id.renderable e) episodes ->
         forall include_exclusive, exists os auth' w',
           generate_author_feed_by_id.feed_loop e author_id include_exclusive
             episodes auth w = Ok (os, auth', w'))
        /\ (forall os auth' w',
              generate_author_feed_by_id.feed_loop e author_id false
                episodes auth w = Ok (os, auth', w') ->
              mapM (generate_author_feed_by_id.item_for e author_id resolve)
                (filter (fun ep => (e_isFree ep = Val true \/ e_isFree ep = Absent)
                                   /\ resolved resolve ep = true) episodes)
              = Ok (generate_author_feed_by_id.items_of os))
        /\ (forall os auth' w',
              generate_author_feed_by_id.feed_loop e author_id true
                episodes auth w = Ok (os, auth', w') ->
              mapM (generate_author_feed_by_id.item_for e author_id resolve)
                (filter (fun ep => resolved resolve ep = true) episodes)
              = Ok (generate_author_feed_by_id.items_of os)
              /\ exists os0 auth0 w0,
                   generate_author_feed_by_id.feed_loop e author_id false
                     episodes auth w = Ok (os0, auth0, w0)
                   /\ generate_author_feed_by_id.items_of os0
                      `sublist_of` generate_author_feed_by_id.items_of os)).
Proof.
  intros Hstable Hr. split.
  - intros pid pimg eps. split; [|split].
    + intros Hren incl.
      destruct (mapM_result_total (generate_rss_feed.item_for e pid pimg resolve)
                  (filter (fun ep => kept incl resolve ep = true) eps)) as [k Hk].
      { intros ep [_ Hep]%list_elem_of_filter.
        apply program_item_for_total. by eapply Forall_forall in Hren. }
      pose proof (program_feed_loop e resolve reachable Hstable pid pimg incl eps auth w Hr)
        as H.
      destruct (generate_rss_feed.feed_loop _ _ _ _ _ _ _) as [[[os auth'] w']|x];
        [by eexists _, _, _|congruence].
    + intros os auth' w' Hloop.
      pose proof (program_feed_loop e resolve reachable Hstable pid pimg false eps auth w Hr)
        as H.
      rewrite Hloop in H. by rewrite <- filter_kept_false.
    + intros os auth' w' Hloop.
      pose proof (program_feed_loop e resolve reachable Hstable pid pimg true eps auth w Hr)
        as H.
      rewrite Hloop in H. split; [by rewrite <- filter_kept_true|].
      destruct (mapM_result_sublist _ _ _ _ H (kept_false_sublist resolve eps))
        as (k & Hk & Hsub).
      pose proof (program_feed_loop e resolve reachable Hstable pid pimg false eps auth w Hr)
        as H0.
      destruct (generate_rss_feed.feed_loop _ _ _ false _ _ _) as [[[os0 auth0] w0]|x];
        [|congruence].
      exists os0, auth0, w0. split; [done|].
      rewrite Hk in H0. by injection H0 as <-.
  - intros aid eps. split; [|split].
    + intros Hren incl.
      destruct (mapM_result_total (generate_author_feed_by_id.item_for e aid resolve)
                  (filter (fun ep => kept incl resolve ep = true) eps)) as [k Hk].
      { intros ep [_ Hep]%list_elem_of_filter.
        apply author_item_for_total. by eapply Forall_forall in Hren. }
      destruct (author_feed_loop_total e resolve reachable Hstable aid incl eps k auth w)
        as (os & auth' & w' & Hloop & _); [done| |done|by eexists _, _, _].
      eapply Forall_impl; [exact Hren|]. intros ep Hep.
      destruct (author_item_for_total e resolve aid ep Hep) as [it Hit].
      by eapply author_item_for_lists.
    + intros os auth' w' Hloop.
      apply (author_feed_loop_Ok e resolve reachable Hstable) in Hloop as [H _]; [|done].
      by rewrite <- filter_kept_false.
    + intros os auth' w' Hloop.
      apply (author_feed_loop_Ok e resolve reachable Hstable) in Hloop as [H Hlists];
        [|done].
      split; [by rewrite <- filter_kept_true|].
      destruct (mapM_result_sublist _ _ _ _ H (kept_false_sublist resolve eps))
        as (k & Hk & Hsub).
      destruct (author_feed_loop_total e resolve reachable Hstable aid false eps k auth w)
        as (os0 & auth0 & w0 & Hloop0 & <-); [done..|].
      by exists os0, auth0, w0.
Qed.

(** ** Item identifiers *)

Lemma guid_prefix k owner :
  exists pre, forall episode_id, guid k owner episode_id = pre +:+ format_id episode_id.
Proof.
  destruct k; cbn.
  - exists ("radio357-" +:+ owner +:+ "-"). intros episode_id.
    unfold generate_rss_feed.item_guid. by rewrite !append_assoc.
  - exists ("radio357-author-" +:+ owner +:+ "-"). intros episode_id.
    unfold generate_author_feed_by_id.item_guid. by rewrite !append_assoc.
Qed.

Lemma program_make_item_guid e program_id program_image ep url it :
  generate_rss_feed.make_item e program_id program_image ep url = Ok it ->
  generate_rss_feed.item_guid_text it = guid ProgramFeed program_id (e_id ep).
Proof.
  unfold generate_rss_feed.make_item.
  destruct (pub_date_of _ _); [|done]. destruct (itunes_duration_of _); [|done].
  cbn. by intros [= <-].
Qed.

Lemma author_make_item_guid e author_id ep lists url it :
  generate_author_feed_by_id.make_item e author_id ep lists url = Ok it ->
  generate_author_feed_by_id.item_guid_text it = guid AuthorFeed author_id (e_id ep).
Proof.
  unfold generate_author_feed_by_id.make_item. destruct lists as [[authors emails] cats].
  destruct (pub_date_of _ _); [|done]. destruct (itunes_duration_of _); [|done].
  cbn. by intros [= <-].
Qed.

Lemma program_feed_step_guid e program_id program_image include_exclusive ep auth w
    it auth' w' :
  generate_rss_feed.feed_step e program_id program_image include_exclusive ep auth w
    = Ok (generate_rss_feed.Added it, auth', w') ->
  generate_rss_feed.item_guid_text it = guid ProgramFeed program_id (e_id ep).
Proof.
  unfold generate_rss_feed.feed_step.
  destruct (_ && _); [done|].
  destruct (feed_get_audio_url _ _ _ _) as [[[url|] auth1] w1]; [|done].
  destruct (negb _); [done|].
  destruct (generate_rss_feed.make_item _ _ _ _ _) as [it'|] eqn:E; [|done].
  cbn. intros [= <- _ _]. by eapply program_make_item_guid.
Qed.

Lemma author_feed_step_guid e author_id include_exclusive ep auth w it auth' w' :
  generate_author_feed_by_id.feed_step e author_id include_exclusive ep auth w
    = Ok (generate_author_feed_by_id.Added it, auth', w') ->
  generate_author_feed_by_id.item_guid_text it = guid AuthorFeed author_id (e_id ep).
Proof.
  unfold generate_author_feed_by_id.feed_step.
  destruct (generate_author_feed_by_id.item_lists ep) as [lists|]; [|done].
  cbn -[feed_get_audio_url generate_author_feed_by_id.make_item].
  destruct (_ && _); [done|].
  destruct (feed_get_audio_url _ _ _ _) as [[[url|] auth1] w1]; [|done].
  destruct (negb _); [done|].
  destruct (generate_author_feed_by_id.make_item _ _ _ _ _) as [it'|] eqn:E; [|done].
  cbn. intros [= <- _ _]. by eapply author_make_item_guid.
Qed.

(** The guids of the items of a feed are those of some of the episodes,
    in order. *)
Lemma program_feed_loop_guids e program_id program_image include_exclusive eps auth w
    os auth' w' :
  generate_rss_feed.feed_loop e program_id program_image include_exclusive eps auth w
    = Ok (os, auth', w') ->
  exists eps', eps' `sublist_of` eps
    /\ generate_rss_feed.item_guid_text <$> generate_rss_feed.items_of os
       = (fun ep => guid ProgramFeed program_id (e_id ep)) <$> eps'.
Proof.
  revert auth w os auth' w'. induction eps as [|ep eps IH]; intros auth w os auth' w'.
  - intros [= <- _ _]. by exists [].
  - cbn [generate_rss_feed.feed_loop].
    destruct (generate_rss_feed.feed_step _ _ _ _ _ _ _) as [[[o auth1] w1]|] eqn:Es;
      [|done]. cbn.
    destruct (generate_rss_feed.feed_loop _ _ _ _ _ _ _) as [[[os1 auth2] w2]|] eqn:El;
      [|done]. cbn. intros [= <- _ _].
    destruct (IH _ _ _ _ _ El) as (eps' & Hsub & Hg).
    destruct o as [it|].
    + exists (ep :: eps'). split; [by constructor|].
      change (generate_rss_feed.items_of (generate_rss_feed.Added it :: os1))
        with (it :: generate_rss_feed.items_of os1).
      rewrite !fmap_cons, Hg. f_equal. by eapply program_feed_step_guid.
    + exists eps'. split; [by constructor|done].
Qed.

Lemma author_feed_loop_guids e author_id include_exclusive eps auth w os auth' w' :
  generate_author_feed_by_id.feed_loop e author_id include_exclusive eps auth w
    = Ok (os, auth', w') ->
  exists eps', eps' `sublist_of` eps
    /\ generate_author_feed_by_id.item_guid_text
         <$> generate_author_feed_by_id.items_of os
       = (fun ep => guid AuthorFeed author_id (e_id ep)) <$> eps'.
Proof.
  revert auth w os auth' w'. induction eps as [|ep eps IH]; intros auth w os auth' w'.
  - intros [= <- _ _]. by exists [].
  - cbn [generate_author_feed_by_id.feed_loop].
    destruct (generate_author_feed_by_id.feed_step _ _ _ _ _ _) as [[[o auth1] w1]|]
      eqn:Es; [|done]. cbn.
    destruct (generate_author_feed_by_id.feed_loop _ _ _ _ _ _) as [[[os1 auth2] w2]|]
      eqn:El; [|done]. cbn. intros [= <- _ _].
    destruct (IH _ _ _ _ _ El) as (eps' & Hsub & Hg).
    destruct o as [it|].
    + exists (ep :: eps'). split; [by constructor|].
      change (generate_author_feed_by_id.items_of
                (generate_author_feed_by_id.Added it :: os1))
        with (it :: generate_author_feed_by_id.items_of os1).
      rewrite !fmap_cons, Hg. f_equal. by eapply author_feed_step_guid.
    + exists eps'. split; [by constructor|done].
Qed.

Lemma guids_NoDup k owner (eps eps' : list episode) :
  eps' `sublist_of` eps ->
  NoDup ((fun ep => format_id (e_id ep)) <$> eps) ->
  NoDup ((fun ep => guid k owner (e_id ep)) <$> eps').
Proof.
  intros Hsub Hnd. destruct (guid_prefix k owner) as [pre Hpre].
  assert ((fun ep => guid k owner (e_id ep)) <$> eps'
          = String.append pre <$> ((fun ep => format_id (e_id ep)) <$> eps')) as ->.
  { rewrite <- list_fmap_compose. apply list_fmap_ext. intros i ep _. apply Hpre. }
  apply (NoDup_fmap_2 _).
  eapply sublist_NoDup; [exact Hnd|]. by apply fmap_sublist.
Qed.

(** C6, as stated, fails: the builders make an item of every episode
    they are given and compare no ids, so an episode that comes twice
    gives two items with one guid, in the program feed and in the
    author feed. *)
Lemma repeated_episode_repeats_guid :
  ~ (forall e program_id program_image include_exclusive eps auth w os auth' w',
        generate_rss_feed.feed_loop e program_id program_image include_exclusive
          eps auth w = Ok (os, auth', w') ->
        NoDup (generate_rss_feed.item_guid_text <$> generate_rss_feed.items_of os))
  /\ ~ (forall e author_id include_exclusive eps auth w os auth' w',
          generate_author_feed_by_id.feed_loop e author_id include_exclusive
            eps auth w = Ok (os, auth', w') ->
          NoDup (generate_author_feed_by_id.item_guid_text
                   <$> generate_author_feed_by_id.items_of os)).
Proof.
  split; intros H.
  - destruct (generate_rss_feed.feed_loop Samples.open_gateway "7" None true
                [Samples.bare_episode 1; Samples.bare_episode 1] None Samples.fresh_world)
      as [[[os auth'] w']|] eqn:E; [|by vm_compute in E].
    apply H in E as Hnd. vm_compute in E. injection E as <- _ _.
    apply NoDup_cons in Hnd as [Hnotin _]. apply Hnotin. by left.
  - destruct (generate_author_feed_by_id.feed_loop Samples.open_gateway
                "ann@example.org" true
                [Samples.bare_episode 1; Samples.bare_episode 1] None Samples.fresh_world)
      as [[[os auth'] w']|] eqn:E; [|by vm_compute in E].
    apply H in E as Hnd. vm_compute in E. injection E as <- _ _.
    apply NoDup_cons in Hnd as [Hnotin _]. apply Hnotin. by left.
Qed.

(** C6, amended.  The guid of an item is [guid k owner episode_id], a
    function of the kind of feed, the owner (program or author) and
    the episode id: whatever the servers answer, whatever the session,
    the other fields of the episode and the flag, an item made of the
    episode has that guid.  For one kind and one owner the guid
    determines the episode id as it is written, so the items of a feed
    made of episodes with different ids have different guids. *)
Theorem guid_deterministic_unique :
  (forall e program_id program_image include_exclusive ep auth w it auth' w',
      generate_rss_feed.feed_step e program_id program_image include_exclusive
        ep auth w = Ok (generate_rss_feed.Added it, auth', w') ->
      generate_rss_feed.item_guid_text it = guid ProgramFeed program_id (e_id ep))
  /\ (forall e author_id include_exclusive ep auth w it auth' w',
        generate_author_feed_by_id.feed_step e author_id include_exclusive
          ep auth w = Ok (generate_author_feed_by_id.Added it, auth', w') ->
        generate_author_feed_by_id.item_guid_text it
        = guid AuthorFeed author_id (e_id ep))
  /\ (forall k owner id1 id2,
        guid k owner id1 = guid k owner id2 -> format_id id1 = format_id id2)
  /\ (forall e program_id program_image include_exclusive eps auth w os auth' w',
        generate_rss_feed.feed_loop e program_id program_image include_exclusive
          eps auth w = Ok (os, auth', w') ->
        NoDup ((fun ep => format_id (e_id ep)) <$> eps) ->
        NoDup (generate_rss_feed.item_guid_text <$> generate_rss_feed.items_of os))
  /\ (forall e author_id include_exclusive eps auth w os auth' w',
        generate_author_feed_by_id.feed_loop e author_id include_exclusive
          eps auth w = Ok (os, auth', w') ->
        NoDup ((fun ep => format_id (e_id ep)) <$> eps) ->
        NoDup (generate_author_feed_by_id.item_guid_text
                 <$> generate_author_feed_by_id.items_of os)).
Proof.
  split; [|split; [|split; [|split]]].
  - intros. by eapply program_feed_step_guid.
  - intros. by eapply author_feed_step_guid.
  - intros k owner id1 id2. destruct (guid_prefix k owner) as [pre Hpre].
    rewrite !Hpre. apply String.app_inj.
  - intros e pid pimg incl eps auth w os auth' w' Hloop Hnd.
    destruct (program_feed_loop_guids _ _ _ _ _ _ _ _ _ _ Hloop) as (eps' & Hsub & ->).
    by eapply guids_NoDup.
  - intros e aid incl eps auth w os auth' w' Hloop Hnd.
    destruct (author_feed_loop_guids _ _ _ _ _ _ _ _ _ Hloop) as (eps' & Hsub & ->).
    by eapply guids_NoDup.
Qed.

(** ** Downloads *)

Lemma append_nil_r s : s +:+ "" = s.
Proof. induction s as [|c s IH]; [done|]. by rewrite append_cons, IH. Qed.

Lemma write_chunks_delete path chunks (fs : gmap string string) :
  delete path (write_chunks path chunks fs) = delete path fs.
Proof.
  revert fs. induction chunks as [|chunk chunks IH]; intros fs; cbn [write_chunks]; [done|].
  rewrite IH. destruct (PyStr.truthy chunk); [|done].
  unfold write_chunk. by rewrite delete_insert_eq.
Qed.

Lemma write_chunks_lookup path chunks (fs : gmap string string) content :
  fs !! path = Some content ->
  write_chunks path chunks fs !! path = Some (content +:+ String.concat "" chunks).
Proof.
  revert fs content.
  induction chunks as [|chunk chunks IH]; intros fs content Hfs; cbn [write_chunks].
  - cbn. by rewrite append_nil_r.
  - assert (String.concat "" (chunk :: chunks) = chunk +:+ String.concat "" chunks) as ->.
    { destruct chunks; cbn [String.concat]; [by rewrite append_nil_r|done]. }
    destruct chunk as [|c chunk]; cbn [PyStr.truthy].
    + by apply IH.
    + erewrite IH; [by rewrite append_assoc|].
      unfold write_chunk. by rewrite lookup_insert_eq, Hfs.
Qed.

(** The direct download ends in one of two ways. *)
Lemma download_direct_cases e url output_path fs :
  download_direct e url output_path fs = (false, delete output_path fs)
  \/ exists resp,
       fetch e url = GetStream resp /\ st_complete resp = true
       /\ download_direct e url output_path fs
          = (true, write_chunks output_path (st_chunks resp) (<[output_path := ""]> fs)).
Proof.
  unfold download_direct, report_failure.
  destruct (fetch e url) as [|resp]; [by left|].
  destruct (is_http_error _); [by left|].
  destruct (st_content_length resp); [| |by left].
  - destruct (can_open e output_path); [|by left].
    destruct (st_complete resp) eqn:Hc; [right; by exists resp|left].
    by rewrite write_chunks_delete, delete_insert_eq.
  - destruct (can_open e output_path); [|by left].
    destruct (st_complete resp) eqn:Hc; [right; by exists resp|left].
    by rewrite write_chunks_delete, delete_insert_eq.
Qed.

(** C9.  A direct download that fails (the request raises, the status
    is an HTTP error, or the stream breaks after part of the file was
    written) returns [False] and leaves no file at the destination;
    the other files are as before.  In the third case the file had
    been created and held the chunks received. *)
Theorem download_file_removes_partial_file e url output_path fs :
  (forall resp,
      fetch e url = GetStream resp ->
      is_http_error (st_status resp) = false ->
      st_content_length resp <> LengthMalformed ->
      can_open e output_path = true ->
      st_complete resp = false ->
      write_chunks output_path (st_chunks resp) (<[output_path := ""]> fs) !! output_path
        = Some (String.concat "" (st_chunks resp))
      /\ download_from_feed.download_file e url output_path fs
         = (false, delete output_path fs)
      /\ (PyStr.contains ".m3u8" url = false ->
          podcaster357.download_file e url output_path fs
          = (false, delete output_path fs)))
  /\ (fetch e url = GetRaise
      \/ (exists resp, fetch e url = GetStream resp
                       /\ is_http_error (st_status resp) = true) ->
      download_from_feed.download_file e url output_path fs
        = (false, delete output_path fs)
      /\ (PyStr.contains ".m3u8" url = false ->
          podcaster357.download_file e url output_path fs
          = (false, delete output_path fs)))
  /\ (forall fs',
        download_from_feed.download_file e url output_path fs = (false, fs')
        \/ (PyStr.contains ".m3u8" url = false
            /\ podcaster357.download_file e url output_path fs = (false, fs')) ->
        fs' !! output_path = None
        /\ forall path, path <> output_path -> fs' !! path = fs !! path).
Proof.
  unfold podcaster357.download_file, download_from_feed.download_file.
  split; [|split].
  - intros resp Hfetch Hstatus Hlen Hopen Hbroken. split; [|split].
    + rewrite (write_chunks_lookup _ _ _ ""); [by rewrite append_nil_l|].
      by rewrite lookup_insert_eq.
    + unfold download_direct, report_failure. rewrite Hfetch, Hstatus, Hopen, Hbroken.
      destruct (st_content_length resp); [| |done];
        by rewrite write_chunks_delete, delete_insert_eq.
    + intros ->. unfold download_direct, report_failure.
      rewrite Hfetch, Hstatus, Hopen, Hbroken.
      destruct (st_content_length resp); [| |done];
        by rewrite write_chunks_delete, delete_insert_eq.
  - intros Hfail.
    assert (download_direct e url output_path fs = (false, delete output_path fs)) as H.
    { unfold download_direct, report_failure.
      destruct Hfail as [->|(resp & -> & ->)]; done. }
    split; [done|]. by intros ->.
  - intros fs' Hres.
    assert (download_direct e url output_path fs = (false, fs')) as H.
    { destruct Hres as [H|[Hd H]]; [done|]. by rewrite Hd in H. }
    destruct (download_direct_cases e url output_path fs)
      as [Hc|(resp & _ & _ & Hc)]; rewrite Hc in H; [|done].
    injection H as <-. split; [apply lookup_delete_eq|].
    intros path Hne. by rewrite lookup_delete_ne.
Qed.

Lemma download_file_removes_partial_file_witness :
  podcaster357.download_file Samples.broken_stream "https://cdn.example/a.mp3"
    "a.mp3" ({[ "b.mp3" := "kept" ]}) = (false, {[ "b.mp3" := "kept" ]})
  /\ write_chunks "a.mp3" ["abc"; "def"]
       (<["a.mp3" := ""]> ({[ "b.mp3" := "kept" ]} : gmap string string)) !! "a.mp3"
     = Some "abcdef".
Proof.
  destruct (download_file_removes_partial_file Samples.broken_stream
              "https://cdn.example/a.mp3" "a.mp3" {[ "b.mp3" := "kept" ]})
    as [Hpartial _].
  assert (LengthNumber 100 <> LengthMalformed) as Hlen by done.
  destruct (Hpartial (Stream 200 (LengthNumber 100) ["abc"; "def"] false)
              eq_refl eq_refl Hlen eq_refl eq_refl)
    as (Hfile & _ & Hdl).
  split; [|exact Hfile].
  rewrite (Hdl eq_refl). reflexivity.
Defined.

(** ** Worked instances *)

Lemma small_cache_stamps program_id cache_data ep :
  (program_id, cache_data) ∈ Samples.small_cache ->
  ep ∈ generate_author_feed_by_id.cd_episodes cache_data ->
  e_publishedAt ep <> Null /\ forall s, e_publishedAt ep <> Val (TsStr s).
Proof.
  intros Hc%list_elem_of_singleton. injection Hc as -> ->. cbn.
  intros [->|[->|?%elem_of_nil]%elem_of_cons]%elem_of_cons; done.
Qed.

(** The sample gateways stand in a zone an hour ahead of UTC. *)
Lemma open_gateway_zone : zone_ok Samples.open_gateway.
Proof. intros t. cbn. unfold Samples.one_hour_east. lia. Qed.

Lemma patron_gateway_zone : zone_ok Samples.patron_gateway.
Proof. intros t. cbn. unfold Samples.one_hour_east. lia. Qed.

Lemma missing_timestamp_sorts_last_renders_epoch_witness :
  generate_author_feed_by_id.collect_episodes_by_author_id_from_cache
    "ann@example.org" Samples.small_cache 100 true
  = Ok ([Samples.stamped_episode 2 (Val (TsInt 1600000000000)) (Val false);
         Samples.stamped_episode 1 Absent Absent], Some "Ann")
  /\ pub_date_of Samples.open_gateway
       (get_default (e_publishedAt (Samples.stamped_episode 1 Absent Absent)) (TsInt 0))
     = Ok (FromTimestamp 0).
Proof.
  destruct missing_timestamp_sorts_last_renders_epoch as (Hsort & Hdate).
  destruct (Hsort "ann@example.org" Samples.small_cache 100 true small_cache_stamps)
    as (eps & name & Hcollect & _).
  split; [|apply Hdate; [apply open_gateway_zone|by left]].
  rewrite Hcollect. vm_compute in Hcollect. by injection Hcollect as <- <-.
Defined.

(** With the patron's token every request is answered with the URL,
    and the session stays as it is. *)
Lemma patron_gateway_stable :
  resolves_stably Samples.patron_gateway Samples.open_resolve
    (fun auth _ => auth = Some Samples.patron_session).
Proof. intros podcast_id auth w ->. by split. Qed.

(** Two episodes, the second for patrons only: the feed without
    exclusive content has the item of the first, the feed with it has
    both. *)
Lemma include_exclusive_filter_witness :
  exists os os0 auth' w' auth0 w0,
    generate_author_feed_by_id.feed_loop Samples.patron_gateway "ann@example.org" true
      [Samples.stamped_episode 1 Absent (Val true);
       Samples.stamped_episode 2 (Val (TsInt 1600000000000)) (Val false)]
      (Some Samples.patron_session) Samples.fresh_world = Ok (os, auth', w')
    /\ generate_author_feed_by_id.feed_loop Samples.patron_gateway "ann@example.org" false
         [Samples.stamped_episode 1 Absent (Val true);
          Samples.stamped_episode 2 (Val (TsInt 1600000000000)) (Val false)]
         (Some Samples.patron_session) Samples.fresh_world = Ok (os0, auth0, w0)
    /\ generate_author_feed_by_id.item_guid_text
         <$> generate_author_feed_by_id.items_of os
       = ["radio357-author-ann@example.org-1"; "radio357-author-ann@example.org-2"]
    /\ generate_author_feed_by_id.item_guid_text
         <$> generate_author_feed_by_id.items_of os0
       = ["radio357-author-ann@example.org-1"]
    /\ mapM (generate_author_feed_by_id.item_for Samples.patron_gateway
               "ann@example.org" Samples.open_resolve)
         [Samples.stamped_episode 1 Absent (Val true)]
       = Ok (generate_author_feed_by_id.items_of os0)
    /\ generate_author_feed_by_id.items_of os0
       `sublist_of` generate_author_feed_by_id.items_of os.
Proof.
  destruct (include_exclusive_filter Samples.patron_gateway Samples.open_resolve
              (fun auth _ => auth = Some Samples.patron_session)
              (Some Samples.patron_session) Samples.fresh_world
              patron_gateway_stable eq_refl) as [_ Hauthor].
  destruct (Hauthor "ann@example.org"
              [Samples.stamped_episode 1 Absent (Val true);
               Samples.stamped_episode 2 (Val (TsInt 1600000000000)) (Val false)])
    as (_ & Hfalse & Htrue).
  destruct (generate_author_feed_by_id.feed_loop Samples.patron_gateway _ true _ _ _)
    as [[[os auth'] w']|] eqn:E; [|by vm_compute in E].
  destruct (Htrue os auth' w' eq_refl) as (_ & os0 & auth0 & w0 & E0 & Hsub).
  exists os, os0, auth', w', auth0, w0.
  split; [done|]. split; [done|].
  pose proof (Hfalse os0 auth0 w0 E0) as Hitems.
  split; [|split; [|split; [exact Hitems|exact Hsub]]].
  - vm_compute in E. by injection E as <- _ _.
  - vm_compute in E0. by injection E0 as <- _ _.
Defined.

Lemma guid_deterministic_unique_witness :
  exists os auth' w',
    generate_rss_feed.feed_loop Samples.open_gateway "7" None true
      [Samples.bare_episode 1; Samples.bare_episode 2] None Samples.fresh_world
    = Ok (os, auth', w')
    /\ generate_rss_feed.item_guid_text <$> generate_rss_feed.items_of os
       = ["radio357-7-1"; "radio357-7-2"]
    /\ NoDup (generate_rss_feed.item_guid_text <$> generate_rss_feed.items_of os).
Proof.
  destruct guid_deterministic_unique as (_ & _ & _ & Hprogram & _).
  destruct (generate_rss_feed.feed_loop Samples.open_gateway "7" None true _ _ _)
    as [[[os auth'] w']|] eqn:E; [|by vm_compute in E].
  exists os, auth', w'. split; [done|]. split.
  - vm_compute in E. by injection E as <- _ _.
  - eapply Hprogram; [exact E|]. apply (bool_decide_unpack _). by vm_compute.
Defined.


(** * Further properties of the scripts *)

(** ** Trimming *)

Lemma rstrip_cons c s :
  PyStr.rstrip (String c s)
  = match PyStr.rstrip s with
    | EmptyString => if PyStr.isspace c then EmptyString else String c EmptyString
    | r => String c r
    end.
Proof. done. Qed.

Lemma rstrip_idemp s : PyStr.rstrip (PyStr.rstrip s) = PyStr.rstrip s.
Proof.
  induction s as [|c s IH]; [done|]. rewrite rstrip_cons.
  destruct (PyStr.rstrip s) as [|d r] eqn:E.
  - destruct (PyStr.isspace c) eqn:Hc; [done|]. rewrite rstrip_cons. cbn. by rewrite Hc.
  - by rewrite rstrip_cons, IH.
Qed.

Lemma lstrip_head s :
  PyStr.lstrip s = ""
  \/ exists c t, PyStr.lstrip s = String c t /\ PyStr.isspace c = false.
Proof.
  induction s as [|c s IH]; [by left|]. cbn [PyStr.lstrip].
  destruct (PyStr.isspace c) eqn:Hc; [done|]. right. by exists c, s.
Qed.

Lemma rstrip_head c t :
  PyStr.isspace c = false -> exists t', PyStr.rstrip (String c t) = String c t'.
Proof.
  intros Hc. rewrite rstrip_cons. destruct (PyStr.rstrip t); [|by eexists].
  rewrite Hc. by eexists.
Qed.

Lemma lstrip_fixed c t : PyStr.isspace c = false -> PyStr.lstrip (String c t) = String c t.
Proof. intros Hc. cbn [PyStr.lstrip]. by rewrite Hc. Qed.

Lemma strip_idemp s : PyStr.strip (PyStr.strip s) = PyStr.strip s.
Proof.
  unfold PyStr.strip. destruct (lstrip_head s) as [->|(c & t & -> & Hc)]; [done|].
  destruct (rstrip_head c t Hc) as [t' Ht']. rewrite Ht', (lstrip_fixed _ _ Hc), <- Ht'.
  apply rstrip_idemp.
Qed.

Lemma rstrip_app_newline s : PyStr.rstrip (s +:+ PyStr.newline) = PyStr.rstrip s.
Proof.
  induction s as [|c s IH]; [done|].
  by rewrite append_cons, !rstrip_cons, IH.
Qed.

Lemma strip_app_newline s : PyStr.strip (s +:+ PyStr.newline) = PyStr.strip s.
Proof.
  unfold PyStr.strip. induction s as [|c s IH]; [done|].
  rewrite append_cons. cbn [PyStr.lstrip].
  destruct (PyStr.isspace c) eqn:Hc; [done|].
  by rewrite <- append_cons, rstrip_app_newline.
Qed.

Lemma strip_fixed s :
  PyStr.strip s = s -> PyStr.lstrip s = s /\ PyStr.rstrip s = s.
Proof.
  unfold PyStr.strip. intros Hs.
  destruct (lstrip_head s) as [E|(c & t & E & Hc)]; rewrite E in Hs.
  - by subst s.
  - destruct (rstrip_head c t Hc) as [t' Ht']. rewrite Ht' in Hs. subst s.
    rewrite lstrip_fixed in E by done. rewrite lstrip_fixed by done.
    injection E as ->. by rewrite Ht'.
Qed.

(** ** Configuration files *)

Lemma digit_not_space c : PyStr.isdigit_char c = true -> PyStr.isspace c = false.
Proof. by destruct c as [[] [] [] [] [] [] [] []]. Qed.

Lemma all_digits_rstrip s : PyStr.all_digits s = true -> PyStr.rstrip s = s.
Proof.
  induction s as [|c s IH]; [done|]. cbn [PyStr.all_digits].
  intros [Hc Hs]%andb_prop. rewrite rstrip_cons, (IH Hs).
  destruct s; [|done]. by rewrite (digit_not_space _ Hc).
Qed.

Lemma isdigit_strip s : PyStr.isdigit s = true -> PyStr.strip s = s.
Proof.
  unfold PyStr.isdigit. intros [Ht Hd]%andb_prop. destruct s as [|c s]; [done|].
  unfold PyStr.strip. pose proof Hd as Hd'. cbn [PyStr.all_digits] in Hd'.
  apply andb_prop in Hd' as [Hc _].
  rewrite (lstrip_fixed _ _ (digit_not_space _ Hc)). by apply all_digits_rstrip.
Qed.

Lemma isdigit_not_comment s :
  PyStr.isdigit s = true -> PyStr.truthy s = true /\ PyStr.startswith s "#" = false.
Proof.
  unfold PyStr.isdigit. intros [Ht Hd]%andb_prop. split; [done|].
  destruct s as [|c s]; [done|]. cbn [PyStr.all_digits] in Hd.
  apply andb_prop in Hd as [Hc _]. unfold PyStr.startswith.
  change (String.prefix "#" (String c s))
    with (if ascii_dec "#" c then String.prefix "" s else false).
  destruct (ascii_dec "#" c) as [<-|]; done.
Qed.

Lemma program_id_of_line_eq line :
  program_id_of_line line
  = if PyStr.isdigit (PyStr.strip line) then Some (PyStr.strip line) else None.
Proof.
  unfold program_id_of_line.
  destruct (PyStr.isdigit (PyStr.strip line)) eqn:E.
  - destruct (isdigit_not_comment _ E) as [-> ->]. done.
  - by destruct (negb _ || _).
Qed.

Lemma program_id_lines (lines : list string) :
  omap program_id_of_line lines
  = filter (fun l => PyStr.isdigit l = true) (PyStr.strip <$> lines).
Proof.
  induction lines as [|line lines IH]; [done|].
  rewrite fmap_cons, filter_cons. cbn [omap list_omap]. fold (omap program_id_of_line lines).
  rewrite IH, program_id_of_line_eq.
  destruct (PyStr.isdigit (PyStr.strip line)) eqn:E.
  - by rewrite decide_True.
  - by rewrite decide_False.
Qed.

Lemma omap_fixed {A} (f : A -> option A) (l : list A) :
  Forall (fun x => f x = Some x) l -> omap f l = l.
Proof.
  induction 1 as [|x l Hx _ IH]; [done|].
  cbn [omap list_omap]. fold (omap f l). by rewrite Hx, IH.
Qed.

Lemma omap_ext_fmap {A B} (f : A -> option B) (g : A -> A) (l : list A) :
  (forall x, f (g x) = f x) -> omap f (g <$> l) = omap f l.
Proof.
  intros Hfg. induction l as [|x l IH]; [done|].
  rewrite fmap_cons. cbn [omap list_omap]. fold (omap f l) (omap f (g <$> l)).
  by rewrite Hfg, IH.
Qed.


Lemma author_id_of_line_eq line :
  author_id_of_line line
  = if PyStr.contains_char "@" (PyStr.strip line)
       && negb (PyStr.startswith (PyStr.strip line) "#")
    then Some (PyStr.strip line) else None.
Proof.
  unfold author_id_of_line.
  destruct (PyStr.strip line) as [|c s] eqn:E; [done|].
  cbn [PyStr.truthy negb orb].
  destruct (PyStr.startswith _ _); [|by rewrite andb_true_r].
  by rewrite andb_false_r.
Qed.


(** ** File names *)

Lemma replace_char_map old new s :
  PyStr.replace_char old new s
  = string_map (fun c => if decide (c = old) then new else c) s.
Proof. induction s as [|c s IH]; [done|]. cbn. by rewrite IH. Qed.

Lemma string_map_compose f g s : string_map g (string_map f s) = string_map (g ∘ f) s.
Proof. induction s as [|c s IH]; [done|]. cbn. by rewrite IH. Qed.

Lemma string_map_ext f g s : (forall c, f c = g c) -> string_map f s = string_map g s.
Proof. intros Hfg. induction s as [|c s IH]; [done|]. cbn. by rewrite Hfg, IH. Qed.

Lemma string_map_id s : string_map id s = s.
Proof. induction s as [|c s IH]; [done|]. cbn. by rewrite IH. Qed.

Lemma replace_all_map (olds : list ascii) new s :
  foldl (fun s old => PyStr.replace_char old new s) s olds
  = string_map (fun c => foldl (fun c old => if decide (c = old) then new else c) c olds) s.
Proof.
  revert s. induction olds as [|old olds IH]; intros s; cbn [foldl].
  - by rewrite (string_map_ext _ id), string_map_id.
  - by rewrite IH, replace_char_map, string_map_compose.
Qed.

Lemma sanitize_filename_eq filename :
  sanitize_filename filename
  = PyStr.str_slice_to (string_map clean_char filename) 200.
Proof. unfold sanitize_filename. by rewrite replace_all_map. Qed.

Lemma clean_char_valid c : clean_char c ∉ invalid_chars.
Proof.
  apply (bool_decide_unpack _).
  by destruct c as [[] [] [] [] [] [] [] []]; vm_compute.
Qed.

Lemma clean_char_fixed c : c ∉ invalid_chars -> clean_char c = c.
Proof.
  intros Hc. destruct (decide (clean_char c = c)) as [|Hne]; [done|].
  exfalso. revert Hc Hne. 
  destruct c as [[] [] [] [] [] [] [] []]; vm_compute; intros Hc Hne;
    first [by apply Hne | apply Hc; repeat first [by left | right]].
Qed.

Lemma slice_cons c s n :
  PyStr.str_slice_to (String c s) (S n) = String c (PyStr.str_slice_to s n).
Proof. done. Qed.

Lemma slice_length s n :
  String.length (PyStr.str_slice_to s n) = (String.length s `min` n)%nat.
Proof.
  revert s. induction n as [|n IH]; intros [|c s]; try done.
  rewrite slice_cons. cbn [String.length]. by rewrite IH.
Qed.

Lemma slice_all s n : (String.length s <= n)%nat -> PyStr.str_slice_to s n = s.
Proof.
  revert s. induction n as [|n IH]; intros [|c s] Hn; try done.
  - cbn in Hn. lia.
  - rewrite slice_cons, IH; [done|]. cbn in Hn. lia.
Qed.

Lemma slice_map f s n :
  PyStr.str_slice_to (string_map f s) n = string_map f (PyStr.str_slice_to s n).
Proof.
  revert s. induction n as [|n IH]; intros [|c s]; try done.
  cbn [string_map]. by rewrite !slice_cons, IH.
Qed.

Lemma string_map_length f s : String.length (string_map f s) = String.length s.
Proof. induction s as [|c s IH]; [done|]. cbn. by rewrite IH. Qed.

Lemma contains_char_map f sep s :
  (forall c, f c <> sep) -> PyStr.contains_char sep (string_map f s) = false.
Proof.
  intros Hf. induction s as [|c s IH]; [done|].
  cbn. by rewrite decide_False.
Qed.

Lemma string_map_fixed f s :
  (forall c, PyStr.contains_char c s = true -> f c = c) -> string_map f s = s.
Proof.
  induction s as [|c s IH]; [done|]. intros Hf. cbn. rewrite Hf, IH; [done| |].
  - intros d Hd. apply Hf. cbn. by destruct (decide _).
  - cbn. by rewrite decide_True.
Qed.


(** ** The session and the media-URL endpoint *)


Lemma get_audio_url_from_api_eq e s auth w :
  download_from_feed.get_audio_url_from_api e s auth w
  = feed_get_audio_url e (IdStr s) auth w.
Proof. reflexivity. Qed.


(** ** The token file *)


(** ** Listings without a bound *)

Section paginate.
Context {A : Type} (get_page : nat -> listing A).

(** One turn of the loop. *)
Lemma paginate_step fuel all_items page :
  paginate get_page (S fuel) all_items page
  = match get_page page with
    | Listing (x :: items) total =>
        if total_reached total (length (all_items ++ x :: items))
        then Some (all_items ++ x :: items)
        else if (length (x :: items) <? 250)%nat
             then Some (all_items ++ x :: items)
             else paginate get_page fuel (all_items ++ x :: items) (S page)
    | _ => Some all_items
    end.
Proof. cbn [paginate]. by destruct (get_page page) as [| |[|x items] total]. Qed.

Lemma paginate_fuel_mono fuel fuel' all_items page r :
  paginate get_page fuel all_items page = Some r ->
  (fuel <= fuel')%nat ->
  paginate get_page fuel' all_items page = Some r.
Proof.
  revert fuel' all_items page.
  induction fuel as [|fuel IH]; intros fuel' all_items page; [done|].
  destruct fuel' as [|fuel']; [lia|]. rewrite !paginate_step.
  destruct (get_page page) as [| |[|x items] total]; try done.
  destruct (total_reached _ _); [done|]. destruct (_ <? _)%nat; [done|].
  intros Hr Hle. apply IH; [done|lia].
Qed.

Lemma paginate_extends fuel all_items page r :
  paginate get_page fuel all_items page = Some r -> all_items `prefix_of` r.
Proof.
  revert all_items page.
  induction fuel as [|fuel IH]; intros all_items page; [done|].
  rewrite paginate_step.
  destruct (get_page page) as [| |[|x items] total]; try (by intros [= <-]).
  destruct (total_reached _ _); [intros [= <-]; by apply prefix_app_r|].
  destruct (_ <? _)%nat; [intros [= <-]; by apply prefix_app_r|].
  intros Hr%IH. etrans; [|done]. by apply prefix_app_r.
Qed.

(** Totals that are numbers, none above [T], end the loop. *)
Lemma paginate_terminates T fuel all_items page :
  (forall page items total,
      get_page page = Listing items total ->
      total = TotalOther \/ exists t, total = TotalInt t /\ t <= T) ->
  (Z.to_nat T - length all_items < fuel)%nat ->
  is_Some (paginate get_page fuel all_items page).
Proof.
  intros Htotal. revert all_items page.
  induction fuel as [|fuel IH]; intros all_items page Hfuel; [lia|].
  rewrite paginate_step.
  destruct (get_page page) as [| |[|x items] total] eqn:E; try done.
  destruct (total_reached _ _) eqn:Hreached; [done|].
  destruct (_ <? _)%nat; [done|].
  apply IH. destruct (Htotal _ _ _ E) as [->|(t & -> & Ht)]; [done|].
  cbn [total_reached] in Hreached. apply Z.leb_gt in Hreached.
  rewrite length_app in *. cbn [length] in *. lia.
Qed.

(** Full pages without a total, for ever: the loop does not end. *)
Lemma paginate_diverges fuel all_items page :
  (forall page, exists items,
      get_page page = Listing items NoTotal /\ (250 <= length items)%nat) ->
  paginate get_page fuel all_items page = None.
Proof.
  intros Hfull. revert all_items page.
  induction fuel as [|fuel IH]; intros all_items page; [done|].
  rewrite paginate_step. destruct (Hfull page) as (items & -> & Hlen).
  destruct items as [|x items]; [cbn in Hlen; lia|].
  cbn [total_reached]. destruct (Nat.ltb_spec (length (x :: items)) 250); [lia|].
  apply IH.
Qed.

End paginate.


Section full_crawl.
Context (api : content_api) (totals : string -> nat -> total_field) (program_id : string).

(** The bounded loop has gathered an initial part of what the unbounded
    loop gathers or the other way round; when no page has a total, it
    has gathered all of it or enough. *)
Lemma crawl_loop_paginate max_episodes fuel fuel' all_episodes page r c :
  paginate (episodes_page api totals program_id) fuel all_episodes page = Some r ->
  crawl_loop api program_id max_episodes fuel' all_episodes page = Some c ->
  (c `prefix_of` r \/ r `prefix_of` c)
  /\ ((forall page, totals program_id page = NoTotal) ->
      c `prefix_of` r /\ (c = r \/ max_episodes <= Z.of_nat (length c))).
Proof.
  revert fuel' all_episodes page.
  induction fuel as [|fuel IH]; intros fuel' all_episodes page; [done|].
  destruct fuel' as [|fuel']; [done|]. rewrite crawl_loop_step.
  destruct (Z.ltb_spec (Z.of_nat (length all_episodes)) max_episodes) as [Hlt|Hge].
  - rewrite paginate_step. unfold episodes_page at 1.
    destruct (get_program_episodes api program_id page) as [| |[|e episodes]];
      cbn [listing_of]; try (intros [= <-] [= <-]; split; [by left|by split; [|left]]).
    destruct (total_reached _ _) eqn:Hreached.
    + intros [= <-]. destruct (_ <? _)%nat; [intros [= <-]|intros Hc].
      * split; [by left|by split; [|left]].
      * split.
        -- right. change (crawl_loop api program_id max_episodes fuel'
                            (all_episodes ++ e :: episodes) (S page) = Some c) in Hc.
           clear -Hc. revert Hc. generalize (all_episodes ++ e :: episodes) (S page).
           induction fuel' as [|fuel' IH']; intros acc p; [done|].
           rewrite crawl_loop_step. destruct (_ <? _); [|by intros [= <-]].
           destruct (get_program_episodes _ _ _) as [| |[|e' eps']];
             try (by intros [= <-]).
           destruct (_ <? _)%nat; [intros [= <-]; by apply prefix_app_r|].
           intros Hc%IH'. etrans; [|done]. by apply prefix_app_r.
        -- intros Hno. by rewrite Hno in Hreached.
    + destruct (_ <? _)%nat; [intros [= <-] [= <-]; split; [by left|by split; [|left]]|].
      apply IH.
  - intros Hr%paginate_extends [= <-]. split; [by left|]. intros _. split; [done|by right].
Qed.

End full_crawl.


(** ** The episodes of an author *)

Lemma prefix_sublist {A} (l1 l2 : list A) : l1 `prefix_of` l2 -> l1 `sublist_of` l2.
Proof. intros [k ->]. by apply sublist_inserts_r. Qed.

Lemma sorted_prefix {A} (R : relation A) (l1 l2 : list A) :
  l1 `prefix_of` l2 -> StronglySorted R l2 -> StronglySorted R l1.
Proof. intros [k ->]. apply StronglySorted_app_1_l. Qed.

Section from_cache.
Import generate_author_feed_by_id.
Context (author_id : string) (include_exclusive : bool).

Lemma name_from_mono eps eps' author_name :
  eps ⊆ eps' -> name_from author_id eps author_name -> name_from author_id eps' author_name.
Proof.
  intros Hsub Hn n Hname. destruct (Hn n Hname) as (ep & m & ? & ?).
  exists ep, m. split; [by apply Hsub|done].
Qed.

Lemma find_author_spec team author_name :
  let '(has_author, author_name') := find_author author_id team author_name in
  has_author
    = existsb (fun m => match m with
                        | Some m => bool_decide (stripped (m_email m) = author_id)
                        | None => false
                        end) team
  /\ (has_author = true -> is_Some author_name')
  /\ (has_author = false -> author_name' = author_name)
  /\ (author_name' = author_name
      \/ exists m, Some m ∈ team /\ stripped (m_email m) = author_id
                   /\ author_name' = Some (stripped (m_name m))).
Proof.
  induction team as [|[m|] team IH]; cbn [find_author existsb].
  - repeat split; try done. by left.
  - case_bool_decide as Hm; cbn [orb].
    + repeat split; try done.
      * intros _. by destruct (truthy_opt author_name) eqn:E, author_name.
      * destruct (truthy_opt author_name); [by left|right].
        exists m. split; [by left|done].
    + destruct (find_author author_id team author_name) as [has name'].
      destruct IH as (? & ? & ? & Hname). repeat split; try done.
      destruct Hname as [?|(m' & ? & ?)]; [by left|right].
      exists m'. split; [by right|done].
  - destruct (find_author author_id team author_name) as [has name'].
    destruct IH as (? & ? & ? & Hname). repeat split; try done.
    destruct Hname as [?|(m' & ? & ?)]; [by left|right].
    exists m'. split; [by right|done].
Qed.

Lemma filter_episodes_spec eps seen author_episodes author_name :
  name_from author_id seen author_name ->
  (author_episodes <> [] -> is_Some author_name) ->
  let '(author_episodes', author_name') :=
    filter_episodes author_id include_exclusive eps author_episodes author_name in
  author_episodes'
    = author_episodes ++ filter (fun ep => wanted author_id include_exclusive ep = true) eps
  /\ name_from author_id (seen ++ eps) author_name'
  /\ (author_episodes' <> [] -> is_Some author_name').
Proof.
  revert seen author_episodes author_name.
  induction eps as [|ep eps IH]; intros seen acc name Hname Hsome; cbn [filter_episodes].
  - by rewrite !app_nil_r.
  - pose proof (find_author_spec (team_of ep) name) as Hfind.
    destruct (find_author author_id (team_of ep) name) as [has name'].
    destruct Hfind as (Hhas & Hfound & Hkeep & Hwho).
    assert (has = on_team author_id ep) as Hon by done.
    assert (name_from author_id (seen ++ [ep]) name') as Hname'.
    { destruct Hwho as [->|(m & Hm & Hemail & ->)].
      - eapply name_from_mono; [|done]. set_solver.
      - intros n [= <-]. exists ep, m. split; [set_solver|done]. }
    assert ((if has && (is_free ep || include_exclusive) then acc ++ [ep] else acc) <> []
            -> is_Some name') as Hsome'.
    { destruct has; [by intros _; apply Hfound|].
      cbn [andb]. rewrite Hkeep by done. apply Hsome. }
    specialize (IH (seen ++ [ep]) _ name' Hname' Hsome').
    destruct (filter_episodes _ _ eps _ _) as [acc' name''].
    destruct IH as (-> & Hn & Hs). rewrite <- app_assoc in Hn. cbn [app] in Hn.
    split; [|done]. rewrite filter_cons.
    assert (wanted author_id include_exclusive ep
            = has && (is_free ep || include_exclusive)) as Hw
      by (unfold wanted; by rewrite <- Hon).
    destruct (has && _) eqn:E.
    + rewrite decide_True by done. by rewrite <- app_assoc.
    + by rewrite decide_False by (by rewrite Hw).
Qed.

Lemma scan_cache_spec max_total_episodes cache seen author_episodes author_name :
  name_from author_id seen author_name ->
  (author_episodes <> [] -> is_Some author_name) ->
  let '(author_episodes', author_name') :=
    scan_cache author_id max_total_episodes include_exclusive cache
      author_episodes author_name in
  let all := author_episodes
             ++ filter (fun ep => wanted author_id include_exclusive ep = true)
                  (cached_episodes cache) in
  author_episodes' `prefix_of` all
  /\ (author_episodes' = all
      \/ max_total_episodes <= Z.of_nat (length author_episodes'))
  /\ name_from author_id (seen ++ cached_episodes cache) author_name'
  /\ (author_episodes' <> [] -> is_Some author_name').
Proof.
  revert seen author_episodes author_name.
  induction cache as [|[program_id cache_data] cache IH]; intros seen acc name Hname Hsome;
    cbn [scan_cache].
  - cbn. rewrite !app_nil_r. by repeat split; [|left|..].
  - unfold cached_episodes. rewrite bind_cons. fold (cached_episodes cache). cbn [snd].
    pose proof (filter_episodes_spec (cd_episodes cache_data) seen acc name Hname Hsome)
      as Hf.
    destruct (filter_episodes _ _ _ _ _) as [acc' name'].
    destruct Hf as (-> & Hname' & Hsome'). rewrite filter_app, app_assoc.
    destruct (Z.leb_spec max_total_episodes
                (Z.of_nat (length (acc ++ filter (fun ep => wanted author_id
                                                     include_exclusive ep = true)
                                            (cd_episodes cache_data))))) as [Hle|Hgt].
    + split; [by apply prefix_app_r|]. split; [by right|]. split; [|done].
      eapply name_from_mono; [|done]. intros x Hx. rewrite !elem_of_app in *. tauto.
    + specialize (IH _ _ _ Hname' Hsome').
      destruct (scan_cache _ _ _ cache _ _) as [acc'' name''].
      by rewrite <- (app_assoc seen) in IH.
Qed.

End from_cache.


(** ** The cache of episodes *)

Lemma dict_lookup_set {V} k k' (v : V) d :
  dict_lookup k (dict_set k' v d)
  = if bool_decide (k' = k) then Some v else dict_lookup k d.
Proof.
  unfold dict_set. destruct (dict_lookup k' d) as [v'|] eqn:E.
  - rewrite dict_lookup_alter. case_bool_decide as Hk; [|done]. subst. by rewrite E.
  - rewrite dict_lookup_app. cbn [dict_lookup].
    case_bool_decide as Hk; [subst; by rewrite E|]. by destruct (dict_lookup k d).
Qed.

Lemma dict_set_keys {V} k (v : V) d :
  NoDup d.*1 ->
  NoDup (dict_set k v d).*1 /\ forall k', k' ∈ (dict_set k v d).*1 <-> k' = k \/ k' ∈ d.*1.
Proof.
  intros Hnd. unfold dict_set. destruct (dict_lookup k d) as [v'|] eqn:E.
  - rewrite dict_alter_keys. split; [done|]. intros k'. split; [by right|].
    intros [->|?]; [|done]. apply dict_lookup_elem_of in E.
    apply list_elem_of_fmap. by exists (k, v').
  - apply dict_lookup_None in E. rewrite fmap_app. cbn. split.
    + apply NoDup_app. split; [done|]. split; [|apply NoDup_singleton].
      by intros x Hx ->%list_elem_of_singleton.
    + intros k'. rewrite elem_of_app, list_elem_of_singleton. tauto.
Qed.

Lemma dict_set_fresh {V} k (v : V) d : k ∉ d.*1 -> dict_set k v d = d ++ [(k, v)].
Proof. intros Hk%dict_lookup_None. unfold dict_set. by rewrite Hk. Qed.

Lemma scan_episodes_inject pn pid pimg program_name eps d :
  foldl (scan_episode program_name) d (generate_author_feed_by_id.inject pn pid pimg <$> eps)
  = foldl (scan_episode program_name) d eps.
Proof.
  revert d. induction eps as [|ep eps IH]; intros d; [done|].
  rewrite fmap_cons. cbn [foldl]. by rewrite IH.
Qed.

Lemma select_program_pair api authors_dict cache program_id :
  generate_author_feed_by_id.select_program api (authors_dict, cache) program_id
  = (list_authors.scan_program api authors_dict program_id,
     generate_all_author_feeds.cache_program api cache program_id).
Proof.
  unfold generate_author_feed_by_id.select_program, list_authors.scan_program,
    generate_all_author_feeds.cache_program.
  destruct (get_program_info api program_id) as [info|]; [|done].
  by rewrite scan_episodes_inject.
Qed.

Lemma select_programs_pair api authors_dict cache program_ids :
  foldl (generate_author_feed_by_id.select_program api) (authors_dict, cache) program_ids
  = (foldl (list_authors.scan_program api) authors_dict program_ids,
     foldl (generate_all_author_feeds.cache_program api) cache program_ids).
Proof.
  revert authors_dict cache.
  induction program_ids as [|pid pids IH]; intros authors_dict cache; [done|].
  cbn [foldl]. by rewrite select_program_pair, IH.
Qed.


Lemma cache_program_entry api cache program_id :
  generate_all_author_feeds.cache_program api cache program_id
  = match cache_entry api program_id with
    | Some entry => dict_set program_id entry cache
    | None => cache
    end.
Proof.
  unfold generate_all_author_feeds.cache_program, cache_entry.
  by destruct (get_program_info api program_id).
Qed.

Lemma build_cache_lookup api program_ids cache program_id :
  NoDup cache.*1 ->
  let cache' := foldl (generate_all_author_feeds.cache_program api) cache program_ids in
  NoDup cache'.*1
  /\ dict_lookup program_id cache'
     = match (if bool_decide (program_id ∈ program_ids)
              then cache_entry api program_id else None) with
       | Some entry => Some entry
       | None => dict_lookup program_id cache
       end.
Proof.
  revert cache. induction program_ids as [|pid pids IH]; intros cache Hnd; cbn [foldl].
  - split; [done|]. by rewrite bool_decide_false by apply not_elem_of_nil.
  - rewrite cache_program_entry.
    assert (NoDup (match cache_entry api pid with
                   | Some entry => dict_set pid entry cache
                   | None => cache
                   end).*1) as Hnd'.
    { destruct (cache_entry api pid); [by apply dict_set_keys|done]. }
    destruct (IH _ Hnd') as [Hnd'' Hl]. split; [done|]. rewrite Hl.
    destruct (decide (program_id = pid)) as [->|Hne].
    + rewrite (bool_decide_true (pid ∈ pid :: pids)) by left.
      case_bool_decide; destruct (cache_entry api pid) as [entry|] eqn:E; try done.
      by rewrite dict_lookup_set, bool_decide_true.
    + assert (bool_decide (program_id ∈ pid :: pids) = bool_decide (program_id ∈ pids))
        as ->.
      { apply bool_decide_ext. rewrite elem_of_cons. split; [by intros [?|?]|by right]. }
      destruct (if bool_decide _ then _ else _); [done|].
      destruct (cache_entry api pid); [|done].
      by rewrite dict_lookup_set, bool_decide_false.
Qed.

Lemma build_cache_fresh api program_ids cache :
  NoDup program_ids ->
  (forall program_id, program_id ∈ program_ids -> program_id ∉ cache.*1) ->
  foldl (generate_all_author_feeds.cache_program api) cache program_ids
  = cache ++ omap (fun program_id => pair program_id <$> cache_entry api program_id)
               program_ids.
Proof.
  revert cache. induction program_ids as [|pid pids IH]; intros cache Hnd Hfresh;
    cbn [foldl].
  - cbn. by rewrite app_nil_r.
  - apply NoDup_cons in Hnd as [Hpid Hnd]. rewrite cache_program_entry.
    cbn [omap list_omap]. fold (omap (fun program_id => pair program_id
                                         <$> cache_entry api program_id) pids).
    destruct (cache_entry api pid) as [entry|]; cbn [fmap option_fmap option_map].
    + rewrite IH; [|done|].
      * rewrite dict_set_fresh by (apply Hfresh; left). by rewrite <- app_assoc.
      * intros k Hk. rewrite dict_set_fresh by (apply Hfresh; left).
        rewrite fmap_app, elem_of_app. cbn. rewrite list_elem_of_singleton.
        intros [?| ->]; [|done]. by apply (Hfresh k); [right|].
    + apply IH; [done|]. intros k Hk. apply Hfresh. by right.
Qed.


Section direct_scan.
Import generate_author_feed_by_id.
Context (api : content_api) (author_id : string) (max_total_episodes : Z)
  (include_exclusive : bool).

Lemma match_team_find program_name program_id program_image ep team
    author_episodes author_name :
  match_team author_id include_exclusive program_name program_id program_image ep
    team author_episodes author_name
  = let '(has_author, author_name') := find_author author_id team author_name in
    (if has_author && (is_free ep || include_exclusive)
     then author_episodes ++ [inject program_name program_id program_image ep]
     else author_episodes,
     author_name').
Proof.
  induction team as [|[m|] team IH]; cbn [match_team find_author]; [done| |done].
  case_bool_decide; [|done]. cbn [andb]. by destruct (_ || _).
Qed.

Lemma match_episodes_filter program_name program_id program_image episodes
    author_episodes author_name :
  match_episodes author_id include_exclusive program_name program_id program_image
    episodes author_episodes author_name
  = filter_episodes author_id include_exclusive
      (inject program_name program_id program_image <$> episodes)
      author_episodes author_name.
Proof.
  revert author_episodes author_name.
  induction episodes as [|ep episodes IH]; intros acc name; [done|].
  rewrite fmap_cons. cbn [match_episodes filter_episodes]. rewrite match_team_find.
  change (team_of (inject program_name program_id program_image ep)) with (team_of ep).
  change (is_free (inject program_name program_id program_image ep)) with (is_free ep).
  destruct (find_author author_id (team_of ep) name) as [has name']. apply IH.
Qed.

Lemma scan_programs_cache program_ids author_episodes author_name :
  scan_programs api author_id max_total_episodes include_exclusive program_ids
    author_episodes author_name
  = scan_cache author_id max_total_episodes include_exclusive
      (omap (fun program_id => pair program_id <$> cache_entry api program_id) program_ids)
      author_episodes author_name.
Proof.
  revert author_episodes author_name.
  induction program_ids as [|pid pids IH]; intros acc name; [done|].
  cbn [scan_programs omap list_omap].
  fold (omap (fun program_id => pair program_id <$> cache_entry api program_id) pids).
  unfold cache_entry at 1.
  destruct (get_program_info api pid) as [info|]; cbn [fmap option_fmap option_map];
    [|apply IH].
  cbn [scan_cache cd_episodes]. rewrite match_episodes_filter.
  destruct (filter_episodes _ _ _ _ _) as [acc' name'].
  destruct (_ <=? _); [done|apply IH].
Qed.

End direct_scan.


(** ** Authors by id *)

Section by_id.

Lemma stripped_strict_ok (f : field string) :
  is_null f = false -> generate_all_author_feeds.stripped_strict f = Ok (stripped f).
Proof. destruct f as [| |s]; try done. intros _. cbn. by destruct s. Qed.

Lemma scan_member_by_id pn d (m : member) :
  generate_all_author_feeds.scan_member pn d (Some m)
  = if has_null m then Raise AttributeError
    else Ok (scan_member pn d (Some (by_id m))).
Proof.
  unfold generate_all_author_feeds.scan_member, has_null.
  destruct (is_null (m_name m)) eqn:Hn.
  - by destruct (m_name m).
  - rewrite (stripped_strict_ok _ Hn). cbn [mbind result_bind orb].
    destruct (is_null (m_id m)) eqn:Hi.
    + by destruct (m_id m).
    + rewrite (stripped_strict_ok _ Hi). cbn [mbind result_bind scan_member by_id m_email m_name].
      by destruct (_ && _).
Qed.

Lemma scan_team_by_id pn team d :
  generate_all_author_feeds.scan_team pn d team
  = if existsb has_null (omap id team) then Raise AttributeError
    else Ok (foldl (scan_member pn) d (team_by_id team)).
Proof.
  revert d. induction team as [|[m|] team IH]; intros d; [done| |].
  - cbn [generate_all_author_feeds.scan_team]. rewrite scan_member_by_id.
    change (omap id (Some m :: team)) with (m :: omap id team). cbn [existsb].
    destruct (has_null m); [done|]. cbn [mbind result_bind orb]. by rewrite IH.
  - cbn [generate_all_author_feeds.scan_team generate_all_author_feeds.scan_member].
    cbn [mbind result_bind]. by rewrite IH.
Qed.

Lemma memberships_by_id eps : memberships (episode_by_id <$> eps) = by_id <$> memberships eps.
Proof.
  induction eps as [|ep eps IH]; [done|].
  rewrite fmap_cons, !memberships_cons, fmap_app, IH. f_equal.
  change (team_of (episode_by_id ep)) with (team_by_id (team_of ep)).
  generalize (team_of ep). intros team. induction team as [|[m|] team IHt]; [done| |done].
  cbn. by rewrite <- IHt.
Qed.

Lemma scan_episodes_by_id pn eps d :
  generate_all_author_feeds.scan_episodes pn d eps
  = if existsb has_null (memberships eps) then Raise AttributeError
    else Ok (foldl (scan_episode pn) d (episode_by_id <$> eps)).
Proof.
  revert d. induction eps as [|ep eps IH]; intros d; [done|].
  cbn [generate_all_author_feeds.scan_episodes]. rewrite scan_team_by_id.
  rewrite memberships_cons, existsb_app.
  destruct (existsb has_null (omap id (team_of ep))); [done|].
  cbn [mbind result_bind orb]. by rewrite IH.
Qed.

Lemma scan_programs_by_id api pids d :
  generate_all_author_feeds.scan_programs api d pids
  = if existsb has_null (memberships (scanned_episodes api pids))
    then Raise AttributeError
    else Ok (foldl (scan_program_by_id api) d pids).
Proof.
  revert d. induction pids as [|pid pids IH]; intros d; [done|].
  cbn [generate_all_author_feeds.scan_programs foldl].
  unfold scanned_episodes. rewrite bind_cons. fold (scanned_episodes api pids).
  rewrite memberships_app, existsb_app. unfold scan_program_by_id at 2.
  destruct (get_program_info api pid) as [info|]; [|by rewrite IH].
  rewrite scan_episodes_by_id.
  destruct (existsb has_null
              (memberships (generate_author_feed_by_id.fetch_all_episodes_from_program
                              api pid 500))); [done|].
  cbn [mbind result_bind orb]. by rewrite IH.
Qed.

Lemma counted_by_id_eq id ms : counted id (by_id <$> ms) = counted_by_id id ms.
Proof.
  unfold counted_by_id. induction ms as [|m ms IH]; [done|].
  rewrite fmap_cons, counted_cons, IH, filter_cons. cbn [by_id m_email m_name].
  case_bool_decide as Hid; destruct (PyStr.truthy (stripped (m_name m))) eqn:Hn.
  - rewrite decide_True by done. cbn [length]. lia.
  - rewrite decide_False; [lia|]. intros [_ ?]. congruence.
  - by rewrite decide_False by (by intros [? _]).
  - by rewrite decide_False by (by intros [? _]).
Qed.

Lemma scan_programs_by_id_tally api pids d id :
  id <> "" ->
  tally id (foldl (scan_program_by_id api) d pids)
  = tally id d + counted_by_id id (memberships (scanned_episodes api pids)).
Proof.
  intros Hne. rewrite <- counted_by_id_eq.
  revert d. induction pids as [|pid pids IH]; intros d; cbn [foldl].
  - change (memberships (scanned_episodes api [])) with (@nil member).
    rewrite fmap_nil, counted_nil. lia.
  - rewrite IH. unfold scanned_episodes. rewrite bind_cons.
    fold (scanned_episodes api pids).
    rewrite memberships_app, fmap_app, counted_app.
    unfold scan_program_by_id.
    destruct (get_program_info api pid).
    + rewrite scan_episodes_tally, memberships_by_id by done. lia.
    + change (memberships []) with (@nil member). rewrite fmap_nil, counted_nil. lia.
Qed.

Lemma scan_programs_by_id_well_keyed api pids d :
  well_keyed d -> well_keyed (foldl (scan_program_by_id api) d pids).
Proof.
  revert d. induction pids as [|pid pids IH]; intros d Hd; simpl; [done|].
  apply IH. unfold scan_program_by_id.
  destruct (get_program_info api pid); [|done].
  by apply scan_episodes_well_keyed.
Qed.

End by_id.


(** ** The episodes of an author named by id *)

Section optimized.
Import generate_all_author_feeds.
Context (author_email : string) (include_exclusive : bool).

Lemma has_author_on_team ep :
  has_author author_email (team_of ep) = on_team_by_id author_email ep.
Proof.
  unfold on_team_by_id. generalize (team_of ep). intros team.
  induction team as [|[m|] team IH]; cbn [has_author existsb]; [done| |done].
  by case_bool_decide.
Qed.

Lemma gather_filter episodes author_episodes :
  gather author_email include_exclusive episodes author_episodes
  = author_episodes
    ++ filter (fun ep => wanted_by_id author_email include_exclusive ep = true) episodes.
Proof.
  revert author_episodes. induction episodes as [|ep episodes IH]; intros acc;
    cbn [gather]; [by rewrite app_nil_r|].
  rewrite IH, filter_cons, has_author_on_team.
  change (on_team_by_id author_email ep && (is_free ep || include_exclusive))
    with (wanted_by_id author_email include_exclusive ep).
  destruct (wanted_by_id author_email include_exclusive ep) eqn:E.
  - rewrite decide_True by done. by rewrite <- app_assoc.
  - by rewrite decide_False by done.
Qed.

Lemma gather_programs_spec max_total_episodes cache program_ids author_episodes :
  let gathered :=
    gather_programs author_email max_total_episodes include_exclusive cache
      program_ids author_episodes in
  let all := author_episodes
             ++ filter (fun ep => wanted_by_id author_email include_exclusive ep = true)
                  (listed_episodes cache program_ids) in
  gathered `prefix_of` all
  /\ (gathered = all \/ max_total_episodes <= Z.of_nat (length gathered)).
Proof.
  revert author_episodes.
  induction program_ids as [|pid pids IH]; intros acc; cbn [gather_programs].
  - cbn. rewrite app_nil_r. by split; [|left].
  - unfold listed_episodes. rewrite bind_cons. fold (listed_episodes cache pids).
    destruct (dict_lookup pid cache) as [episodes_data|]; [|apply IH].
    rewrite gather_filter, filter_app, app_assoc.
    destruct (Z.leb_spec max_total_episodes
                (Z.of_nat (length (acc ++ filter
                                     (fun ep => wanted_by_id author_email
                                                  include_exclusive ep = true)
                                     (generate_author_feed_by_id.cd_episodes
                                        episodes_data))))) as [Hle|Hgt].
    + split; [by apply prefix_app_r|by right].
    + apply IH.
Qed.

End optimized.

Lemma listed_episodes_cache api (program_ids : list string) :
  NoDup program_ids ->
  listed_episodes (generate_all_author_feeds.build_episodes_cache api program_ids)
    program_ids
  = cached_episodes (generate_all_author_feeds.build_episodes_cache api program_ids).
Proof.
  intros Hnd. unfold generate_all_author_feeds.build_episodes_cache.
  rewrite build_cache_fresh; [|done|intros ? _; apply not_elem_of_nil]. cbn [app].
  set (cache := omap _ program_ids).
  assert (forall pid, pid ∈ program_ids ->
            dict_lookup pid cache = cache_entry api pid) as Hlookup.
  { intros pid Hpid.
    pose proof (build_cache_lookup api program_ids [] pid (NoDup_nil_2)) as [_ Hl].
    rewrite build_cache_fresh in Hl; [|done|intros ? _; apply not_elem_of_nil].
    cbn [app] in Hl. fold cache in Hl. rewrite Hl, bool_decide_true by done.
    by destruct (cache_entry api pid). }
  unfold listed_episodes, cached_episodes. subst cache.
  clear Hnd. revert Hlookup. generalize (omap (fun program_id =>
                                            pair program_id <$> cache_entry api program_id)
                                           program_ids) at 1 2.
  intros cache Hlookup.
  induction program_ids as [|pid pids IH]; [done|].
  rewrite bind_cons. cbn [omap list_omap].
  fold (omap (fun program_id => pair program_id <$> cache_entry api program_id) pids).
  rewrite Hlookup by left. rewrite IH by (intros; apply Hlookup; by right).
  by destruct (cache_entry api pid).
Qed.


(** ** The requests of a feed run *)

Lemma feed_get_audio_url_events e podcast_id auth w :
  let '(url, auth', w') := feed_get_audio_url e podcast_id auth w in
  exists evs,
    log w' = log w ++ evs
    /\ (get_requests evs <= 2)%nat
    /\ Forall (fun ev => match ev with
                         | EvRequest (HttpGet url _) => url = audio_url_endpoint podcast_id
                         | _ => True
                         end) evs.
Proof.
  unfold feed_get_audio_url, Auth.refresh, Auth.save_tokens, send, record_event.
  repeat case_match; simplify_eq/=;
    (eexists; split; [rewrite <- ?app_assoc; cbn; reflexivity|]);
    (split; [vm_compute; lia|]); by repeat constructor.
Qed.

Lemma gets_only_for_app eps eps' evs evs' :
  gets_only_for eps evs -> gets_only_for eps' evs' ->
  gets_only_for (eps ++ eps') (evs ++ evs').
Proof.
  intros H H'. apply Forall_app. split; (eapply Forall_impl; [done|]);
    intros [[url ?|]|]; try done; intros (ep & ? & ?); exists ep;
    (split; [|done]); rewrite elem_of_app; auto.
Qed.

Lemma get_requests_app evs evs' :
  get_requests (evs ++ evs') = (get_requests evs + get_requests evs')%nat.
Proof. unfold get_requests. by rewrite filter_app, length_app. Qed.

Lemma passing_cons include_exclusive ep eps :
  passing include_exclusive (ep :: eps)
  = (if is_free ep || include_exclusive then [ep] else [])
    ++ passing include_exclusive eps.
Proof.
  unfold passing. rewrite filter_cons.
  by destruct (is_free ep || include_exclusive).
Qed.

Lemma omap_length_le {A B} (f : A -> option B) (l : list A) :
  (length (omap f l) <= length l)%nat.
Proof.
  induction l as [|x l IH]; [done|]. cbn [omap list_omap]. fold (omap f l).
  destruct (f x); cbn [length]; lia.
Qed.

Section program_run.
Import generate_rss_feed.
Context (e : env) (program_id : string) (program_image : option string)
  (include_exclusive : bool).

Lemma program_step_run ep auth w o auth' w' :
  feed_step e program_id program_image include_exclusive ep auth w = Ok (o, auth', w') ->
  (forall it, o = Added it -> PyStr.truthy (item_enclosure_url it) = true)
  /\ exists evs,
       log w' = log w ++ evs
       /\ gets_only_for (if is_free ep || include_exclusive then [ep] else []) evs
       /\ (get_requests evs
           <= 2 * length (if is_free ep || include_exclusive then [ep] else []))%nat.
Proof.
  unfold feed_step.
  destruct (is_free ep) eqn:Hfree, include_exclusive eqn:Hincl; cbn [negb andb orb].
  4: { intros [= <- <- <-]. split; [done|]. exists []. rewrite app_nil_r.
       split; [done|]. split; [constructor|done]. }
  all: pose proof (feed_get_audio_url_events e (e_id ep) auth w) as Hev;
    destruct (feed_get_audio_url e (e_id ep) auth w) as [[url auth1] w1];
    destruct Hev as (evs & Hlog & Hget & Hfor);
    assert (gets_only_for [ep] evs /\ (get_requests evs <= 2 * length [ep])%nat) as Hevs
      by (split; [|done]; eapply Forall_impl; [done|];
          intros [[u ?|]|]; try done; intros ->; exists ep; split; [by left|done]);
    destruct url as [url|];
      [destruct (PyStr.truthy url) eqn:Hurl; cbn [negb]|];
      try (intros [= <- <- <-]; split; [done|]; by exists evs);
    unfold make_item;
    destruct (pub_date_of _) as [pd|]; [|done];
    destruct (itunes_duration_of _) as [dur|]; [|done];
    cbn; intros [= <- <- <-]; (split; [by intros it [= <-]|]); by exists evs.
Qed.

Lemma program_loop_run eps auth w os auth' w' :
  feed_loop e program_id program_image include_exclusive eps auth w = Ok (os, auth', w') ->
  length os = length eps
  /\ Forall (fun it => PyStr.truthy (item_enclosure_url it) = true) (items_of os)
  /\ exists evs,
       log w' = log w ++ evs
       /\ gets_only_for (passing include_exclusive eps) evs
       /\ (get_requests evs <= 2 * length (passing include_exclusive eps))%nat.
Proof.
  revert auth w os auth' w'. induction eps as [|ep eps IH]; intros auth w os auth' w'.
  - intros [= <- <- <-]. split; [done|]. split; [constructor|].
    exists []. rewrite app_nil_r. split; [done|]. split; [constructor|done].
  - cbn [feed_loop].
    destruct (feed_step _ _ _ _ ep auth w) as [[[o auth1] w1]|] eqn:Hstep; [|done].
    cbn [mbind result_bind].
    destruct (feed_loop _ _ _ _ eps auth1 w1) as [[[os1 auth2] w2]|] eqn:Hloop; [|done].
    cbn [mbind result_bind]. intros [= <- <- <-].
    destruct (program_step_run _ _ _ _ _ _ Hstep) as (Hurl & evs & Hlog & Hfor & Hget).
    destruct (IH _ _ _ _ _ Hloop) as (Hlen & Hurls & evs' & Hlog' & Hfor' & Hget').
    split; [cbn; by rewrite Hlen|]. split.
    + unfold items_of. cbn [omap list_omap]. fold (omap (fun o => match o with
                                                                 | Added it => Some it
                                                                 | Skipped => None
                                                                 end) os1).
      destruct o as [it|]; [|done]. constructor; [by apply Hurl|done].
    + exists (evs ++ evs'). rewrite Hlog', Hlog, app_assoc. split; [done|].
      rewrite passing_cons, get_requests_app, length_app.
      split; [by apply gets_only_for_app|lia].
Qed.

End program_run.


Lemma truthy_fields_Ok {A} (key : A -> field string) (l : list (option A)) k :
  generate_author_feed_by_id.truthy_fields key l = Ok k -> Forall (fun x => is_Some x) l.
Proof.
  revert k. induction l as [|[x|] l IH]; intros k; cbn [generate_author_feed_by_id.truthy_fields];
    [constructor| |done].
  destruct (generate_author_feed_by_id.truthy_fields key l) as [rest|]; [|done].
  intros _. constructor; [done|by eapply IH].
Qed.

Lemma item_lists_Ok ep lists :
  generate_author_feed_by_id.item_lists ep = Ok lists ->
  Forall (fun m => is_Some m) (team_of ep)
  /\ Forall (fun c => is_Some c) (default [] (get (e_categories ep))).
Proof.
  unfold generate_author_feed_by_id.item_lists.
  destruct (generate_author_feed_by_id.truthy_fields m_name _) as [authors|] eqn:Ha;
    [|done].
  cbn [mbind result_bind].
  destruct (generate_author_feed_by_id.truthy_fields m_email _) as [emails|]; [|done].
  cbn [mbind result_bind].
  destruct (generate_author_feed_by_id.truthy_fields c_name _) as [cats|] eqn:Hc; [|done].
  intros _. split; by eapply truthy_fields_Ok.
Qed.

Section author_run.
Import generate_author_feed_by_id.
Context (e : env) (author_id : string) (include_exclusive : bool).

Lemma author_step_run ep auth w o auth' w' :
  feed_step e author_id include_exclusive ep auth w = Ok (o, auth', w') ->
  (forall it, o = Added it -> PyStr.truthy (item_enclosure_url it) = true)
  /\ Forall (fun m => is_Some m) (team_of ep)
  /\ Forall (fun c => is_Some c) (default [] (get (e_categories ep)))
  /\ exists evs,
       log w' = log w ++ evs
       /\ gets_only_for (if is_free ep || include_exclusive then [ep] else []) evs
       /\ (get_requests evs
           <= 2 * length (if is_free ep || include_exclusive then [ep] else []))%nat.
Proof.
  unfold feed_step.
  destruct (item_lists ep) as [[[authors emails] cats]|] eqn:Hlists; [|done].
  destruct (item_lists_Ok _ _ Hlists) as [Hteam Hcats].
  cbn [mbind result_bind].
  destruct (is_free ep) eqn:Hfree, include_exclusive eqn:Hincl; cbn [negb andb orb].
  4: { intros [= <- <- <-]. split; [done|]. split; [done|]. split; [done|].
       exists []. rewrite app_nil_r. split; [done|]. split; [constructor|done]. }
  all: pose proof (feed_get_audio_url_events e (e_id ep) auth w) as Hev;
    destruct (feed_get_audio_url e (e_id ep) auth w) as [[url auth1] w1];
    destruct Hev as (evs & Hlog & Hget & Hfor);
    assert (gets_only_for [ep] evs /\ (get_requests evs <= 2 * length [ep])%nat) as Hevs
      by (split; [|done]; eapply Forall_impl; [done|];
          intros [[u ?|]|]; try done; intros ->; exists ep; split; [by left|done]);
    destruct url as [url|];
      [destruct (PyStr.truthy url) eqn:Hurl; cbn [negb]|];
      try (intros [= <- <- <-]; split; [done|]; split; [done|]; split; [done|];
           by exists evs);
    unfold make_item;
    destruct (pub_date_of _) as [pd|]; [|done];
    destruct (itunes_duration_of _) as [dur|]; [|done];
    cbn; intros [= <- <- <-]; (split; [by intros it [= <-]|]);
    split; [done|]; split; [done|]; by exists evs.
Qed.

Lemma author_loop_run eps auth w os auth' w' :
  feed_loop e author_id include_exclusive eps auth w = Ok (os, auth', w') ->
  length os = length eps
  /\ Forall (fun it => PyStr.truthy (item_enclosure_url it) = true) (items_of os)
  /\ Forall (fun ep => Forall (fun m => is_Some m) (team_of ep)
                       /\ Forall (fun c => is_Some c) (default [] (get (e_categories ep))))
       eps
  /\ exists evs,
       log w' = log w ++ evs
       /\ gets_only_for (passing include_exclusive eps) evs
       /\ (get_requests evs <= 2 * length (passing include_exclusive eps))%nat.
Proof.
  revert auth w os auth' w'. induction eps as [|ep eps IH]; intros auth w os auth' w'.
  - intros [= <- <- <-]. split; [done|]. split; [constructor|]. split; [constructor|].
    exists []. rewrite app_nil_r. split; [done|]. split; [constructor|done].
  - cbn [feed_loop].
    destruct (feed_step _ _ _ ep auth w) as [[[o auth1] w1]|] eqn:Hstep; [|done].
    cbn [mbind result_bind].
    destruct (feed_loop _ _ _ eps auth1 w1) as [[[os1 auth2] w2]|] eqn:Hloop; [|done].
    cbn [mbind result_bind]. intros [= <- <- <-].
    destruct (author_step_run _ _ _ _ _ _ Hstep)
      as (Hurl & Hteam & Hcats & evs & Hlog & Hfor & Hget).
    destruct (IH _ _ _ _ _ Hloop) as (Hlen & Hurls & Hnull & evs' & Hlog' & Hfor' & Hget').
    split; [cbn; by rewrite Hlen|]. split; [|split; [by constructor|]].
    + unfold items_of. cbn [omap list_omap]. fold (omap (fun o => match o with
                                                                 | Added it => Some it
                                                                 | Skipped => None
                                                                 end) os1).
      destruct o as [it|]; [|done]. constructor; [by apply Hurl|done].
    + exists (evs ++ evs'). rewrite Hlog', Hlog, app_assoc. split; [done|].
      rewrite passing_cons, get_requests_app, length_app.
      split; [by apply gets_only_for_app|lia].
Qed.

End author_run.


(** ** A download that succeeds *)

Lemma write_chunks_lookup_ne path chunks (fs : gmap string string) other :
  other <> path -> write_chunks path chunks fs !! other = fs !! other.
Proof.
  intros Hne. revert fs.
  induction chunks as [|chunk chunks IH]; intros fs; cbn [write_chunks]; [done|].
  rewrite IH. destruct (PyStr.truthy chunk); [|done].
  unfold write_chunk. by rewrite lookup_insert_ne.
Qed.


(** ** The programs of an author *)

Lemma elem_of_set_add x pn s : x ∈ set_add pn s <-> x = pn \/ x ∈ s.
Proof.
  unfold set_add. case_bool_decide as Hin.
  - split; [by right|]. by intros [->|?].
  - rewrite elem_of_app, list_elem_of_singleton. tauto.
Qed.

Lemma NoDup_set_add pn s : NoDup s -> NoDup (set_add pn s).
Proof.
  intros Hs. unfold set_add. case_bool_decide as Hin; [done|].
  apply NoDup_app. split; [done|]. split; [|apply NoDup_singleton].
  by intros x Hx ->%list_elem_of_singleton.
Qed.

Lemma add_author_progs pn name e d email :
  progs email (add_author pn name e d)
  = if bool_decide (e = email) then set_add pn (progs email d) else progs email d.
Proof.
  unfold add_author, progs. rewrite dict_lookup_alter.
  destruct (dict_lookup e d) as [data|] eqn:E.
  - case_bool_decide; [subst; by rewrite E|done].
  - rewrite dict_lookup_app. cbn [dict_lookup].
    case_bool_decide; [subst; by rewrite E|].
    by destruct (dict_lookup email d).
Qed.

Lemma counted_nonneg email ms : 0 <= counted email ms.
Proof. unfold counted. lia. Qed.

Section progs.
Context (email : string) (Hne : email <> "").

Lemma adds_nil pn d : adds email pn [] d d.
Proof. split; [done|]. intros x. rewrite counted_nil. split; [by left|]. intros [?|[_ ?]]; [done|lia]. Qed.

Lemma adds_app pn ms ms' d d' d'' :
  adds email pn ms d d' -> adds email pn ms' d' d'' -> adds email pn (ms ++ ms') d d''.
Proof.
  intros [Hnd Hin] [Hnd' Hin']. split; [auto|]. intros x.
  rewrite Hin', Hin, counted_app.
  pose proof (counted_nonneg email ms). pose proof (counted_nonneg email ms').
  split.
  - intros [[?|[? ?]]|[? ?]]; [by left|right; split; [done|lia]..].
  - intros [?|[? Hpos]]; [by left; left|].
    destruct (decide (0 < counted email ms)); [left; right; by split|].
    right. split; [done|lia].
Qed.

Lemma scan_member_adds pn d m : adds email pn (omap id [m]) d (scan_member pn d m).
Proof.
  destruct m as [m|]; [|apply adds_nil]. cbn [scan_member].
  change (omap id [Some m]) with [m].
  assert (counted email [m]
          = if bool_decide (stripped (m_email m) = email)
            then if PyStr.truthy (stripped (m_name m)) then 1 else 0 else 0) as Hc.
  { rewrite counted_cons, counted_nil. lia. }
  destruct (PyStr.truthy (stripped (m_email m))) eqn:He;
    destruct (PyStr.truthy (stripped (m_name m))) eqn:Hn; cbn [andb].
  2-4: split; [done|]; intros x; rewrite Hc; split; [by left|];
       intros [?|[_ Hpos]]; [done|]; case_bool_decide as Hk; try lia;
       subst email; by destruct (stripped (m_email m)).
  split.
  - rewrite add_author_progs. case_bool_decide; [apply NoDup_set_add|done].
  - intros x. rewrite add_author_progs, Hc. case_bool_decide.
    + rewrite elem_of_set_add. split; [intros [->|?]; [right; by split|by left]|].
      intros [?|[-> _]]; [by right|by left].
    + split; [by left|]. intros [?|[_ ?]]; [done|lia].
Qed.

Lemma scan_team_adds pn team d : adds email pn (omap id team) d (foldl (scan_member pn) d team).
Proof.
  revert d. induction team as [|m team IH]; intros d; cbn [foldl]; [apply adds_nil|].
  change (omap id (m :: team)) with (omap id ([m] ++ team)). rewrite omap_app.
  eapply adds_app; [apply scan_member_adds|apply IH].
Qed.

Lemma scan_episodes_adds pn eps d :
  adds email pn (memberships eps) d (foldl (scan_episode pn) d eps).
Proof.
  revert d. induction eps as [|ep eps IH]; intros d; cbn [foldl]; [apply adds_nil|].
  rewrite memberships_cons. eapply adds_app; [apply scan_team_adds|apply IH].
Qed.

Lemma scan_programs_progs api pids d :
  let d' := foldl (list_authors.scan_program api) d pids in
  (NoDup (progs email d) -> NoDup (progs email d'))
  /\ forall x, x ∈ progs email d' <-> x ∈ progs email d \/ counting email api pids x.
Proof.
  revert d. induction pids as [|pid pids IH]; intros d; cbn [foldl].
  - split; [done|]. intros x. split; [by left|].
    intros [?|(pid & info & []%elem_of_nil & _)]. done.
  - destruct (IH (list_authors.scan_program api d pid)) as [Hnd Hin].
    assert (adds email (match get_program_info api pid with
                  | Some info => program_name_of info pid
                  | None => None
                  end)
              (match get_program_info api pid with
               | Some info =>
                   memberships
                     (generate_author_feed_by_id.fetch_all_episodes_from_program
                        api pid 500)
               | None => []
               end) d (list_authors.scan_program api d pid)) as [Hnd1 Hin1].
    { unfold list_authors.scan_program.
      destruct (get_program_info api pid); [apply scan_episodes_adds|apply adds_nil]. }
    split; [auto|]. intros x. rewrite Hin, Hin1. split.
    + intros [[?|[Hx Hpos]]|(p & info & Hp & ?)]; [by left| |].
      * right. destruct (get_program_info api pid) as [info|] eqn:E;
          [|rewrite counted_nil in Hpos; lia].
        exists pid, info. split; [by left|done].
      * right. exists p, info. split; [by right|done].
    + intros [?|(p & info & [->|Hp]%elem_of_cons & Hinfo & Hx & Hpos)]; [by left; left| |].
      * left; right. by rewrite Hinfo.
      * right. by exists p, info.
Qed.

End progs.

Lemma insert_asc_perm x l : insert_asc x l ≡ₚ x :: l.
Proof.
  induction l as [|y l IH]; cbn [insert_asc]; [done|].
  destruct (String.leb x y); [done|]. rewrite IH. apply Permutation_swap.
Qed.

Lemma sort_asc_perm l : foldr insert_asc [] l ≡ₚ l.
Proof. induction l as [|x l IH]; [done|]. cbn [foldr]. by rewrite insert_asc_perm, IH. Qed.

Lemma insert_asc_sorted x l :
  Sorted (fun a b => String.leb a b = true) l ->
  Sorted (fun a b => String.leb a b = true) (insert_asc x l).
Proof.
  induction l as [|y l IH]; cbn [insert_asc]; intros Hl; [by repeat constructor|].
  destruct (String.leb x y) eqn:E; [constructor; [done|by constructor]|].
  apply Sorted_inv in Hl as [Hl Hy]. constructor; [by apply IH|].
  destruct l as [|z l]; cbn [insert_asc].
  - constructor. by destruct (String.leb_total x y) as [?|?]; [congruence|].
  - destruct (String.leb x z); constructor.
    + by destruct (String.leb_total x y) as [?|?]; [congruence|].
    + by apply HdRel_inv in Hy.
Qed.

Lemma sort_asc_sorted l : Sorted (fun a b => String.leb a b = true) (foldr insert_asc [] l).
Proof. induction l as [|x l IH]; [constructor|]. cbn [foldr]. by apply insert_asc_sorted. Qed.

Lemma omap_id_Some (names : list (option string)) :
  Forall (fun x => is_Some x) names -> Some <$> omap id names = names.
Proof.
  induction 1 as [|x names [n ->] _ IH]; [done|].
  cbn [omap list_omap]. fold (omap (@id (option string)) names).
  cbn. by rewrite IH.
Qed.

Lemma sorted_names_Ok names programs :
  Forall (fun x => is_Some x) names -> NoDup names ->
  sorted_names names = Ok programs ->
  exists ns,
    programs = Some <$> ns
    /\ Sorted (fun a b => String.leb a b = true) ns
    /\ NoDup ns
    /\ forall n, n ∈ ns <-> Some n ∈ names.
Proof.
  intros Hsome Hnd. unfold sorted_names.
  pose proof (omap_id_Some names Hsome) as Hnames.
  assert (NoDup (omap id names)) as Hnd'.
  { rewrite <- Hnames in Hnd. by apply NoDup_fmap in Hnd; [|intros ?? [=]]. }
  assert (forall n, n ∈ omap id names <-> Some n ∈ names) as Hin.
  { intros n. rewrite <- Hnames at 2. rewrite list_elem_of_fmap. split.
    - intros ?. by exists n.
    - by intros (n' & [= <-] & ?). }
  destruct (Nat.leb_spec (length names) 1) as [Hlen|Hlen].
  - intros [= <-]. exists (omap id names). split; [done|]. split; [|done].
    rewrite <- Hnames in Hlen. rewrite length_fmap in Hlen.
    destruct (omap id names) as [|a [|b l]]; [constructor|by repeat constructor|].
    cbn in Hlen. lia.
  - destruct (forallb _ names); [|done]. intros [= <-].
    exists (foldr insert_asc [] (omap id names)). split; [done|].
    split; [apply sort_asc_sorted|]. split; [by rewrite sort_asc_perm|].
    intros n. by rewrite sort_asc_perm.
Qed.

Lemma summaries_Ok_programs d l :
  summaries d = Ok l ->
  forall s, s ∈ l ->
    exists data, (s_email s, data) ∈ d
                 /\ sorted_names (ad_programs data) = Ok (s_programs s).
Proof.
  unfold summaries. destruct (mapM _ d) as [authors_list|] eqn:E; [|done].
  cbn. intros [= <-]. apply mapM_result_Ok in E.
  intros s Hs. rewrite sort_desc_perm in Hs.
  induction E as [|[email data] s' d' l' Hs' _ IH]; [by apply elem_of_nil in Hs|].
  apply elem_of_cons in Hs as [->|Hs].
  - destruct (sorted_names _) as [programs|] eqn:Hp; [|done]. cbn in Hs'.
    injection Hs' as <-. exists data. cbn. split; [left|done].
  - destruct (IH Hs) as (data' & ? & ?). exists data'. split; [by right|done].
Qed.


(** ** From the feed to the download *)

Lemma extract_guid_plain k owner episode_id :
  PyStr.contains_char "-" (format_id episode_id) = false ->
  download_from_feed.extract_podcast_id_from_guid (Some (guid k owner episode_id))
  = Some (format_id episode_id).
Proof.
  intros Hplain. destruct (guid_shape k owner episode_id) as [pre Hg].
  assert (guid k owner episode_id
          = ("radio357-" +:+ pre) +:+ String "-" (format_id episode_id)) as Hg'
    by (by rewrite Hg, append_assoc).
  unfold download_from_feed.extract_podcast_id_from_guid.
  replace (PyStr.truthy (guid k owner episode_id)) with true by (by rewrite Hg).
  replace (PyStr.startswith (guid k owner episode_id) "radio357-") with true
    by (by rewrite Hg, startswith_app).
  cbn [negb].
  pose proof (split_app_sep_length "-" ("radio357-" +:+ pre) (format_id episode_id))
    as Hlen.
  rewrite <- Hg' in Hlen. apply Nat.leb_le in Hlen. rewrite Hlen.
  by rewrite Hg', split_app_sep, last_app, (split_no_sep _ _ Hplain).
Qed.


(** ** From the list of authors to the author's episodes *)

Lemma counted_positive email ms :
  0 < counted email ms -> exists m, m ∈ ms /\ stripped (m_email m) = email.
Proof.
  unfold counted, named, carrying. intros Hpos.
  destruct (filter _ (filter _ ms)) as [|m l] eqn:E; [cbn in Hpos; lia|].
  assert (m ∈ filter (fun m => PyStr.truthy (stripped (m_name m)) = true)
                (filter (fun m => stripped (m_email m) = email) ms)) as Hin
    by (rewrite E; left).
  apply list_elem_of_filter in Hin as [_ Hin].
  apply list_elem_of_filter in Hin as [? ?]. by exists m.
Qed.

Lemma memberships_elem m eps :
  m ∈ memberships eps -> exists ep, ep ∈ eps /\ Some m ∈ team_of ep.
Proof.
  unfold memberships. intros (o & Hin & Ho)%list_elem_of_omap.
  cbn in Ho. subst o. apply list_elem_of_bind in Hin as (ep & ? & ?). by exists ep.
Qed.

Lemma scanned_episodes_cached api program_ids ep :
  ep ∈ scanned_episodes api program_ids ->
  exists cached,
    cached ∈ cached_episodes (generate_all_author_feeds.build_episodes_cache api program_ids)
    /\ team_of cached = team_of ep /\ is_free cached = is_free ep.
Proof.
  unfold scanned_episodes. intros (pid & Hep & Hpid)%list_elem_of_bind.
  destruct (get_program_info api pid) as [info|] eqn:Hinfo; [|by apply elem_of_nil in Hep].
  pose proof (build_cache_lookup api program_ids [] pid NoDup_nil_2) as [_ Hl].
  rewrite bool_decide_true in Hl by done.
  unfold cache_entry in Hl. rewrite Hinfo in Hl. cbn zeta in Hl.
  apply dict_lookup_elem_of in Hl.
  exists (generate_author_feed_by_id.inject (program_name_of info pid) pid
            (get_default (p_image info) "") ep).
  split; [|done]. unfold cached_episodes. apply list_elem_of_bind.
  eexists. split; [|exact Hl]. cbn. apply list_elem_of_fmap. by exists ep.
Qed.

Lemma on_team_member author_id ep m :
  Some m ∈ team_of ep -> stripped (m_email m) = author_id -> on_team author_id ep = true.
Proof.
  intros Hin Hm. unfold on_team. apply existsb_exists. exists (Some m).
  split; [by apply list_elem_of_In|]. by apply bool_decide_eq_true.
Qed.


(** ** The publish date of an item *)

Lemma local_outside e t :
  zone_ok e ->
  t < FIRST_SECOND - 90000 \/ LAST_SECOND + 90000 < t ->
  local e t = None.
Proof.
  intros Hz Ht. unfold local. pose proof (Hz t) as Ho.
  destruct (Z.leb_spec FIRST_SECOND (t + utcoffset e t)); [|done].
  destruct (Z.leb_spec (t + utcoffset e t) LAST_SECOND); [|done]. lia.
Qed.

Lemma fromtimestamp_ok_outside e millis :
  zone_ok e ->
  millis < (FIRST_SECOND - 90000) * 1000 \/ (LAST_SECOND + 90000) * 1000 + 1000 <= millis ->
  fromtimestamp_ok e millis = false.
Proof.
  intros Hz Hm. unfold fromtimestamp_ok. rewrite local_outside; [done..|].
  destruct Hm as [Hm|Hm]; [left|right].
  - apply Z.div_lt_upper_bound; lia.
  - assert (LAST_SECOND + 90000 + 1 <= millis / 1000); [|lia].
    apply Z.div_le_lower_bound; lia.
Qed.

Lemma mapM_result_Raise {A B} (f : A -> result B) (l : list A) x err :
  x ∈ l -> f x = Raise err -> exists err', mapM f l = Raise err'.
Proof.
  induction 1 as [x l|x y l _ IH]; intros Hx; cbn [mapM].
  - rewrite Hx. by eexists.
  - destruct (f y); [|by eexists]. destruct (IH Hx) as [err' ->]. by eexists.
Qed.


(** ** Further worked instances *)




















